(** * Device-group membership controller (forge/ee/db/controllers/DeviceGroup.js)

    A shallow embedding of the controller and of the part of the ORM it
    talks to, followed by the properties of the membership reconciliation
    (diff, validation, transactional apply) and of the update notifier.

    Conventions of the embedding.
    - A JavaScript value that may be [undefined], [null] or an array is a
      [ListArg]; a normalised device id is a [jsid] ([None] is [undefined]).
    - The database is a record of tables, each a [gmap] keyed by the primary
      key.  The controller runs against a [World]: the committed tables, the
      working copy of the open transaction (if any) and the log of every ORM
      call issued so far.
    - An async function is a computation in the state-and-exception monad
      [M]; [await] is sequencing, [throw] is [throw], and the world survives
      an exception (the log and the transaction state are still there when a
      [catch] block runs).
    - A model instance (the JS object [deviceGroup]) is a record; the one
      method that refreshes it in place, [reload], returns the refreshed
      record, and the functions that call it hand the refreshed record on. *)

From stdpp Require Import gmap strings list fin_maps.

Open Scope Z_scope.

(** ** JavaScript values *)

(** An optional list argument: absent, [null], or an array. *)
Inductive ListArg (A : Type) : Type :=
  | AUndefined
  | ANull
  | AArray (l : list A).
Arguments AUndefined {A}.
Arguments ANull {A}.
Arguments AArray {A} l.

(** [!x] is false exactly for an array (the empty array is truthy). *)
Definition truthy {A} (x : ListArg A) : bool :=
  match x with AArray _ => true | _ => false end.

(** [typeof x !== 'undefined'] *)
Definition defined {A} (x : ListArg A) : bool :=
  match x with AUndefined => false | _ => true end.

(** An optional scalar argument ([name], [description]). *)
Inductive Optional (A : Type) : Type :=
  | Undefined
  | Provided (a : A).
Arguments Undefined {A}.
Arguments Provided {A} a.

(** A normalised device id: a number, or [undefined] when a hash id does
    not decode. *)
Definition jsid : Type := option Z.

(** A reference to a device, as the API accepts it. *)
Inductive DeviceRef : Type :=
  | RefNum (n : Z)            (* typeof device === 'number' *)
  | RefHash (s : string)      (* typeof device === 'string' *)
  | RefObj (id : Z)           (* typeof device === 'object', with its id *)
  | RefUndefined.             (* undefined: passed through unchanged *)

Definition ref_of_id (i : jsid) : DeviceRef :=
  match i with Some n => RefNum n | None => RefUndefined end.

(** ** Errors *)

Inductive ErrorClass : Type :=
  | ClsError
  | ClsTypeError
  | ClsDeviceGroupMembershipValidationError.

(** Modelled from the spec: the base class ControllerError (lib/errors) is
    not among the sources; the error keeps the constructor's arguments
    (code, message, status code), which is all the controller relies on. *)
Record JsError : Type := mkError {
  err_class : ErrorClass;
  err_code : option string;
  message : string;
  statusCode : option Z }.

Definition Error (msg : string) : JsError := mkError ClsError None msg None.
Definition TypeError (msg : string) : JsError := mkError ClsTypeError None msg None.
Definition DeviceGroupMembershipValidationError (code msg : string) (status : Z) : JsError :=
  mkError ClsDeviceGroupMembershipValidationError (Some code) msg (Some status).

(** [err instanceof DeviceGroupMembershipValidationError] *)
Definition instanceof_validation (e : JsError) : bool :=
  match err_class e with
  | ClsDeviceGroupMembershipValidationError => true
  | _ => false
  end.

Inductive Outcome (A : Type) : Type :=
  | Ok (a : A)
  | Throw (e : JsError).
Arguments Ok {A} a.
Arguments Throw {A} e.

(** ** Tables *)

Module Device.
Record t : Type := mk {
  DeviceGroupId : option Z;
  ApplicationId : option Z;
  TeamId : option Z;
  targetSnapshotId : option Z;
  settingsHash : option string;
  mode : option string;
  hashid : string }.

Definition set_DeviceGroupId (v : option Z) (d : t) : t :=
  mk v (ApplicationId d) (TeamId d) (targetSnapshotId d)
     (settingsHash d) (mode d) (hashid d).
End Device.

Module Team.
Record t : Type := mk { hashid : string }.
End Team.

Module Application.
(** A row of the Application table; [Team] is the association loaded with
    [include: Team] (absent unless asked for). *)
Record t : Type := mk {
  hashid : string;
  TeamId : option Z;
  Team : option Team.t }.
End Application.

Module ProjectSnapshot.
Record t : Type := mk { hashid : string }.
End ProjectSnapshot.

Module PipelineStageDeviceGroup.
Record t : Type := mk { targetSnapshotId : option Z }.
End PipelineStageDeviceGroup.

Module DeviceGroupRow.
Record t : Type := mk {
  name : option string;
  description : option string;
  ApplicationId : option Z }.
End DeviceGroupRow.

Inductive GroupField : Type := FName | FDescription.

#[global] Instance GroupField_eq_dec : EqDecision GroupField.
Proof. solve_decision. Defined.

Module DeviceGroup.
(** A DeviceGroup model instance: its columns, the associations that may
    have been loaded with it, and the ORM's record of the columns assigned
    since the instance was last saved or reloaded. *)
Record t : Type := mk {
  id : Z;
  name : option string;
  description : option string;
  ApplicationId : option Z;
  Application : option Application.t;
  targetSnapshot : option ProjectSnapshot.t;
  PipelineStageDeviceGroup : option PipelineStageDeviceGroup.t;
  changed : list GroupField }.

(** [deviceGroup.name = v] *)
Definition set_name (v : option string) (g : t) : t :=
  mk (id g) v (description g) (ApplicationId g) (Application g)
     (targetSnapshot g) (PipelineStageDeviceGroup g) (FName :: changed g).

(** [deviceGroup.description = v] *)
Definition set_description (v : option string) (g : t) : t :=
  mk (id g) (name g) v (ApplicationId g) (Application g)
     (targetSnapshot g) (PipelineStageDeviceGroup g) (FDescription :: changed g).
End DeviceGroup.

(** The [deviceGroup] argument: [null]/[undefined], a primitive (with its
    truthiness), or a model instance. *)
Inductive GroupArg : Type :=
  | GNull
  | GPrimitive (truthy : bool)
  | GObject (g : DeviceGroup.t).

Record Store : Type := mkStore {
  devices : gmap Z Device.t;
  groups : gmap Z DeviceGroupRow.t;
  applications : gmap Z Application.t;
  teams : gmap Z Team.t;
  snapshots : gmap Z ProjectSnapshot.t }.

Definition set_devices (ds : gmap Z Device.t) (s : Store) : Store :=
  mkStore ds (groups s) (applications s) (teams s) (snapshots s).

Definition set_groups (gs : gmap Z DeviceGroupRow.t) (s : Store) : Store :=
  mkStore (devices s) gs (applications s) (teams s) (snapshots s).

(** ** Queries on the Device table *)

(** The [where] option of [Device.count] and [Device.update]: [id] is an IN
    list; a column left out is [None]; [DeviceGroupId] takes the
    alternatives of an [Op.or] (a single value is a one-element list). *)
Record DeviceWhere : Type := mkWhere {
  where_id : list jsid;
  where_DeviceGroupId : option (list (option Z));
  where_ApplicationId : option (option Z);
  where_TeamId : option (option Z) }.

Definition col_matches {A} `{EqDecision A} (c : option A) (v : A) : bool :=
  match c with None => true | Some x => bool_decide (x = v) end.

Definition row_matches (wh : DeviceWhere) (i : Z) (d : Device.t) : bool :=
  bool_decide (Some i ∈ where_id wh)
  && match where_DeviceGroupId wh with
     | None => true
     | Some alts => bool_decide (Device.DeviceGroupId d ∈ alts)
     end
  && col_matches (where_ApplicationId wh) (Device.ApplicationId d)
  && col_matches (where_TeamId wh) (Device.TeamId d).

Definition count_rows (wh : DeviceWhere) (ds : gmap Z Device.t) : nat :=
  size (filter (λ kv : Z * Device.t, Is_true (row_matches wh kv.1 kv.2)) ds).

(** [UPDATE Devices SET DeviceGroupId = v WHERE ...] *)
Definition update_rows (v : option Z) (wh : DeviceWhere) (ds : gmap Z Device.t)
  : gmap Z Device.t :=
  map_imap (λ i d, Some (if row_matches wh i d then Device.set_DeviceGroupId v d else d)) ds.

(** The rows [deviceGroup.getDevices()] returns: those pointing at the group. *)
Definition members_of (gid : Z) (ds : gmap Z Device.t) : list (Z * Device.t) :=
  map_to_list (filter (λ kv : Z * Device.t, Device.DeviceGroupId kv.2 = Some gid) ds).

(** ** The world and the monad *)

Record Payload : Type := mkPayload {
  ownerType : string;
  application : string;
  snapshot : string;
  settings : option string;
  p_mode : option string;
  licensed : bool }.

(** One entry per call made to the ORM or to the messaging layer. *)
Inductive Event : Type :=
  | EvGetDevices (gid : Z)
  | EvCount (wh : DeviceWhere)
  | EvUpdate (v : option Z) (wh : DeviceWhere) (in_transaction : bool)
  | EvTransaction
  | EvCommit
  | EvRollback
  | EvSave (gid : Z)
  | EvReload (gid : Z)
  | EvGetApplication (gid : Z)
  | EvSnapshotById (sid : option Z)
  | EvSendCommand (team device command : string) (payload : Payload).

Definition is_write (e : Event) : bool :=
  match e with EvUpdate _ _ _ | EvSave _ => true | _ => false end.

Record World : Type := mkWorld {
  committed : Store;
  working : option Store;
  log : list Event }.

Definition M (A : Type) : Type := World → Outcome A * World.

#[global] Instance M_ret : MRet M := λ A a w, (Ok a, w).
#[global] Instance M_bind : MBind M := λ A B f m w,
  match m w with
  | (Ok a, w') => f a w'
  | (Throw e, w') => (Throw e, w')
  end.

Definition throw {A} (e : JsError) : M A := λ w, (Throw e, w).

(** [try { body } catch (err) { handler }] *)
Definition try_catch {A} (body : M A) (handler : JsError → M A) : M A := λ w,
  match body w with
  | (Ok a, w') => (Ok a, w')
  | (Throw e, w') => handler e w'
  end.

Definition emit (e : Event) : M unit := λ w,
  (Ok tt, mkWorld (committed w) (working w) (log w ++ [e])).

(** Read from the world. *)
Definition gets {A} (f : World → A) : M A := λ w, (Ok (f w), w).

(** The application object: the messaging layer may be absent, the licence
    is active or not, hash ids decode to an array of numbers, and a
    statement sent to the database may fail with a message of its own. *)
Record App : Type := mkApp {
  comms : bool;
  license_active : bool;
  decodeHashid : string → list Z;
  db_fault : Event → option string }.

(** A transaction handle; the ORM has at most one open in this model. *)
Inductive Transaction : Type := Txn.

(** Run a statement: log it, and fail if the database refuses it. *)
Definition statement (app : App) (e : Event) : M unit :=
  emit e;;
  match db_fault app e with
  | Some msg => throw (Error msg)
  | None => mret tt
  end.

(** [app.db.sequelize.transaction()] *)
Definition transaction : M Transaction := λ w,
  (Ok Txn, mkWorld (committed w) (Some (committed w)) (log w ++ [EvTransaction])).

(** [t.commit()]: a statement of its own, which the database may refuse;
    nothing is committed then and the transaction is left to the handler. *)
Definition commit (app : App) (t : Transaction) : M unit := λ w,
  match working w with
  | Some s =>
      match db_fault app EvCommit with
      | None => (Ok tt, mkWorld s None (log w ++ [EvCommit]))
      | Some msg =>
          (Throw (Error msg), mkWorld (committed w) (working w) (log w ++ [EvCommit]))
      end
  | None => (Throw (Error "Transaction cannot be committed because it has been finished"), w)
  end.

(** [t.rollback()]: the working copy is dropped; the statement itself may
    be refused, and the call throws then. *)
Definition rollback (app : App) (t : Transaction) : M unit := λ w,
  match working w with
  | Some _ =>
      (match db_fault app EvRollback with
       | None => Ok tt
       | Some msg => Throw (Error msg)
       end,
       mkWorld (committed w) None (log w ++ [EvRollback]))
  | None => (Throw (Error "Transaction cannot be rolled back because it has been finished"), w)
  end.

(** [app.db.models.Device.count({ where })]: the controller passes no
    transaction, so the count reads the committed tables. *)
Definition Device_count (app : App) (wh : DeviceWhere) : M nat :=
  statement app (EvCount wh);;
  gets (λ w, count_rows wh (devices (committed w))).

(** The effect of an update on the tables: inside the transaction it
    touches the working copy only, outside it is committed at once. *)
Definition write_devices (v : option Z) (wh : DeviceWhere) (t : option Transaction)
  : M unit := λ w,
  match t with
  | None =>
      (Ok tt, mkWorld (set_devices (update_rows v wh (devices (committed w))) (committed w))
                      (working w) (log w))
  | Some _ =>
      match working w with
      | Some s =>
          (Ok tt, mkWorld (committed w)
                          (Some (set_devices (update_rows v wh (devices s)) s)) (log w))
      | None => (Throw (Error "Transaction has been finished"), w)
      end
  end.

(** [app.db.models.Device.update({ DeviceGroupId: v }, { where, transaction })] *)
Definition Device_update (app : App) (v : option Z) (wh : DeviceWhere)
    (t : option Transaction) : M unit :=
  statement app (EvUpdate v wh (if t is Some _ then true else false));;
  write_devices v wh t.

(** [deviceGroup.getDevices()] *)
Definition getDevices (g : DeviceGroup.t) : M (list (Z * Device.t)) :=
  emit (EvGetDevices (DeviceGroup.id g));;
  gets (λ w, members_of (DeviceGroup.id g) (devices (committed w))).

(** The instance as [reload] leaves it: columns read back from the row; with
    [include: Application] the association is read too. *)
Definition refreshed (include_application : bool) (s : Store) (g : DeviceGroup.t)
    (row : DeviceGroupRow.t) : DeviceGroup.t :=
  DeviceGroup.mk (DeviceGroup.id g)
    (DeviceGroupRow.name row) (DeviceGroupRow.description row)
    (DeviceGroupRow.ApplicationId row)
    (if include_application
     then DeviceGroupRow.ApplicationId row ≫= λ a, applications s !! a
     else DeviceGroup.Application g)
    (DeviceGroup.targetSnapshot g) (DeviceGroup.PipelineStageDeviceGroup g) [].

(** [deviceGroup.reload(options)] *)
Definition reload (include_application : bool) (g : DeviceGroup.t) : M DeviceGroup.t :=
  emit (EvReload (DeviceGroup.id g));;
  s ← gets committed;
  match groups s !! DeviceGroup.id g with
  | Some row => mret (refreshed include_application s g row)
  | None =>
      throw (Error "Instance could not be reloaded because it does not exist anymore (find call returned null)")
  end.

(** The row as [save] writes it: only the columns assigned on the instance. *)
Definition saved_row (g : DeviceGroup.t) (row : DeviceGroupRow.t) : DeviceGroupRow.t :=
  DeviceGroupRow.mk
    (if bool_decide (FName ∈ DeviceGroup.changed g)
     then DeviceGroup.name g else DeviceGroupRow.name row)
    (if bool_decide (FDescription ∈ DeviceGroup.changed g)
     then DeviceGroup.description g else DeviceGroupRow.description row)
    (DeviceGroupRow.ApplicationId row).

(** [deviceGroup.save()] *)
Definition save (g : DeviceGroup.t) : M unit := λ w,
  let s := committed w in
  (Ok tt,
   mkWorld (set_groups (alter (saved_row g) (DeviceGroup.id g) (groups s)) s)
           (working w) (log w ++ [EvSave (DeviceGroup.id g)])).

(** ** The controller *)

(** [deviceListToIds(deviceList, decoderFn)], on an array. *)
Definition deviceListToIds (deviceList : list DeviceRef) (decoderFn : string → list Z)
  : list jsid :=
  map (λ device,
         match device with
         | RefHash s => head (decoderFn s)        (* [id] = decoderFn(device) *)
         | RefObj i => Some i                     (* id = device.id *)
         | RefNum n => Some n                     (* id = device *)
         | RefUndefined => None
         end) deviceList.

(** [x && deviceListToIds(x, decoderFn)] *)
Definition and_deviceListToIds (x : ListArg DeviceRef) (decoderFn : string → list Z)
  : ListArg jsid :=
  match x with
  | AUndefined => AUndefined
  | ANull => ANull
  | AArray l => AArray (deviceListToIds l decoderFn)
  end.

(** [list.includes(d)] on normalised ids. *)
Definition includes (l : list jsid) (d : jsid) : bool := bool_decide (d ∈ l).

(** A JavaScript number used as a condition. *)
Definition truthy_id (x : option Z) : bool :=
  match x with Some n => negb (n =? 0) | None => false end.

Module DeviceIds.
Record t : Type := mk {
  addList : option (list jsid);
  removeList : option (list jsid) }.
End DeviceIds.

Definition add_where (g : DeviceGroup.t) (teamId : option Z) (ids : list jsid) : DeviceWhere :=
  mkWhere ids (Some [None; Some (DeviceGroup.id g)])
          (Some (DeviceGroup.ApplicationId g)) (Some teamId).

Definition remove_where (g : DeviceGroup.t) (teamId : option Z) (ids : list jsid) : DeviceWhere :=
  mkWhere ids (Some [Some (DeviceGroup.id g)])
          (Some (DeviceGroup.ApplicationId g)) (Some teamId).

(** [validateDeviceList(app, deviceGroup, addList, removeList)]; returns the
    instance as the call leaves it together with the normalised lists. *)
Definition validateDeviceList (app : App) (deviceGroup : GroupArg)
    (addList removeList : option (list DeviceRef)) : M (DeviceGroup.t * DeviceIds.t) :=
  match deviceGroup with
  | GObject g0 =>
      g ← (if DeviceGroup.Application g0 is Some _ then mret g0 else reload true g0);
      match DeviceGroup.Application g with
      | None => throw (TypeError "Cannot read properties of null (reading 'TeamId')")
      | Some a =>
          let teamId := Application.TeamId a in
          if negb (truthy_id teamId)
          then throw (Error "DeviceGroup must belong to an Application that belongs to a Team")
          else
            let deviceIds :=
              DeviceIds.mk ((λ l, deviceListToIds l (decodeHashid app)) <$> addList)
                          ((λ l, deviceListToIds l (decodeHashid app)) <$> removeList) in
            (if DeviceIds.addList deviceIds is Some ids then
               okCount ← Device_count app (add_where g teamId ids);
               if bool_decide (okCount ≠ length ids)
               then throw (DeviceGroupMembershipValidationError "invalid_input"
                             "One or more devices cannot be added to the group" 400)
               else mret tt
             else mret tt);;
            (if DeviceIds.removeList deviceIds is Some ids then
               okCount ← Device_count app (remove_where g teamId ids);
               if bool_decide (okCount ≠ length ids)
               then throw (DeviceGroupMembershipValidationError "invalid_input"
                             "One or more devices cannot be removed from the group" 400)
               else mret tt
             else mret tt);;
            mret (g, deviceIds)
      end
  | _ => throw (Error "DeviceGroup is required")
  end.

(** [where: { id: list }] with [list] possibly [null]. *)
Definition id_list (l : option (list jsid)) : list jsid := default [] l.

(** [assignDevicesToGroup(app, deviceGroup, deviceList, transaction)] *)
Definition assignDevicesToGroup (app : App) (deviceGroup : GroupArg)
    (deviceList : list DeviceRef) (t : option Transaction) : M DeviceGroup.t :=
  '(g, deviceIds) ← validateDeviceList app deviceGroup (Some deviceList) None;
  Device_update app (Some (DeviceGroup.id g))
    (mkWhere (id_list (DeviceIds.addList deviceIds)) None None None) t;;
  mret g.

(** [removeDevicesFromGroup(app, deviceGroup, deviceList, transaction)] *)
Definition removeDevicesFromGroup (app : App) (deviceGroup : GroupArg)
    (deviceList : list DeviceRef) (t : option Transaction) : M DeviceGroup.t :=
  '(g, deviceIds) ← validateDeviceList app deviceGroup None (Some deviceList);
  Device_update app None
    (mkWhere (id_list (DeviceIds.removeList deviceIds)) (Some [Some (DeviceGroup.id g)]) None None) t;;
  mret g.

(** Lines 76-98 of the controller: the lists of devices to remove and to
    add, from the ids of the current members and the normalised request.
    A [null] list is not [undefined], so the code goes on to call
    [includes] or [filter] on it. *)
Definition computeDiff (currentMemberIds : list jsid)
    (setDevices addDevices removeDevices : ListArg jsid)
  : Outcome (list jsid * list jsid) :=
  let null_includes := TypeError "Cannot read properties of null (reading 'includes')" in
  let null_filter := TypeError "Cannot read properties of null (reading 'filter')" in
  if defined setDevices then
    match setDevices with
    | AArray setIds =>
        Ok (filter (λ d, negb (includes setIds d)) currentMemberIds,
            filter (λ d, negb (includes currentMemberIds d)) setIds)
    | _ =>
        if bool_decide (currentMemberIds = []) then Throw null_filter else Throw null_includes
    end
  else
    let actualRemoveDevices :=
      match removeDevices with
      | AUndefined => Ok []
      | AArray removeIds => Ok (filter (λ d, includes removeIds d) currentMemberIds)
      | ANull => if bool_decide (currentMemberIds = []) then Ok [] else Throw null_includes
      end in
    match actualRemoveDevices with
    | Throw e => Throw e
    | Ok toRemove =>
        match addDevices with
        | AUndefined => Ok (toRemove, [])
        | AArray addIds =>
            Ok (toRemove, filter (λ d, negb (includes currentMemberIds d)) addIds)
        | ANull => Throw null_filter
        end
    end.

Definition lift_outcome {A} (o : Outcome A) : M A :=
  match o with Ok a => mret a | Throw e => throw e end.

(** The body of the [try] block: add, then remove, then commit. *)
Definition applyChanges (app : App) (g : DeviceGroup.t)
    (actualAddDevices actualRemoveDevices : list jsid) (t : Transaction)
  : M DeviceGroup.t :=
  g1 ← (if (0 <? length actualAddDevices)%nat
        then assignDevicesToGroup app (GObject g) (ref_of_id <$> actualAddDevices) (Some t)
        else mret g);
  g2 ← (if (0 <? length actualRemoveDevices)%nat
        then removeDevicesFromGroup app (GObject g1) (ref_of_id <$> actualRemoveDevices) (Some t)
        else mret g1);
  commit app t;;
  mret g2.

(** The [catch] block: roll back, rethrow a validation error as it is and
    anything else wrapped; an error of the rollback itself leaves the block
    at once. *)
Definition onApplyError (app : App) (t : Transaction) (err : JsError) : M DeviceGroup.t :=
  rollback app t;;
  if instanceof_validation err
  then throw err
  else throw (Error ("Failed to update device group membership: " +:+ message err)).

(** [updateDeviceGroupMembership(app, deviceGroup, { addDevices, removeDevices, setDevices })];
    the result is the [deviceGroup] argument as the call leaves it. *)
Definition updateDeviceGroupMembership (app : App) (deviceGroup : GroupArg)
    (addDevices removeDevices setDevices : ListArg DeviceRef) : M GroupArg :=
  if negb (truthy setDevices) && negb (truthy addDevices) && negb (truthy removeDevices)
  then mret deviceGroup                       (* nothing to do *)
  else
    match deviceGroup with
    | GObject g =>
        currentMembers ← getDevices g;
        let currentMemberIds :=
          deviceListToIds ((λ kv, RefObj kv.1) <$> currentMembers) (decodeHashid app) in
        let setIds := and_deviceListToIds setDevices (decodeHashid app) in
        let addIds := and_deviceListToIds addDevices (decodeHashid app) in
        let removeIds := and_deviceListToIds removeDevices (decodeHashid app) in
        '(actualRemoveDevices, actualAddDevices) ←
          lift_outcome (computeDiff currentMemberIds setIds addIds removeIds);
        t ← transaction;
        g' ← try_catch (applyChanges app g actualAddDevices actualRemoveDevices t)
                       (onApplyError app t);
        mret (GObject g')
    | _ => throw (Error "DeviceGroup is required")
    end.

(** [typeof x !== 'undefined'] for a scalar argument. *)
Definition provided {A} (x : Optional A) : bool :=
  match x with Provided _ => true | Undefined => false end.

(** [updateDeviceGroup(app, deviceGroup, { name, description })].  The file
    is not in strict mode: assigning a property of a primitive is ignored,
    and a primitive has no [save]. *)
Definition updateDeviceGroup (app : App) (deviceGroup : GroupArg)
    (name description : Optional (option string)) : M GroupArg :=
  match deviceGroup with
  | GNull | GPrimitive false => throw (Error "DeviceGroup is required")
  | GPrimitive true =>
      if provided name || provided description
      then throw (TypeError "deviceGroup.save is not a function")
      else mret deviceGroup
  | GObject g =>
      let changed := false in
      let '(g, changed) :=
        match name with
        | Provided v => (DeviceGroup.set_name v g, true)
        | Undefined => (g, changed)
        end in
      let '(g, changed) :=
        match description with
        | Provided v => (DeviceGroup.set_description v g, true)
        | Undefined => (g, changed)
        end in
      if changed
      then save g;; g' ← reload false g; mret (GObject g')
      else mret (GObject g)
  end.

(** [deviceGroup.getApplication({ include: [{ model: Team }] })] *)
Definition getApplication (g : DeviceGroup.t) : M (option Application.t) :=
  emit (EvGetApplication (DeviceGroup.id g));;
  s ← gets committed;
  mret (a ← DeviceGroup.ApplicationId g ≫= λ i, applications s !! i;
        Some (Application.mk (Application.hashid a) (Application.TeamId a)
                (Application.TeamId a ≫= λ i, teams s !! i))).

(** [app.db.models.ProjectSnapshot.byId(id)] *)
Definition ProjectSnapshot_byId (sid : option Z) : M (option ProjectSnapshot.t) :=
  emit (EvSnapshotById sid);;
  s ← gets committed;
  mret (sid ≫= λ i, snapshots s !! i).

(** [for (const x of xs) { body }] *)
Fixpoint for_of {A} (xs : list A) (body : A → M unit) : M unit :=
  match xs with
  | [] => mret tt
  | x :: rest => body x;; for_of rest body
  end.

(** [s || null] on a string or null. *)
Definition or_null (s : option string) : option string :=
  match s with
  | Some str => if bool_decide (str = "") then None else Some str
  | None => None
  end.

(** The body of the loop of [sendUpdateCommand], for one device. *)
Definition sendUpdateTo (g : DeviceGroup.t) (a : Application.t)
    (payloadTemplate : Payload) (device : Z * Device.t) : M unit :=
  match DeviceGroup.PipelineStageDeviceGroup g with
  | None => throw (TypeError "Cannot read properties of undefined (reading 'targetSnapshotId')")
  | Some stage =>
      if bool_decide (Device.targetSnapshotId device.2
                      ≠ PipelineStageDeviceGroup.targetSnapshotId stage)
      then mret tt                                   (* continue *)
      else
        let payload :=
          mkPayload (ownerType payloadTemplate) (application payloadTemplate)
                    (snapshot payloadTemplate)
                    (or_null (Device.settingsHash device.2))
                    (Device.mode device.2)
                    (licensed payloadTemplate) in
        match Application.Team a with
        | None => throw (TypeError "Cannot read properties of undefined (reading 'hashid')")
        | Some team =>
            emit (EvSendCommand (Team.hashid team) (Device.hashid device.2) "update" payload)
        end
  end.

(** [sendUpdateCommand(app, deviceGroup)] *)
Definition sendUpdateCommand (app : App) (deviceGroup : DeviceGroup.t) : M unit :=
  if comms app then
    application ← getApplication deviceGroup;
    targetSnapshot ←
      (match DeviceGroup.targetSnapshot deviceGroup with
       | Some s => mret (Some s)
       | None =>
           match DeviceGroup.PipelineStageDeviceGroup deviceGroup with
           | None =>
               throw (TypeError "Cannot read properties of undefined (reading 'targetSnapshotId')")
           | Some stage =>
               ProjectSnapshot_byId (PipelineStageDeviceGroup.targetSnapshotId stage)
           end
       end);
    match application, targetSnapshot with
    | None, _ | _, None => throw (TypeError "Cannot read properties of null (reading 'hashid')")
    | Some a, Some snap =>
        let payloadTemplate :=
          mkPayload "application" (Application.hashid a) (ProjectSnapshot.hashid snap)
                    None None (license_active app) in
        devices ← getDevices deviceGroup;
        for_of devices (sendUpdateTo deviceGroup a payloadTemplate)
    end
  else mret tt.

(** ** Vocabulary of the specification *)

(** The part of a [where] clause that looks at the row, not at its id. *)
Definition row_ok (wh : DeviceWhere) (d : Device.t) : bool :=
  match where_DeviceGroupId wh with
  | None => true
  | Some alts => bool_decide (Device.DeviceGroupId d ∈ alts)
  end
  && col_matches (where_ApplicationId wh) (Device.ApplicationId d)
  && col_matches (where_TeamId wh) (Device.TeamId d).

(** The id names a row that the [where] clause accepts. *)
Definition selects (wh : DeviceWhere) (ds : gmap Z Device.t) (i : jsid) : Prop :=
  ∃ k d, i = Some k ∧ ds !! k = Some d ∧ row_ok wh d = true.

(** Device [k] is a member of group [gid]. *)
Definition is_member (gid : Z) (s : Store) (k : Z) : Prop :=
  ∃ d, devices s !! k = Some d ∧ Device.DeviceGroupId d = Some gid.

(** The ids [deviceListToIds] gives for the rows [getDevices] returns. *)
Definition currentMemberIds (app : App) (g : DeviceGroup.t) (s : Store) : list jsid :=
  deviceListToIds ((λ kv, RefObj kv.1) <$> members_of (DeviceGroup.id g) (devices s))
    (decodeHashid app).

(** A device that may be added to the group: it exists, is unassigned or
    already in the group, and has the group's application and team. *)
Definition eligible (g : DeviceGroup.t) (teamId : option Z) (s : Store) (i : jsid) : Prop :=
  ∃ k d, i = Some k ∧ devices s !! k = Some d
    ∧ (Device.DeviceGroupId d = None ∨ Device.DeviceGroupId d = Some (DeviceGroup.id g))
    ∧ Device.ApplicationId d = DeviceGroup.ApplicationId g
    ∧ Device.TeamId d = teamId.

(** A device that may be removed from the group. *)
Definition removable (g : DeviceGroup.t) (teamId : option Z) (s : Store) (i : jsid) : Prop :=
  ∃ k d, i = Some k ∧ devices s !! k = Some d
    ∧ Device.DeviceGroupId d = Some (DeviceGroup.id g)
    ∧ Device.ApplicationId d = DeviceGroup.ApplicationId g
    ∧ Device.TeamId d = teamId.

(** The instance agrees with the tables on what validation reads from it:
    its row exists with the same application, and a loaded [Application]
    is the group's application with the team the table records. *)
Definition in_sync (s : Store) (g : DeviceGroup.t) : Prop :=
  ∃ row, groups s !! DeviceGroup.id g = Some row
    ∧ DeviceGroupRow.ApplicationId row = DeviceGroup.ApplicationId g
    ∧ ∀ a, DeviceGroup.Application g = Some a →
        ∃ aid arow, DeviceGroup.ApplicationId g = Some aid
          ∧ applications s !! aid = Some arow
          ∧ Application.TeamId arow = Application.TeamId a.

(** The membership invariant: a device in a group has the application that
    owns the group and the team that owns that application. *)
Definition membership_invariant (s : Store) : Prop :=
  ∀ k d gid, devices s !! k = Some d → Device.DeviceGroupId d = Some gid →
    ∃ row aid arow, groups s !! gid = Some row
      ∧ DeviceGroupRow.ApplicationId row = Some aid
      ∧ Device.ApplicationId d = Some aid
      ∧ applications s !! aid = Some arow
      ∧ Device.TeamId d = Application.TeamId arow.

(** A device is in at most one group. *)
Definition at_most_one_group (s : Store) : Prop :=
  ∀ k g1 g2, is_member g1 s k → is_member g2 s k → g1 = g2.

(** The writes among the calls logged. *)
Definition writes (w : World) : list Event :=
  filter (λ e, Is_true (is_write e)) (log w).

(** The commands sent among the calls logged. *)
Definition is_command (e : Event) : bool :=
  match e with EvSendCommand _ _ _ _ => true | _ => false end.

(** The world at the [try]: the members have been read and the
    transaction is open. *)
Definition at_try (g : DeviceGroup.t) (w : World) : World :=
  mkWorld (committed w) (Some (committed w))
          (log w ++ [EvGetDevices (DeviceGroup.id g); EvTransaction]).

(** What the caller of [updateDeviceGroupMembership] sees for an error [e]
    of the [try] block. *)
Definition wrapped (e : JsError) : JsError :=
  Error ("Failed to update device group membership: " +:+ message e).

(** What leaves the [catch] block for an error [e] of the [try] block: the
    error of the rollback when the database refuses it, else [e] itself if
    it is a validation error and [e] wrapped if it is not. *)
Definition rethrown (app : App) (e : JsError) : JsError :=
  match db_fault app EvRollback with
  | Some msg => Error msg
  | None => if instanceof_validation e then e else wrapped e
  end.

(** ** Vocabulary for reasoning about computations *)

(** [wp m Q w]: running [m] in [w] ends in an outcome and a world that
    satisfy [Q]. *)
Definition wp {A} (m : M A) (Q : Outcome A → World → Prop) (w : World) : Prop :=
  Q (m w).1 (m w).2.

(** The computation only read: tables, transaction and writes are as before. *)
Definition reads_only (w w' : World) : Prop :=
  committed w' = committed w ∧ working w' = working w ∧ writes w' = writes w.

(** [validateDeviceList] hands on the instance it was given, or, when the
    application was not loaded, the instance as reloaded. *)
Definition resolved_from (s : Store) (g0 g : DeviceGroup.t) : Prop :=
  g = g0 ∨ (DeviceGroup.Application g0 = None
            ∧ ∃ row, groups s !! DeviceGroup.id g0 = Some row
                     ∧ g = refreshed true s g0 row).

Definition normalised (app : App) (l : option (list DeviceRef)) : option (list jsid) :=
  (λ l, deviceListToIds l (decodeHashid app)) <$> l.

(** The two updates of [updateDeviceGroupMembership], as [where] clauses. *)
Definition assign_where (ids : list jsid) : DeviceWhere := mkWhere ids None None None.
Definition unassign_where (g : DeviceGroup.t) (ids : list jsid) : DeviceWhere :=
  mkWhere ids (Some [Some (DeviceGroup.id g)]) None None.

(** The Device table after both updates. *)
Definition reconciled (g : DeviceGroup.t) (ad rm : list jsid) (ds : gmap Z Device.t)
  : gmap Z Device.t :=
  update_rows None (unassign_where g rm)
    (update_rows (Some (DeviceGroup.id g)) (assign_where ad) ds).

(** The writes of a successful reconciliation: one update per non-empty list. *)
Definition reconcile_writes (g : DeviceGroup.t) (ad rm : list jsid) : list Event :=
  (if ad is [] then [] else [EvUpdate (Some (DeviceGroup.id g)) (assign_where ad) true])
  ++ (if rm is [] then [] else [EvUpdate None (unassign_where g rm) true]).

(** The command [sendUpdateCommand] sends to one device. *)
Definition update_command (app : App) (a : Application.t) (team : Team.t)
    (snap : ProjectSnapshot.t) (device : Z * Device.t) : Event :=
  EvSendCommand (Team.hashid team) (Device.hashid device.2) "update"
    (mkPayload "application" (Application.hashid a) (ProjectSnapshot.hashid snap)
       (or_null (Device.settingsHash device.2)) (Device.mode device.2)
       (license_active app)).

(** The devices of a list that are at the target of the stage. *)
Definition at_target (stage : PipelineStageDeviceGroup.t) (l : list (Z * Device.t))
  : list (Z * Device.t) :=
  filter (λ kd, Device.targetSnapshotId kd.2 = PipelineStageDeviceGroup.targetSnapshotId stage) l.

(** The list an optional argument stands for: none when it is absent. *)
Definition ids_of (x : ListArg jsid) : list jsid :=
  match x with AArray l => l | _ => [] end.

(** ** A sample deployment

    Team 1 owns application 1, which owns group 1.  Devices 1, 2 and 3 are
    in the group; device 4 is unassigned and of the same application and
    team; device 5 is unassigned and of another team. *)
Module Sample.
Definition device (g : option Z) (team : Z) (target : option Z) (h : string) : Device.t :=
  Device.mk g (Some 1) (Some team) target (Some "cfg") (Some "autonomous") h.

Definition store : Store :=
  mkStore
    (list_to_map [(1, device (Some 1) 1 (Some 7) "d1"); (2, device (Some 1) 1 (Some 8) "d2");
                  (3, device (Some 1) 1 (Some 7) "d3"); (4, device None 1 None "d4");
                  (5, device None 2 None "d5")])
    (list_to_map [(1, DeviceGroupRow.mk (Some "Group") None (Some 1))])
    (list_to_map [(1, Application.mk "app1" (Some 1) None)])
    (list_to_map [(1, Team.mk "team1"); (2, Team.mk "team2")])
    (list_to_map [(7, ProjectSnapshot.mk "snap7")]).

Definition world : World := mkWorld store None [].

Definition app : App :=
  mkApp true true (λ s, if bool_decide (s = "d4") then [4] else []) (λ _, None).

(** The group as loaded without its associations, at pipeline target 7. *)
Definition group : DeviceGroup.t :=
  DeviceGroup.mk 1 (Some "Group") None (Some 1) None None
    (Some (PipelineStageDeviceGroup.mk (Some 7))) [].

(** The group with its application loaded. *)
Definition resolved_group : DeviceGroup.t :=
  DeviceGroup.mk 1 (Some "Group") None (Some 1)
    (Some (Application.mk "app1" (Some 1) None)) None
    (Some (PipelineStageDeviceGroup.mk (Some 7))) [].

(** The same tables with device 1 recorded under team 2 although it is
    in the group: its removal does not validate. *)
Definition stale_store : Store :=
  set_devices (<[1 := device (Some 1) 2 (Some 7) "d1"]> (devices store)) store.

Definition stale_world : World := mkWorld stale_store None [].

(** A database that refuses every update that clears [DeviceGroupId]. *)
Definition faulty_app : App :=
  mkApp true true (decodeHashid app)
    (λ e, match e with
          | EvUpdate None _ _ => Some "deadlock detected"
          | _ => None
          end).



(** The same tables with two more devices at target 7 that are not in
    group 1: device 6 is unassigned and device 7 is in group 2. *)
Definition fleet_store : Store :=
  set_devices (<[6 := device None 1 (Some 7) "d6"]>
                 (<[7 := device (Some 2) 1 (Some 7) "d7"]> (devices store))) store.

Definition fleet_world : World := mkWorld fleet_store None [].

(** The ids of the members of group 1. *)
Definition member_ids (w : World) : list Z :=
  (members_of 1 (devices (committed w))).*1.
End Sample.

(** A checker for the membership invariant on a concrete store. *)
Definition check_membership (s : Store) : bool :=
  forallb (λ kd : Z * Device.t,
    match Device.DeviceGroupId kd.2 with
    | None => true
    | Some gid =>
        match groups s !! gid with
        | None => false
        | Some row =>
            match DeviceGroupRow.ApplicationId row with
            | None => false
            | Some aid =>
                bool_decide (Device.ApplicationId kd.2 = Some aid)
                && match applications s !! aid with
                   | None => false
                   | Some arow => bool_decide (Device.TeamId kd.2 = Application.TeamId arow)
                   end
            end
        end
    end) (map_to_list (devices s)).

(** ** Further vocabulary *)

(** [d'] is [d] with, at most, another [DeviceGroupId]. *)
Definition same_but_group (d d' : Device.t) : Prop :=
  d' = Device.set_DeviceGroupId (Device.DeviceGroupId d') d.

(** The calls made between opening a transaction and closing it. *)
Definition in_apply (e : Event) : bool :=
  match e with EvReload _ | EvCount _ | EvUpdate _ _ _ => true | _ => false end.

(** The log grew by calls that all satisfy [P]. *)
Definition grew_by (P : Event → bool) (w w' : World) : Prop :=
  ∃ l, log w' = log w ++ l ∧ Forall (λ e, Is_true (P e)) l.

(** The log of a validation that reaches its count. *)
Definition validation_log (g0 : DeviceGroup.t) (query : Event) : list Event :=
  (if DeviceGroup.Application g0 is Some _ then [] else [EvReload (DeviceGroup.id g0)])
  ++ [query].

(** The reads [sendUpdateCommand] makes. *)
Definition is_lookup (e : Event) : bool :=
  match e with
  | EvGetApplication _ | EvSnapshotById _ | EvGetDevices _ => true
  | _ => false
  end.

(** An 'update' command for a member of the group that is at the target of
    the group's pipeline stage, with the payload fields taken from the device. *)
Definition update_for_member_at_target (app : App) (g : DeviceGroup.t) (s : Store)
    (e : Event) : Prop :=
  ∃ team k d stage payload,
    e = EvSendCommand team (Device.hashid d) "update" payload
    ∧ devices s !! k = Some d
    ∧ Device.DeviceGroupId d = Some (DeviceGroup.id g)
    ∧ DeviceGroup.PipelineStageDeviceGroup g = Some stage
    ∧ Device.targetSnapshotId d = PipelineStageDeviceGroup.targetSnapshotId stage
    ∧ ownerType payload = "application"
    ∧ settings payload = or_null (Device.settingsHash d)
    ∧ p_mode payload = Device.mode d
    ∧ licensed payload = license_active app.

(** ** Creating a group *)

(** The id the database gives a new row: its sequence, modelled as one more
    than the largest id in use. *)
Definition next_id (gs : gmap Z DeviceGroupRow.t) : Z :=
  1 + foldr Z.max 0 (map_to_list gs).*1.

(** The insert of [create], once the statement has been accepted. *)
Definition insert_group (i : Z) (row : DeviceGroupRow.t) : M unit := λ w,
  (Ok tt,
   mkWorld (set_groups (<[i := row]> (groups (committed w))) (committed w))
           (working w) (log w)).

(** [app.db.models.DeviceGroup.create({ name, description, ApplicationId })]:
    build and save; the instance comes back with the id of its row and
    without associations. *)
Definition DeviceGroup_create (app : App) (name description : option string)
    (ApplicationId : option Z) : M DeviceGroup.t :=
  s ← gets committed;
  let i := next_id (groups s) in
  statement app (EvSave i);;
  insert_group i (DeviceGroupRow.mk name description ApplicationId);;
  mret (DeviceGroup.mk i name description ApplicationId None None None []).

(** [createDeviceGroup(app, name, { application = null, description } = {})];
    an application given is an instance with its id, and [application?.id]
    of none is [undefined], stored as null. *)
Definition createDeviceGroup (app : App) (name : string)
    (application : option (Z * Application.t)) (description : option string)
  : M DeviceGroup.t :=
  DeviceGroup_create app (Some name) description (fst <$> application).

(** * Properties *)

(** ** Queries *)

Lemma row_matches_spec wh k d :
  row_matches wh k d = true ↔ Some k ∈ where_id wh ∧ row_ok wh d = true.
Proof.
  unfold row_matches, row_ok. rewrite !andb_true_iff, bool_decide_eq_true. tauto.
Qed.

(** The keys of the rows a [where] clause matches: no key twice, as many
    as the count, and each one listed in the clause. *)
Lemma matching_keys wh ds :
  let ks := (map_to_list (filter (λ kv : Z * Device.t, Is_true (row_matches wh kv.1 kv.2)) ds)).*1 in
  NoDup ks ∧ length ks = count_rows wh ds ∧
  ∀ k, k ∈ ks ↔ Some k ∈ where_id wh ∧ selects wh ds (Some k).
Proof.
  intros ks. split; [apply NoDup_fst_map_to_list|]. split.
  - unfold ks, count_rows. by rewrite length_fmap, length_map_to_list.
  - intros k. unfold ks. rewrite list_elem_of_fmap. split.
    + intros [[k' d] [-> Hin]]. apply elem_of_map_to_list in Hin.
      apply map_lookup_filter_Some in Hin as [Hd Hm]. simpl in *.
      apply Is_true_true, row_matches_spec in Hm as [? ?].
      split; [done|]. by exists k', d.
    + intros [Hin (k' & d & [= <-] & Hd & Hok)].
      exists (k, d). split; [done|]. apply elem_of_map_to_list.
      apply map_lookup_filter_Some. split; [done|]. simpl.
      apply Is_true_true, row_matches_spec. done.
Qed.

(** A count reaches the length of the id list exactly when the list has no
    repetition and each of its entries names a matching row. *)
Lemma count_rows_full wh ds :
  count_rows wh ds = length (where_id wh) ↔
  NoDup (where_id wh) ∧ ∀ i, i ∈ where_id wh → selects wh ds i.
Proof.
  destruct (matching_keys wh ds) as (Hnd & <- & Hks).
  set (ks := (map_to_list _).*1) in *.
  assert (Hsub : Some <$> ks ⊆+ where_id wh).
  { apply NoDup_submseteq; [apply (NoDup_fmap_2 _), Hnd|].
    intros i [k [-> Hk]]%list_elem_of_fmap. by apply Hks. }
  split.
  - intros Hlen.
    assert (Hperm : Some <$> ks ≡ₚ where_id wh).
    { apply submseteq_length_Permutation; [done|]. rewrite length_fmap. lia. }
    split.
    + rewrite <- Hperm. apply (NoDup_fmap_2 _), Hnd.
    + intros i Hi. rewrite <- Hperm in Hi.
      apply list_elem_of_fmap in Hi as [k [-> Hk]]. by apply Hks.
  - intros [Hnd' Hall].
    rewrite <- (length_fmap Some). apply Nat.le_antisymm.
    + by apply submseteq_length.
    + apply submseteq_length, NoDup_submseteq; [done|].
      intros i Hi. destruct (Hall i Hi) as (k & d & -> & Hd & Hok).
      apply list_elem_of_fmap. exists k. split; [done|]. apply Hks.
      split; [done|]. by exists k, d.
Qed.

Lemma selects_add_where g teamId ids ds s i :
  devices s = ds →
  selects (add_where g teamId ids) ds i ↔ eligible g teamId s i.
Proof.
  intros <-. unfold selects, eligible, row_ok, add_where, col_matches. simpl.
  split; intros (k & d & -> & Hd & H); exists k, d; (split; [done|]); (split; [done|]).
  - rewrite !andb_true_iff, !bool_decide_eq_true in H.
    destruct H as [[Hg ->] ->]. rewrite !elem_of_cons, elem_of_nil in Hg.
    destruct Hg as [?|[?|[]]]; auto.
  - destruct H as (Hg & -> & ->).
    rewrite !andb_true_iff, !bool_decide_eq_true, !elem_of_cons, elem_of_nil.
    destruct Hg; auto.
Qed.

Lemma selects_remove_where g teamId ids ds s i :
  devices s = ds →
  selects (remove_where g teamId ids) ds i ↔ removable g teamId s i.
Proof.
  intros <-. unfold selects, removable, row_ok, remove_where, col_matches. simpl.
  split; intros (k & d & -> & Hd & H); exists k, d; (split; [done|]); (split; [done|]).
  - rewrite !andb_true_iff, !bool_decide_eq_true in H.
    destruct H as [[Hg ->] ->]. rewrite !elem_of_cons, elem_of_nil in Hg.
    destruct Hg as [?|[]]; auto.
  - destruct H as (Hg & -> & ->).
    rewrite !andb_true_iff, !bool_decide_eq_true, !elem_of_cons, elem_of_nil.
    auto.
Qed.

Lemma update_rows_lookup v wh ds k :
  update_rows v wh ds !! k =
  (λ d, if row_matches wh k d then Device.set_DeviceGroupId v d else d) <$> ds !! k.
Proof.
  unfold update_rows. rewrite map_lookup_imap. by destruct (ds !! k).
Qed.

(** An update over an empty id list changes nothing. *)
Lemma update_rows_nil v wh ds : where_id wh = [] → update_rows v wh ds = ds.
Proof.
  intros Hnil. apply map_eq. intros k. rewrite update_rows_lookup.
  destruct (ds !! k) as [d|]; [|done]. simpl.
  unfold row_matches. rewrite Hnil.
  by rewrite bool_decide_eq_false_2 by apply not_elem_of_nil.
Qed.

Lemma members_of_spec gid ds k d :
  (k, d) ∈ members_of gid ds ↔ ds !! k = Some d ∧ Device.DeviceGroupId d = Some gid.
Proof.
  unfold members_of. rewrite elem_of_map_to_list. apply map_lookup_filter_Some.
Qed.

Lemma currentMemberIds_spec app g s i :
  i ∈ currentMemberIds app g s ↔ ∃ k, i = Some k ∧ is_member (DeviceGroup.id g) s k.
Proof.
  unfold currentMemberIds, deviceListToIds, is_member.
  rewrite <- list_fmap_compose. rewrite list_elem_of_fmap. split.
  - intros [[k d] [-> Hin]]. apply members_of_spec in Hin. exists k. eauto.
  - intros (k & -> & d & Hd). exists (k, d). split; [done|]. by apply members_of_spec.
Qed.

Lemma currentMemberIds_NoDup app g s : NoDup (currentMemberIds app g s).
Proof.
  unfold currentMemberIds, deviceListToIds. rewrite <- list_fmap_compose.
  change (λ kv : Z * Device.t, RefObj kv.1) with (RefObj ∘ (fst : Z * Device.t → Z)).
  assert (Heq : ∀ l : list (Z * Device.t),
    ((λ device, match device with
                | RefNum n => Some n | RefHash s0 => head (decodeHashid app s0)
                | RefObj i => Some i | RefUndefined => None end)
       ∘ (RefObj ∘ fst)) <$> l = Some <$> l.*1).
  { intros l. rewrite <- list_fmap_compose. done. }
  rewrite Heq. apply (NoDup_fmap_2 _). apply NoDup_fst_map_to_list.
Qed.

(** ** Computations *)

Lemma wp_run {A} (m : M A) Q w r w' : wp m Q w → m w = (r, w') → Q r w'.
Proof. unfold wp. intros H Heq. by rewrite Heq in H. Qed.

Lemma wp_mono {A} (m : M A) (Q Q' : Outcome A → World → Prop) w :
  wp m Q w → (∀ r w', Q r w' → Q' r w') → wp m Q' w.
Proof. unfold wp. auto. Qed.

Lemma wp_ret {A} (a : A) (Q : Outcome A → World → Prop) w : Q (Ok a) w → wp (mret a) Q w.
Proof. done. Qed.

Lemma wp_throw {A} e (Q : Outcome A → World → Prop) w : Q (Throw e) w → wp (throw e) Q w.
Proof. done. Qed.

Lemma wp_bind {A B} (m : M A) (f : A → M B) (Q : Outcome B → World → Prop) w :
  wp m (λ r w', match r with
                | Ok a => wp (f a) Q w'
                | Throw e => Q (Throw e) w'
                end) w →
  wp (m ≫= f) Q w.
Proof.
  unfold wp, mbind, M_bind. by destruct (m w) as [[a|e] w'].
Qed.

Lemma wp_try_catch {A} (body : M A) (handler : JsError → M A) Q w :
  wp body (λ r w', match r with
                   | Ok a => Q (Ok a) w'
                   | Throw e => wp (handler e) Q w'
                   end) w →
  wp (try_catch body handler) Q w.
Proof.
  unfold wp, try_catch. by destruct (body w) as [[a|e] w'].
Qed.

Lemma wp_emit e (Q : Outcome unit → World → Prop) w :
  Q (Ok tt) (mkWorld (committed w) (working w) (log w ++ [e])) → wp (emit e) Q w.
Proof. done. Qed.

Lemma wp_gets {A} (f : World → A) (Q : Outcome A → World → Prop) w :
  Q (Ok (f w)) w → wp (gets f) Q w.
Proof. done. Qed.

Lemma wp_statement app e (Q : Outcome unit → World → Prop) w :
  (∀ r, r = match db_fault app e with Some msg => Throw (Error msg) | None => Ok tt end →
        Q r (mkWorld (committed w) (working w) (log w ++ [e]))) →
  wp (statement app e) Q w.
Proof.
  intros H. unfold statement. apply wp_bind, wp_emit.
  destruct (db_fault app e); [apply wp_throw|apply wp_ret]; by apply H.
Qed.

Lemma writes_snoc w e c k :
  writes (mkWorld c k (log w ++ [e])) = writes w ++ (if is_write e then [e] else []).
Proof.
  unfold writes. simpl. rewrite filter_app. f_equal.
  destruct (is_write e) eqn:He.
  - rewrite filter_cons_True; [done|]. by apply Is_true_true.
  - rewrite filter_cons_False; [done|]. by apply Is_true_false.
Qed.

Lemma reads_only_trans w1 w2 w3 : reads_only w1 w2 → reads_only w2 w3 → reads_only w1 w3.
Proof. unfold reads_only. intros (-> & -> & ->) (-> & -> & ->). done. Qed.

Lemma reads_only_snoc w e :
  is_write e = false →
  reads_only w (mkWorld (committed w) (working w) (log w ++ [e])).
Proof.
  intros He. split; [done|]. split; [done|].
  rewrite writes_snoc, He. apply app_nil_r.
Qed.

(** [Device.count] reads the committed table and writes nothing. *)
Lemma Device_count_spec app wh w :
  wp (Device_count app wh)
     (λ r w', reads_only w w' ∧
              ∀ n, r = Ok n → n = count_rows wh (devices (committed w))) w.
Proof.
  unfold Device_count. apply wp_bind, wp_statement. intros r ->.
  destruct (db_fault app _).
  - split; [by apply reads_only_snoc|]. done.
  - apply wp_gets. split; [by apply reads_only_snoc|]. by intros n [= <-].
Qed.

Lemma reload_spec incl g w :
  wp (reload incl g)
     (λ r w', reads_only w w' ∧
              ∀ g', r = Ok g' →
                ∃ row, groups (committed w) !! DeviceGroup.id g = Some row
                       ∧ g' = refreshed incl (committed w) g row) w.
Proof.
  unfold reload. apply wp_bind, wp_emit. apply wp_bind, wp_gets. simpl.
  destruct (groups (committed w) !! DeviceGroup.id g) as [row|] eqn:Hrow.
  - apply wp_ret. split; [by apply reads_only_snoc|]. intros g' [= <-]. eauto.
  - apply wp_throw. split; [by apply reads_only_snoc|]. done.
Qed.

Lemma resolved_from_id s g0 g : resolved_from s g0 g → DeviceGroup.id g = DeviceGroup.id g0.
Proof. by intros [->|(_ & row & _ & ->)]. Qed.

Lemma resolved_from_loaded s g0 g :
  resolved_from s g0 g → is_Some (DeviceGroup.Application g0) → g = g0.
Proof. intros [->|(Hnone & _)] [a Ha]; [done|congruence]. Qed.

Lemma resolved_from_in_sync s g0 g :
  resolved_from s g0 g → in_sync s g0 → in_sync s g.
Proof.
  intros [->|(Hnone & row & Hrow & ->)] Hsync; [done|].
  exists row. split; [done|]. split; [done|]. simpl.
  intros a Ha. destruct (DeviceGroupRow.ApplicationId row) as [aid|]; [|done].
  simpl in Ha. exists aid, a. done.
Qed.

Lemma deviceListToIds_ref_of_id dec (l : list jsid) :
  deviceListToIds (ref_of_id <$> l) dec = l.
Proof.
  unfold deviceListToIds. rewrite <- list_fmap_compose.
  rewrite <- (list_fmap_id l) at 2. apply list_fmap_ext. by intros _ [n|] _.
Qed.

(** What a successful validation has established. *)
Lemma validateDeviceList_spec app dg addL remL w :
  wp (validateDeviceList app dg addL remL)
     (λ r w', reads_only w w' ∧
        match r with
        | Throw _ => True
        | Ok (g, ids) =>
            ∃ g0 a, dg = GObject g0
              ∧ resolved_from (committed w) g0 g
              ∧ DeviceGroup.Application g = Some a
              ∧ truthy_id (Application.TeamId a) = true
              ∧ ids = DeviceIds.mk (normalised app addL) (normalised app remL)
              ∧ (∀ l, normalised app addL = Some l →
                   count_rows (add_where g (Application.TeamId a) l)
                     (devices (committed w)) = length l)
              ∧ (∀ l, normalised app remL = Some l →
                   count_rows (remove_where g (Application.TeamId a) l)
                     (devices (committed w)) = length l)
        end) w.
Proof.
  unfold validateDeviceList.
  destruct dg as [| |g0]; [by apply wp_throw..|].
  apply wp_bind.
  apply (wp_mono _ (λ r w', reads_only w w' ∧
            ∀ g, r = Ok g → resolved_from (committed w) g0 g)).
  { destruct (DeviceGroup.Application g0) as [a0|] eqn:Ha0.
    - apply wp_ret. split; [done|]. intros g [= <-]. by left.
    - eapply wp_mono; [apply reload_spec|]. intros r w' [Hro Hg]. split; [done|].
      intros g ->. destruct (Hg g eq_refl) as (row & Hrow & ->). right. eauto. }
  intros [g|e] w1 [Hro Hres]; [|done].
  specialize (Hres g eq_refl).
  destruct (DeviceGroup.Application g) as [a|] eqn:Ha; [|by apply wp_throw].
  destruct (truthy_id (Application.TeamId a)) eqn:Hteam; simpl; [|by apply wp_throw].
  fold (normalised app addL) (normalised app remL).
  assert (Hc : committed w1 = committed w) by apply Hro.
  apply wp_bind.
  apply (wp_mono _ (λ r w', reads_only w w' ∧
            (r = Ok tt → ∀ l, normalised app addL = Some l →
               count_rows (add_where g (Application.TeamId a) l)
                 (devices (committed w)) = length l))).
  { destruct (normalised app addL) as [ids|]; [|by apply wp_ret].
    apply wp_bind. eapply wp_mono; [apply Device_count_spec|].
    intros [n|e] w2 [Hro2 Hn]; [|split; [by eapply reads_only_trans|done]].
    rewrite (Hn n eq_refl), Hc. case_bool_decide as Hcount.
    - apply wp_throw. split; [by eapply reads_only_trans|done].
    - apply wp_ret. split; [by eapply reads_only_trans|].
      intros _ l [= <-]. done. }
  intros [[]|e] w2 [Hro2 Hadd]; [|done].
  apply wp_bind.
  apply (wp_mono _ (λ r w', reads_only w w' ∧
            (r = Ok tt → ∀ l, normalised app remL = Some l →
               count_rows (remove_where g (Application.TeamId a) l)
                 (devices (committed w)) = length l))).
  { destruct (normalised app remL) as [ids|]; [|by apply wp_ret].
    apply wp_bind. eapply wp_mono; [apply Device_count_spec|].
    intros [n|e] w3 [Hro3 Hn]; [|split; [by eapply reads_only_trans|done]].
    assert (Hc2 : committed w2 = committed w) by apply Hro2.
    rewrite (Hn n eq_refl), Hc2. case_bool_decide as Hcount.
    - apply wp_throw. split; [by eapply reads_only_trans|done].
    - apply wp_ret. split; [by eapply reads_only_trans|].
      intros _ l [= <-]. done. }
  intros [[]|e] w3 [Hro3 Hrem]; [|done].
  apply wp_ret. split; [done|]. exists g0, a. eauto 10.
Qed.

(** ** The two primitives and the transactional apply *)

Lemma Device_update_spec app v wh t w :
  wp (Device_update app v wh t)
     (λ r w',
        match r with
        | Throw _ => committed w' = committed w ∧ working w' = working w
        | Ok _ =>
            writes w' = writes w ++ [EvUpdate v wh (if t is Some _ then true else false)]
            ∧ match t with
              | None =>
                  committed w' = set_devices (update_rows v wh (devices (committed w))) (committed w)
                  ∧ working w' = working w
              | Some _ =>
                  committed w' = committed w
                  ∧ ∃ s, working w = Some s
                         ∧ working w' = Some (set_devices (update_rows v wh (devices s)) s)
              end
        end) w.
Proof.
  unfold Device_update. apply wp_bind, wp_statement. intros r ->.
  destruct (db_fault app _); [done|].
  unfold wp, write_devices. destruct t as [t|]; simpl.
  - destruct (working w) as [s|] eqn:Hw; simpl; [|done].
    split; [by rewrite writes_snoc|]. split; [done|]. eauto.
  - split; [by rewrite writes_snoc|]. done.
Qed.

Lemma assignDevicesToGroup_spec app dg refs t w :
  wp (assignDevicesToGroup app dg refs t)
     (λ r w',
        match r with
        | Throw _ => committed w' = committed w ∧ working w' = working w
        | Ok g =>
            let ids := deviceListToIds refs (decodeHashid app) in
            let wh := assign_where ids in
            let v := Some (DeviceGroup.id g) in
            ∃ g0 a, dg = GObject g0
              ∧ resolved_from (committed w) g0 g
              ∧ DeviceGroup.Application g = Some a
              ∧ truthy_id (Application.TeamId a) = true
              ∧ count_rows (add_where g (Application.TeamId a) ids)
                  (devices (committed w)) = length ids
              ∧ writes w' = writes w ++ [EvUpdate v wh (if t is Some _ then true else false)]
              ∧ match t with
                | None =>
                    committed w' = set_devices (update_rows v wh (devices (committed w))) (committed w)
                    ∧ working w' = working w
                | Some _ =>
                    committed w' = committed w
                    ∧ ∃ s, working w = Some s
                           ∧ working w' = Some (set_devices (update_rows v wh (devices s)) s)
                end
        end) w.
Proof.
  unfold assignDevicesToGroup. apply wp_bind.
  eapply wp_mono; [apply validateDeviceList_spec|].
  intros [[g ids]|e] w1 [(Hc & Hk & Hw) Hv]; [|done].
  destruct Hv as (g0 & a & -> & Hres & Ha & Hteam & -> & Hadd & _).
  simpl. apply wp_bind.
  eapply wp_mono; [apply Device_update_spec|].
  intros [[]|e] w2 Hu.
  - apply wp_ret. exists g0, a. destruct Hu as [Hw2 Hu].
    rewrite Hw, Hc, Hk in *. split_and!; try done. by apply Hadd.
  - rewrite <- Hc, <- Hk. done.
Qed.

Lemma removeDevicesFromGroup_spec app dg refs t w :
  wp (removeDevicesFromGroup app dg refs t)
     (λ r w',
        match r with
        | Throw _ => committed w' = committed w ∧ working w' = working w
        | Ok g =>
            let ids := deviceListToIds refs (decodeHashid app) in
            let wh := unassign_where g ids in
            ∃ g0 a, dg = GObject g0
              ∧ resolved_from (committed w) g0 g
              ∧ DeviceGroup.Application g = Some a
              ∧ truthy_id (Application.TeamId a) = true
              ∧ count_rows (remove_where g (Application.TeamId a) ids)
                  (devices (committed w)) = length ids
              ∧ writes w' = writes w ++ [EvUpdate None wh (if t is Some _ then true else false)]
              ∧ match t with
                | None =>
                    committed w' = set_devices (update_rows None wh (devices (committed w))) (committed w)
                    ∧ working w' = working w
                | Some _ =>
                    committed w' = committed w
                    ∧ ∃ s, working w = Some s
                           ∧ working w' = Some (set_devices (update_rows None wh (devices s)) s)
                end
        end) w.
Proof.
  unfold removeDevicesFromGroup. apply wp_bind.
  eapply wp_mono; [apply validateDeviceList_spec|].
  intros [[g ids]|e] w1 [(Hc & Hk & Hw) Hv]; [|done].
  destruct Hv as (g0 & a & -> & Hres & Ha & Hteam & -> & _ & Hrem).
  simpl. apply wp_bind.
  eapply wp_mono; [apply Device_update_spec|].
  intros [[]|e] w2 Hu.
  - apply wp_ret. exists g0, a. destruct Hu as [Hw2 Hu].
    rewrite Hw, Hc, Hk in *. split_and!; try done. by apply Hrem.
  - rewrite <- Hc, <- Hk. done.
Qed.

Lemma resolved_from_trans s g0 g1 g2 :
  resolved_from s g0 g1 → resolved_from s g1 g2 → resolved_from s g0 g2.
Proof.
  intros [->|(Hnone & row & Hrow & ->)]; [done|].
  intros [->|(Hnone' & row' & Hrow' & ->)]; [right; eauto|].
  right. split; [done|]. exists row. split; [done|].
  simpl in Hrow'. by simplify_eq.
Qed.

Lemma nonempty_ltb {A} (l : list A) : l ≠ [] → (0 <? length l)%nat = true.
Proof. by destruct l. Qed.

Lemma if_nonempty {A B} (l : list A) (x y : B) : l ≠ [] → (if l is [] then x else y) = y.
Proof. by destruct l. Qed.

Lemma unassign_where_id g g' ids :
  DeviceGroup.id g' = DeviceGroup.id g → unassign_where g' ids = unassign_where g ids.
Proof. unfold unassign_where. by intros ->. Qed.

(** The [try] block: a failure leaves the committed tables alone and the
    transaction open; a success has validated each non-empty list against
    the committed tables and committed both updates. *)
Lemma applyChanges_spec app g ad rm w s0 :
  working w = Some s0 →
  wp (applyChanges app g ad rm Txn)
     (λ r w',
        match r with
        | Throw _ => committed w' = committed w ∧ is_Some (working w')
        | Ok g' =>
            resolved_from (committed w) g g'
            ∧ (ad ≠ [] → ∃ a, DeviceGroup.Application g' = Some a
                  ∧ truthy_id (Application.TeamId a) = true
                  ∧ count_rows (add_where g' (Application.TeamId a) ad)
                      (devices (committed w)) = length ad)
            ∧ (rm ≠ [] → ∃ a, DeviceGroup.Application g' = Some a
                  ∧ truthy_id (Application.TeamId a) = true
                  ∧ count_rows (remove_where g' (Application.TeamId a) rm)
                      (devices (committed w)) = length rm)
            ∧ committed w' = set_devices (reconciled g ad rm (devices s0)) s0
            ∧ working w' = None
            ∧ writes w' = writes w ++ reconcile_writes g ad rm
        end) w.
Proof.
  intros Hs0. unfold applyChanges. apply wp_bind.
  (* add devices *)
  apply (wp_mono _ (λ r w1,
    match r with
    | Throw _ => committed w1 = committed w ∧ is_Some (working w1)
    | Ok g1 =>
        resolved_from (committed w) g g1
        ∧ (ad ≠ [] → ∃ a, DeviceGroup.Application g1 = Some a
              ∧ truthy_id (Application.TeamId a) = true
              ∧ count_rows (add_where g1 (Application.TeamId a) ad)
                  (devices (committed w)) = length ad)
        ∧ committed w1 = committed w
        ∧ working w1 = Some (set_devices
            (update_rows (Some (DeviceGroup.id g)) (assign_where ad) (devices s0)) s0)
        ∧ writes w1 = writes w
            ++ (if ad is [] then [] else [EvUpdate (Some (DeviceGroup.id g)) (assign_where ad) true])
    end)).
  { destruct (decide (ad = [])) as [->|Hne].
    - apply wp_ret. split; [by left|]. split; [done|]. split; [done|]. split.
      + rewrite update_rows_nil by done. rewrite Hs0. by destruct s0.
      + by rewrite app_nil_r.
    - rewrite nonempty_ltb, (if_nonempty ad) by done.
      eapply wp_mono; [apply assignDevicesToGroup_spec|].
      intros [g1|e] w1; cbv zeta.
      + rewrite deviceListToIds_ref_of_id.
        intros (g0 & a & [= <-] & Hres & Ha & Hteam & Hcount & Hw & Hc & s & Hs & Hs').
        rewrite (resolved_from_id _ _ _ Hres) in *. rewrite Hs0 in Hs. simplify_eq.
        split; [done|]. split; [intros _; by exists a|]. done.
      + intros [-> ->]. rewrite Hs0. eauto. }
  intros [g1|e] w1; [|done].
  intros (Hres1 & Hadd & Hc1 & Hk1 & Hw1).
  apply wp_bind.
  (* remove devices *)
  apply (wp_mono _ (λ r w2,
    match r with
    | Throw _ => committed w2 = committed w ∧ is_Some (working w2)
    | Ok g2 =>
        resolved_from (committed w) g g2
        ∧ (ad ≠ [] → g2 = g1)
        ∧ (rm ≠ [] → ∃ a, DeviceGroup.Application g2 = Some a
              ∧ truthy_id (Application.TeamId a) = true
              ∧ count_rows (remove_where g2 (Application.TeamId a) rm)
                  (devices (committed w)) = length rm)
        ∧ committed w2 = committed w
        ∧ working w2 = Some (set_devices (reconciled g ad rm (devices s0)) s0)
        ∧ writes w2 = writes w ++ reconcile_writes g ad rm
    end)).
  { destruct (decide (rm = [])) as [->|Hne].
    - apply wp_ret. split; [done|]. split; [done|]. split; [done|]. split; [done|]. split.
      + unfold reconciled. rewrite (update_rows_nil None) by done. done.
      + rewrite Hw1. unfold reconcile_writes. by rewrite app_nil_r.
    - rewrite nonempty_ltb by done.
      eapply wp_mono; [apply removeDevicesFromGroup_spec|].
      intros [g2|e] w2; cbv zeta.
      + rewrite deviceListToIds_ref_of_id.
        intros (g0 & a & [= <-] & Hres & Ha & Hteam & Hcount & Hw & Hc & s & Hs & Hs').
        rewrite Hc1 in *.
        assert (Hid : DeviceGroup.id g2 = DeviceGroup.id g).
        { rewrite (resolved_from_id _ _ _ Hres). by apply resolved_from_id in Hres1. }
        assert (Hsame : ad ≠ [] → g2 = g1).
        { intros Hne'. destruct (Hadd Hne') as (a1 & Ha1 & _).
          eapply resolved_from_loaded; eauto. }
        assert (Hres2 : resolved_from (committed w) g g2)
          by by eapply resolved_from_trans.
        split; [done|]. split; [done|].
        split; [intros _; by exists a|]. split; [done|]. split.
        * rewrite Hk1 in Hs. simplify_eq. rewrite Hs'.
          unfold reconciled. by rewrite (unassign_where_id g g2).
        * rewrite Hw, Hw1. unfold reconcile_writes. rewrite <- app_assoc.
          rewrite (unassign_where_id g g2) by done. by rewrite (if_nonempty rm).
      + intros [-> ->]. rewrite Hk1. eauto. }
  intros [g2|e] w2; [|done].
  intros (Hres2 & Hsame & Hrem & Hc2 & Hk2 & Hw2).
  apply wp_bind. unfold wp, commit. rewrite Hk2.
  destruct (db_fault app EvCommit) as [msg|]; simpl; [split; [done|]; eauto|].
  split; [done|]. split.
  { intros Hne. rewrite (Hsame Hne). by apply Hadd. }
  split; [done|]. split; [done|]. split; [done|].
  by rewrite writes_snoc, Hw2, app_nil_r.
Qed.

(** A [try] block that succeeds had its commit accepted. *)
Lemma applyChanges_committed app g ad rm t w g' w' :
  applyChanges app g ad rm t w = (Ok g', w') → db_fault app EvCommit = None.
Proof.
  unfold applyChanges, mbind, M_bind.
  match goal with |- context [?m w] => destruct (m w) as [[g1|e1] w1]; [|done] end.
  match goal with |- context [?m w1] => destruct (m w1) as [[g2|e2] w2]; [|done] end.
  unfold commit. destruct (working w2); [|done].
  by destruct (db_fault app EvCommit).
Qed.

(** ** The reconciliation as a whole *)

Lemma row_matches_assign ids k d :
  row_matches (assign_where ids) k d = bool_decide (Some k ∈ ids).
Proof. unfold row_matches, assign_where. simpl. by rewrite !andb_true_r. Qed.

Lemma row_matches_unassign g ids k d :
  row_matches (unassign_where g ids) k d =
  bool_decide (Some k ∈ ids)
  && bool_decide (Device.DeviceGroupId d = Some (DeviceGroup.id g)).
Proof.
  unfold row_matches, unassign_where. simpl. rewrite !andb_true_r. f_equal.
  apply bool_decide_ext. rewrite list_elem_of_singleton. done.
Qed.

(** A row of the reconciled table is the old row with, at most, its
    [DeviceGroupId] changed: set to the group when the id was to be added,
    and cleared when it was to be removed and the row pointed at the group. *)
Lemma reconciled_lookup g ad rm ds k :
  reconciled g ad rm ds !! k =
  (λ d,
     let d1 := if bool_decide (Some k ∈ ad)
               then Device.set_DeviceGroupId (Some (DeviceGroup.id g)) d else d in
     if bool_decide (Some k ∈ rm)
        && bool_decide (Device.DeviceGroupId d1 = Some (DeviceGroup.id g))
     then Device.set_DeviceGroupId None d1 else d1) <$> ds !! k.
Proof.
  unfold reconciled. rewrite !update_rows_lookup.
  destruct (ds !! k) as [d|]; [|done]. simpl.
  by rewrite row_matches_assign, row_matches_unassign.
Qed.

(** Membership after the two updates: the old members and the added rows,
    less the removed ones. *)
Lemma reconciled_member g ad rm s k :
  (∀ i, i ∈ ad → ∃ k d, i = Some k ∧ devices s !! k = Some d) →
  is_member (DeviceGroup.id g) (set_devices (reconciled g ad rm (devices s)) s) k ↔
  (is_member (DeviceGroup.id g) s k ∨ Some k ∈ ad) ∧ Some k ∉ rm.
Proof.
  intros Hrows. unfold is_member. simpl. rewrite reconciled_lookup.
  destruct (devices s !! k) as [d|] eqn:Hd; simpl.
  - split.
    + intros (d' & [= <-] & Hg).
      repeat case_bool_decide; simpl in *; simplify_eq; eauto.
    + intros [[(d' & [= <-] & Hg)|Hin] Hnot]; eexists; (split; [done|]).
      * rewrite (bool_decide_eq_false_2 (Some k ∈ rm)) by done. simpl.
        by case_bool_decide.
      * rewrite (bool_decide_eq_false_2 (Some k ∈ rm)) by done. simpl.
        by rewrite bool_decide_eq_true_2.
  - split.
    + by intros (d' & [=] & _).
    + intros [[(d' & [=] & _)|Hin] _].
      destruct (Hrows _ Hin) as (k' & d & [= <-] & Hd'). congruence.
Qed.

Lemma and_deviceListToIds_array l dec :
  and_deviceListToIds (AArray l) dec = AArray (deviceListToIds l dec).
Proof. done. Qed.

(** The steps of [updateDeviceGroupMembership] once there is something to
    do: read the members, compute the lists, run the [try] block in a
    fresh transaction, and on an error run the [catch] block, which finds
    the transaction still open. *)
Lemma updateDeviceGroupMembership_unfold app g a r s w :
  truthy s || truthy a || truthy r = true →
  updateDeviceGroupMembership app (GObject g) a r s w =
  match computeDiff (currentMemberIds app g (committed w))
          (and_deviceListToIds s (decodeHashid app))
          (and_deviceListToIds a (decodeHashid app))
          (and_deviceListToIds r (decodeHashid app)) with
  | Throw e =>
      (Throw e, mkWorld (committed w) (working w)
                        (log w ++ [EvGetDevices (DeviceGroup.id g)]))
  | Ok (rm, ad) =>
      match applyChanges app g ad rm Txn (at_try g w) with
      | (Ok g', w1) => (Ok (GObject g'), w1)
      | (Throw e, w1) =>
          (Throw (rethrown app e),
           mkWorld (committed w1) None (log w1 ++ [EvRollback]))
      end
  end.
Proof.
  intros Htruthy. unfold updateDeviceGroupMembership.
  replace (negb (truthy s) && negb (truthy a) && negb (truthy r)) with false
    by (by destruct (truthy s), (truthy a), (truthy r)).
  unfold mbind, M_bind, getDevices, emit, gets, lift_outcome, transaction. simpl.
  fold (currentMemberIds app g (committed w)).
  destruct (computeDiff _ _ _ _) as [[rm ad]|e]; simpl; [|done].
  unfold try_catch. rewrite <- app_assoc. simpl. fold (at_try g w).
  pose proof (applyChanges_spec app g ad rm (at_try g w) (committed w) eq_refl) as Hspec.
  unfold wp in Hspec.
  destruct (applyChanges _ _ _ _ _ _) as [[g'|e] w1]; simpl in *; [done|].
  destruct Hspec as [_ [s1 Hs1]].
  unfold onApplyError, mbind, M_bind, rollback, throw, rethrown. rewrite Hs1.
  destruct (db_fault app EvRollback); [done|].
  by destruct (instanceof_validation e).
Qed.

(** A successful reconciliation, in terms of the lists computed. *)
Lemma updateDeviceGroupMembership_ok app g a r s w res w' :
  truthy s || truthy a || truthy r = true →
  updateDeviceGroupMembership app (GObject g) a r s w = (Ok res, w') →
  ∃ rm ad g',
    computeDiff (currentMemberIds app g (committed w))
      (and_deviceListToIds s (decodeHashid app))
      (and_deviceListToIds a (decodeHashid app))
      (and_deviceListToIds r (decodeHashid app)) = Ok (rm, ad)
    ∧ res = GObject g'
    ∧ resolved_from (committed w) g g'
    ∧ (ad ≠ [] → ∃ ap, DeviceGroup.Application g' = Some ap
          ∧ truthy_id (Application.TeamId ap) = true
          ∧ NoDup ad
          ∧ ∀ i, i ∈ ad → eligible g' (Application.TeamId ap) (committed w) i)
    ∧ (rm ≠ [] → ∃ ap, DeviceGroup.Application g' = Some ap
          ∧ truthy_id (Application.TeamId ap) = true
          ∧ NoDup rm
          ∧ ∀ i, i ∈ rm → removable g' (Application.TeamId ap) (committed w) i)
    ∧ committed w' = set_devices (reconciled g ad rm (devices (committed w))) (committed w)
    ∧ working w' = None
    ∧ writes w' = writes w ++ reconcile_writes g ad rm.
Proof.
  intros Htruthy. rewrite updateDeviceGroupMembership_unfold by done.
  destruct (computeDiff _ _ _ _) as [[rm ad]|e]; [|done].
  pose proof (applyChanges_spec app g ad rm (at_try g w) (committed w) eq_refl) as Hspec.
  unfold wp in Hspec.
  destruct (applyChanges _ _ _ _ _ _) as [[g'|e] w1]; simpl in *; [|done].
  intros [= <- <-]. destruct Hspec as (Hres & Hadd & Hrem & Hc & Hk & Hw).
  exists rm, ad, g'. split; [done|]. split; [done|]. split; [done|].
  split; [|split]; [| |split; [done|split; [done|]]].
  - intros Hne. destruct (Hadd Hne) as (ap & Hap & Hteam & Hcount).
    exists ap. split; [done|]. split; [done|].
    apply (count_rows_full (add_where g' (Application.TeamId ap) ad)) in Hcount as [Hnd Hall].
    split; [done|]. intros i Hi. eapply selects_add_where; [done|]. by apply Hall.
  - intros Hne. destruct (Hrem Hne) as (ap & Hap & Hteam & Hcount).
    exists ap. split; [done|]. split; [done|].
    apply (count_rows_full (remove_where g' (Application.TeamId ap) rm)) in Hcount as [Hnd Hall].
    split; [done|]. intros i Hi. eapply selects_remove_where; [done|]. by apply Hall.
  - rewrite Hw. unfold at_try, writes. simpl. rewrite filter_app. simpl.
    rewrite filter_cons_False by (simpl; tauto).
    rewrite filter_cons_False by (simpl; tauto).
    rewrite filter_nil. by rewrite app_nil_r.
Qed.

(** A successful reconciliation had its commit accepted. *)
Lemma updateDeviceGroupMembership_committed app g a r s w res w' :
  truthy s || truthy a || truthy r = true →
  updateDeviceGroupMembership app (GObject g) a r s w = (Ok res, w') →
  db_fault app EvCommit = None.
Proof.
  intros Htruthy. rewrite updateDeviceGroupMembership_unfold by done.
  destruct (computeDiff _ _ _ _) as [[rm ad]|e]; [|done].
  destruct (applyChanges _ _ _ _ _ _) as [[g'|e] w1] eqn:Happly; [|done].
  intros _. by eapply applyChanges_committed.
Qed.

(** ** The diff *)

Lemma filter_nil_Forall {A} (P : A → Prop) `{∀ x, Decision (P x)} (l : list A) :
  (∀ x, x ∈ l → ¬ P x) → filter P l = [].
Proof.
  induction l as [|x l IH]; intros Hall; [done|].
  rewrite filter_cons_False by (apply Hall; left).
  apply IH. intros y Hy. apply Hall. by right.
Qed.

Lemma includes_true l d : Is_true (includes l d) ↔ d ∈ l.
Proof. unfold includes. by rewrite bool_decide_spec. Qed.

Lemma includes_false l d : Is_true (negb (includes l d)) ↔ d ∉ l.
Proof.
  unfold includes. rewrite negb_True, bool_decide_spec. done.
Qed.

(** Set mode: the members outside the set are removed, the entries of the
    set that are not members are added; add and remove are not looked at. *)
Lemma computeDiff_set C S a r :
  computeDiff C (AArray S) a r
  = Ok (filter (λ d, d ∉ S) C, filter (λ d, d ∉ C) S).
Proof.
  unfold computeDiff. simpl. f_equal. f_equal; apply list_filter_iff; intros d;
    apply includes_false.
Qed.

(** Add/remove mode, for arguments that are arrays or absent. *)
Lemma computeDiff_add_remove C a r :
  a ≠ ANull → r ≠ ANull →
  computeDiff C AUndefined a r
  = Ok (filter (λ d, d ∈ ids_of r) C, filter (λ d, d ∉ C) (ids_of a)).
Proof.
  intros Ha Hr. unfold computeDiff. simpl.
  destruct r as [| |R]; [|done|]; destruct a as [| |A]; try done; simpl.
  - f_equal. f_equal. symmetry. apply filter_nil_Forall. intros d _. apply not_elem_of_nil.
  - f_equal. f_equal.
    + symmetry. apply filter_nil_Forall. intros d _. apply not_elem_of_nil.
    + apply list_filter_iff. intros d. apply includes_false.
  - f_equal. f_equal. apply list_filter_iff. intros d. apply includes_true.
  - f_equal. f_equal; apply list_filter_iff; intros d;
      [apply includes_true|apply includes_false].
Qed.

(** After a successful set-mode call the members are the set. *)
Lemma set_mode_final app g a r S w res w' :
  updateDeviceGroupMembership app (GObject g) a r (AArray S) w = (Ok res, w') →
  ∀ i, i ∈ deviceListToIds S (decodeHashid app)
       ↔ ∃ k, i = Some k ∧ is_member (DeviceGroup.id g) (committed w') k.
Proof.
  intros Hrun i.
  apply updateDeviceGroupMembership_ok in Hrun; [|done].
  destruct Hrun as (rm & ad & g' & Hdiff & -> & Hres & Hadd & Hrem & Hc & _).
  rewrite and_deviceListToIds_array, computeDiff_set in Hdiff.
  set (Sids := deviceListToIds S (decodeHashid app)) in *.
  set (C := currentMemberIds app g (committed w)) in *.
  injection Hdiff as <- <-.
  assert (Hrows : ∀ j, j ∈ filter (λ d, d ∉ C) Sids →
                       ∃ k d, j = Some k ∧ devices (committed w) !! k = Some d).
  { intros j Hj. destruct Hadd as (ap & _ & _ & _ & Hel).
    - intros Hnil. rewrite Hnil in Hj. by apply elem_of_nil in Hj.
    - destruct (Hel j Hj) as (k & d & -> & Hd & _). eauto. }
  assert (Hmem : ∀ k, is_member (DeviceGroup.id g) (committed w') k ↔
                      (is_member (DeviceGroup.id g) (committed w) k
                       ∨ Some k ∈ filter (λ d, d ∉ C) Sids)
                      ∧ Some k ∉ filter (λ d, d ∉ Sids) C).
  { intros k. rewrite Hc. by apply reconciled_member. }
  split.
  - intros Hi. destruct (decide (i ∈ C)) as [HiC|HiC].
    + apply currentMemberIds_spec in HiC as (k & -> & Hk). exists k. split; [done|].
      apply Hmem. split; [by left|]. rewrite list_elem_of_filter. tauto.
    + assert (Hin : i ∈ filter (λ d, d ∉ C) Sids) by by apply list_elem_of_filter.
      destruct (Hrows i Hin) as (k & d & -> & _). exists k. split; [done|].
      apply Hmem. split; [by right|]. rewrite list_elem_of_filter. tauto.
  - intros (k & -> & Hk). apply Hmem in Hk as [[Hk|Hk] Hnot].
    + destruct (decide (Some k ∈ Sids)) as [|Hout]; [done|]. destruct Hnot.
      apply list_elem_of_filter. split; [done|]. apply currentMemberIds_spec. eauto.
    + by apply list_elem_of_filter in Hk as [_ ?].
Qed.

(** The [try] block with nothing to add and nothing to remove only commits. *)
Lemma applyChanges_nil app g w :
  db_fault app EvCommit = None →
  applyChanges app g [] [] Txn (at_try g w)
  = (Ok g, mkWorld (committed w) None
                   (log w ++ [EvGetDevices (DeviceGroup.id g); EvTransaction; EvCommit])).
Proof.
  intros Hcommit.
  unfold applyChanges, at_try, mbind, M_bind, commit, mret, M_ret. simpl.
  rewrite Hcommit. by rewrite <- app_assoc.
Qed.

(** ** The membership invariant *)

Lemma at_most_one_group_any s : at_most_one_group s.
Proof.
  intros k g1 g2 (d1 & Hd1 & Hg1) (d2 & Hd2 & Hg2). congruence.
Qed.

Lemma check_membership_sound s : check_membership s = true → membership_invariant s.
Proof.
  unfold check_membership. intros Hcheck k d gid Hd Hg.
  apply Is_true_true, forallb_True in Hcheck. rewrite Forall_forall in Hcheck.
  specialize (Hcheck (k, d)). simpl in Hcheck. rewrite Hg in Hcheck.
  assert (Hin : (k, d) ∈ map_to_list (devices s)) by by apply elem_of_map_to_list.
  specialize (Hcheck Hin).
  destruct (groups s !! gid) as [row|]; [|done].
  destruct (DeviceGroupRow.ApplicationId row) as [aid|] eqn:Haid; [|done].
  apply andb_True in Hcheck as [Happ Hteam]. apply bool_decide_spec in Happ.
  destruct (applications s !! aid) as [arow|] eqn:Harow; [|done].
  apply bool_decide_spec in Hteam. exists row, aid, arow. done.
Qed.

(** Clearing [DeviceGroupId] keeps the invariant. *)
Lemma invariant_unassign s wh :
  membership_invariant s →
  membership_invariant (set_devices (update_rows None wh (devices s)) s).
Proof.
  intros Hinv k d' gid Hd' Hg. simpl in *. rewrite update_rows_lookup in Hd'.
  destruct (devices s !! k) as [d|] eqn:Hd; [|done]. simpl in Hd'. injection Hd' as <-.
  destruct (row_matches wh k d); [done|]. by eapply Hinv.
Qed.

(** Pointing eligible rows at a group that agrees with the tables keeps it. *)
Lemma invariant_assign s g ap ids :
  membership_invariant s →
  in_sync s g →
  DeviceGroup.Application g = Some ap →
  (∀ i, i ∈ ids → eligible g (Application.TeamId ap) s i) →
  membership_invariant
    (set_devices (update_rows (Some (DeviceGroup.id g)) (assign_where ids) (devices s)) s).
Proof.
  intros Hinv (row & Hrow & Happ & Hloaded) Hap Hel k d' gid Hd' Hg. simpl in *.
  rewrite update_rows_lookup in Hd'.
  destruct (devices s !! k) as [d|] eqn:Hd; [|done]. simpl in Hd'. injection Hd' as <-.
  rewrite row_matches_assign in Hg |- *. case_bool_decide as Hin; [|by eapply Hinv].
  simpl in Hg. injection Hg as <-.
  destruct (Hel _ Hin) as (k' & d0 & [= <-] & Hd0 & _ & Hdapp & Hdteam).
  rewrite Hd in Hd0. injection Hd0 as <-.
  destruct (Hloaded ap Hap) as (aid & arow & Haid & Harow & Hteam).
  exists row, aid, arow. simpl. split; [done|]. split; [congruence|].
  split; [congruence|]. split; [done|]. congruence.
Qed.

Lemma set_devices_same s : set_devices (devices s) s = s.
Proof. by destruct s. Qed.

(** The invariant after a successful reconciliation. *)
Lemma invariant_reconciled s g g' ad rm :
  membership_invariant s →
  in_sync s g' →
  DeviceGroup.id g' = DeviceGroup.id g →
  (ad ≠ [] → ∃ ap, DeviceGroup.Application g' = Some ap
       ∧ ∀ i, i ∈ ad → eligible g' (Application.TeamId ap) s i) →
  membership_invariant (set_devices (reconciled g ad rm (devices s)) s).
Proof.
  intros Hinv Hsync Hid Hadd.
  assert (Hadded : membership_invariant
            (set_devices (update_rows (Some (DeviceGroup.id g)) (assign_where ad) (devices s)) s)).
  { destruct (decide (ad = [])) as [->|Hne].
    - rewrite update_rows_nil by done. by rewrite set_devices_same.
    - destruct (Hadd Hne) as (ap & Hap & Hel). rewrite <- Hid.
      by eapply invariant_assign. }
  exact (invariant_unassign _ (unassign_where g rm) Hadded).
Qed.

(** * The specification, statement by statement *)

(** ** C10: nothing to do *)

(** C10: when none of addDevices, removeDevices, setDevices is provided
    (absent or null), [updateDeviceGroupMembership] returns at once, without
    an error and without any call to the database (the world, log included,
    is unchanged), whatever [deviceGroup] is; the 'DeviceGroup is required'
    check is reached, and fails for a missing or non-object group, only when
    at least one of the three is present. *)
Theorem C10_nothing_to_do app deviceGroup a r s w :
  (truthy a = false → truthy r = false → truthy s = false →
   updateDeviceGroupMembership app deviceGroup a r s w = (Ok deviceGroup, w))
  ∧ (truthy s || truthy a || truthy r = true → (∀ g, deviceGroup ≠ GObject g) →
     updateDeviceGroupMembership app deviceGroup a r s w
     = (Throw (Error "DeviceGroup is required"), w)).
Proof.
  unfold updateDeviceGroupMembership. split.
  - by intros -> -> ->.
  - intros Htruthy Hobj.
    replace (negb (truthy s) && negb (truthy a) && negb (truthy r)) with false
      by (by destruct (truthy s), (truthy a), (truthy r)).
    destruct deviceGroup as [| |g]; [done..|]. by destruct (Hobj g).
Qed.

Lemma C10_witness :
  updateDeviceGroupMembership Sample.app GNull AUndefined ANull AUndefined Sample.world
  = (Ok GNull, Sample.world)
  ∧ updateDeviceGroupMembership Sample.app (GPrimitive true) (AArray []) ANull AUndefined
      Sample.world
    = (Throw (Error "DeviceGroup is required"), Sample.world).
Proof.
  split.
  - apply (C10_nothing_to_do Sample.app GNull AUndefined ANull AUndefined Sample.world);
      reflexivity.
  - apply (C10_nothing_to_do Sample.app (GPrimitive true) (AArray []) ANull AUndefined
             Sample.world); [reflexivity|]. intros g. discriminate.
Defined.

(** ** C9: renaming and describing a group *)

Lemma alter_lookup_Some {A} (f : A → A) (m : gmap Z A) k x :
  m !! k = Some x → alter f k m = <[k := f x]> m.
Proof.
  intros Hk. rewrite <- (insert_id m k x Hk) at 1. apply alter_insert_eq.
Qed.

(** C9: [updateDeviceGroup] fails with 'DeviceGroup is required' when the
    group is missing (null, undefined or another falsy value).  For an instance without pending assignments: with
    neither field provided it returns the instance as it is and calls
    nothing; with a field provided it saves, reloads and returns the
    reloaded instance, and the only change to the tables is in the row of
    the group, where exactly the provided columns take the new values. *)
Theorem C9_updateDeviceGroup app g name description w :
  (∀ deviceGroup, deviceGroup = GNull ∨ deviceGroup = GPrimitive false →
     updateDeviceGroup app deviceGroup name description w
     = (Throw (Error "DeviceGroup is required"), w))
  ∧ (DeviceGroup.changed g = [] →
     if provided name || provided description
     then ∀ row, groups (committed w) !! DeviceGroup.id g = Some row →
       let row' :=
         DeviceGroupRow.mk
           (if name is Provided v then v else DeviceGroupRow.name row)
           (if description is Provided v then v else DeviceGroupRow.description row)
           (DeviceGroupRow.ApplicationId row) in
       updateDeviceGroup app (GObject g) name description w
       = (Ok (GObject
                (DeviceGroup.mk (DeviceGroup.id g)
                   (DeviceGroupRow.name row') (DeviceGroupRow.description row')
                   (DeviceGroupRow.ApplicationId row)
                   (DeviceGroup.Application g) (DeviceGroup.targetSnapshot g)
                   (DeviceGroup.PipelineStageDeviceGroup g) [])),
          mkWorld (set_groups (<[DeviceGroup.id g := row']> (groups (committed w)))
                     (committed w))
                  (working w)
                  (log w ++ [EvSave (DeviceGroup.id g); EvReload (DeviceGroup.id g)]))
     else updateDeviceGroup app (GObject g) name description w = (Ok (GObject g), w)).
Proof.
  split; [by intros dg [->| ->]|]. intros Hclean.
  destruct name as [|n], description as [|d]; simpl; [done|..]; intros row Hrow;
    unfold updateDeviceGroup, save, reload, mbind, M_bind, emit, gets, mret, M_ret;
    simpl; rewrite <- app_assoc; simpl;
    rewrite lookup_alter_eq, Hrow; simpl;
    rewrite (alter_lookup_Some _ _ _ _ Hrow);
    unfold refreshed, saved_row; simpl; rewrite ?Hclean; done.
Qed.

Lemma C9_witness :
  ∃ g' w',
    updateDeviceGroup Sample.app (GObject Sample.group) (Provided (Some "Edge")) Undefined
      Sample.world = (Ok (GObject g'), w')
    ∧ DeviceGroup.name g' = Some "Edge"
    ∧ groups (committed w') !! 1 = Some (DeviceGroupRow.mk (Some "Edge") None (Some 1))
    ∧ log w' = [EvSave 1; EvReload 1]
    ∧ updateDeviceGroup Sample.app GNull (Provided (Some "Edge")) Undefined Sample.world
      = (Throw (Error "DeviceGroup is required"), Sample.world).
Proof.
  destruct (C9_updateDeviceGroup Sample.app Sample.group (Provided (Some "Edge")) Undefined
              Sample.world) as [Hmissing H].
  specialize (H eq_refl (DeviceGroupRow.mk (Some "Group") None (Some 1)) eq_refl).
  eexists _, _. split; [exact H|]. split; [reflexivity|]. split; [reflexivity|].
  split; [reflexivity|]. apply Hmissing. by left.
Defined.

(** ** C8: the update notifier *)

Lemma for_of_sendUpdateTo app g a team snap stage l w :
  DeviceGroup.PipelineStageDeviceGroup g = Some stage →
  Application.Team a = Some team →
  for_of l (sendUpdateTo g a
              (mkPayload "application" (Application.hashid a) (ProjectSnapshot.hashid snap)
                 None None (license_active app))) w
  = (Ok tt, mkWorld (committed w) (working w)
                    (log w ++ (update_command app a team snap <$> at_target stage l))).
Proof.
  intros Hstage Hteam. revert w. induction l as [|kd l IH]; intros w.
  - simpl. rewrite app_nil_r. by destruct w.
  - simpl. unfold mbind, M_bind, sendUpdateTo at 1. rewrite Hstage, Hteam. simpl.
    unfold at_target. case_bool_decide as Htarget.
    + rewrite filter_cons_False by done. simpl. apply IH.
    + rewrite filter_cons_True by done.
      unfold emit. rewrite IH. simpl. by rewrite <- app_assoc.
Qed.

Lemma filter_command_snoc (l : list Event) e :
  is_command e = false →
  filter (λ e, Is_true (is_command e)) (l ++ [e]) = filter (λ e, Is_true (is_command e)) l.
Proof.
  intros He. rewrite filter_app, filter_cons_False, filter_nil by by apply Is_true_false.
  apply app_nil_r.
Qed.

Lemma filter_command_commands app a team snap (l : list (Z * Device.t)) :
  filter (λ e, Is_true (is_command e)) (update_command app a team snap <$> l)
  = update_command app a team snap <$> l.
Proof.
  induction l as [|kd l IH]; [done|].
  rewrite fmap_cons, filter_cons_True by done. by rewrite IH.
Qed.

(** The devices at the target among the members read: no device twice, and
    exactly the devices of the table that point at the group and are at
    the target of its stage. *)
Lemma at_target_members stage gid ds :
  let recipients := at_target stage (members_of gid ds) in
  NoDup recipients.*1
  ∧ ∀ k d, (k, d) ∈ recipients
           ↔ ds !! k = Some d
             ∧ Device.DeviceGroupId d = Some gid
             ∧ Device.targetSnapshotId d = PipelineStageDeviceGroup.targetSnapshotId stage.
Proof.
  intros recipients. split.
  - apply (sublist_NoDup _ (members_of gid ds).*1).
    + apply NoDup_fst_map_to_list.
    + apply fmap_sublist, sublist_filter.
  - intros k d. unfold recipients, at_target.
    rewrite list_elem_of_filter, members_of_spec. simpl. tauto.
Qed.

(** C8: with the messaging layer present and the group's application, its
    team and the target snapshot resolved, [sendUpdateCommand] succeeds,
    changes no table, and the commands it sends are exactly one 'update'
    per recipient, where the recipients are, each once, exactly the devices
    of the Devices table whose DeviceGroupId is the group's id and whose
    targetSnapshotId equals the targetSnapshotId of the group's pipeline
    stage: a member at any other target gets none, and neither does a
    device outside the group.  Each payload carries ownerType
    'application', the application's hash id, the target snapshot's hash
    id, the device's settingsHash or null, the device's mode and the
    licence flag. *)
Theorem C8_sendUpdateCommand app g w a team snap stage :
  comms app = true →
  DeviceGroup.ApplicationId g ≫= (λ i, applications (committed w) !! i) = Some a →
  Application.TeamId a ≫= (λ i, teams (committed w) !! i) = Some team →
  DeviceGroup.PipelineStageDeviceGroup g = Some stage →
  (if DeviceGroup.targetSnapshot g is Some s then Some s
   else PipelineStageDeviceGroup.targetSnapshotId stage
        ≫= λ i, snapshots (committed w) !! i) = Some snap →
  ∃ w' recipients,
    sendUpdateCommand app g w = (Ok tt, w')
    ∧ committed w' = committed w
    ∧ working w' = working w
    ∧ NoDup recipients.*1
    ∧ (∀ k d, (k, d) ∈ recipients
              ↔ devices (committed w) !! k = Some d
                ∧ Device.DeviceGroupId d = Some (DeviceGroup.id g)
                ∧ Device.targetSnapshotId d
                  = PipelineStageDeviceGroup.targetSnapshotId stage)
    ∧ filter (λ e, Is_true (is_command e)) (log w')
      = filter (λ e, Is_true (is_command e)) (log w)
        ++ ((λ kd : Z * Device.t,
               EvSendCommand (Team.hashid team) (Device.hashid kd.2) "update"
                 (mkPayload "application" (Application.hashid a)
                    (ProjectSnapshot.hashid snap)
                    (or_null (Device.settingsHash kd.2)) (Device.mode kd.2)
                    (license_active app))) <$> recipients).
Proof.
  intros Hcomms Ha Hteam Hstage Hsnap.
  destruct (at_target_members stage (DeviceGroup.id g) (devices (committed w)))
    as [Hnodup Hrecipients].
  exists (mkWorld (committed w) (working w)
            (log w ++ [EvGetApplication (DeviceGroup.id g)]
             ++ (if DeviceGroup.targetSnapshot g is Some _ then []
                 else [EvSnapshotById (PipelineStageDeviceGroup.targetSnapshotId stage)])
             ++ [EvGetDevices (DeviceGroup.id g)]
             ++ (update_command app a team snap
                   <$> at_target stage (members_of (DeviceGroup.id g) (devices (committed w)))))),
         (at_target stage (members_of (DeviceGroup.id g) (devices (committed w)))).
  split; [|split; [done|split; [done|split; [done|split; [done|]]]]].
  - unfold sendUpdateCommand. rewrite Hcomms.
    unfold mbind at 1, M_bind at 1, getApplication.
    unfold mbind at 1 2, M_bind at 1 2, emit, gets, mret, M_ret. simpl.
    rewrite Ha. simpl. rewrite Hteam.
    set (a' := Application.mk (Application.hashid a) (Application.TeamId a) (Some team)).
    destruct (DeviceGroup.targetSnapshot g) as [s|] eqn:Hts.
    + injection Hsnap as ->. unfold mbind, M_bind, getDevices, emit, gets. simpl.
      erewrite (for_of_sendUpdateTo app g a' team snap stage) by done. simpl.
      by rewrite <- !app_assoc.
    + rewrite Hstage. unfold ProjectSnapshot_byId, mbind, M_bind, getDevices, emit, gets,
        mret, M_ret. simpl.
      destruct (PipelineStageDeviceGroup.targetSnapshotId stage) as [i|] eqn:Htarget;
        simpl in *; [|done].
      rewrite Hsnap.
      erewrite (for_of_sendUpdateTo app g a' team snap stage) by done. simpl.
      by rewrite <- !app_assoc.
  - cbn [log]. rewrite !filter_app.
    rewrite (filter_command_commands app a team snap).
    rewrite (filter_cons_False _ (EvGetApplication _)) by (simpl; tauto).
    rewrite (filter_cons_False _ (EvGetDevices _)) by (simpl; tauto).
    rewrite !filter_nil.
    assert (Hlookup : filter (λ e, Is_true (is_command e))
              (if DeviceGroup.targetSnapshot g is Some _ then []
               else [EvSnapshotById (PipelineStageDeviceGroup.targetSnapshotId stage)]) = []).
    { destruct (DeviceGroup.targetSnapshot g); [done|].
      by rewrite filter_cons_False by (simpl; tauto). }
    by rewrite Hlookup.
Qed.

(** Devices 1 and 3 are in group 1 at target 7 and get the command; device
    2, a member at target 8, gets none, and neither do devices 6 and 7,
    which are at target 7 but not in the group. *)
Lemma C8_witness :
  ∃ w', sendUpdateCommand Sample.app Sample.group Sample.fleet_world = (Ok tt, w')
    ∧ filter (λ e, Is_true (is_command e)) (log w')
      = [EvSendCommand "team1" "d3" "update"
           (mkPayload "application" "app1" "snap7" (Some "cfg") (Some "autonomous") true);
         EvSendCommand "team1" "d1" "update"
           (mkPayload "application" "app1" "snap7" (Some "cfg") (Some "autonomous") true)].
Proof.
  destruct (C8_sendUpdateCommand Sample.app Sample.group Sample.fleet_world
              (Application.mk "app1" (Some 1) None) (Team.mk "team1")
              (ProjectSnapshot.mk "snap7") (PipelineStageDeviceGroup.mk (Some 7)))
    as (w' & recipients & Hrun & _); [reflexivity..|].
  exists w'. split; [exact Hrun|].
  vm_compute in Hrun. injection Hrun as <-. vm_compute. reflexivity.
Defined.

(** ** C2, C3, C4: the diff and its effect *)

(** C2: with setDevices = S the call does what it does without addDevices
    and removeDevices; the lists it computes are toRemove = C − S (the
    current members not in S) and toAdd = S − C (the entries of S that are
    not members), all ids normalised first; and when the call succeeds the
    writes it issued are the updates of these two lists and the members of
    the group are exactly the ids of S. *)
Theorem C2_set_mode app g a r S w :
  let C := currentMemberIds app g (committed w) in
  let Sids := deviceListToIds S (decodeHashid app) in
  updateDeviceGroupMembership app (GObject g) a r (AArray S) w
  = updateDeviceGroupMembership app (GObject g) AUndefined AUndefined (AArray S) w
  ∧ computeDiff C (AArray Sids)
      (and_deviceListToIds a (decodeHashid app)) (and_deviceListToIds r (decodeHashid app))
    = Ok (filter (λ d, d ∉ Sids) C, filter (λ d, d ∉ C) Sids)
  ∧ ∀ res w', updateDeviceGroupMembership app (GObject g) a r (AArray S) w = (Ok res, w') →
      writes w' = writes w
                  ++ reconcile_writes g (filter (λ d, d ∉ C) Sids) (filter (λ d, d ∉ Sids) C)
      ∧ ∀ i, i ∈ Sids ↔ ∃ k, i = Some k ∧ is_member (DeviceGroup.id g) (committed w') k.
Proof.
  intros C Sids. split; [|split].
  - rewrite !updateDeviceGroupMembership_unfold by done.
    rewrite and_deviceListToIds_array. by rewrite !computeDiff_set.
  - apply computeDiff_set.
  - intros res w' Hrun. split; [|by eapply set_mode_final].
    apply updateDeviceGroupMembership_ok in Hrun; [|done].
    destruct Hrun as (rm & ad & g' & Hdiff & _ & _ & _ & _ & _ & _ & Hw).
    rewrite and_deviceListToIds_array, computeDiff_set in Hdiff.
    by injection Hdiff as <- <-.
Qed.

Lemma C2_witness :
  ∃ res w',
    updateDeviceGroupMembership Sample.app (GObject Sample.group) AUndefined AUndefined
      (AArray [RefNum 2; RefNum 3; RefHash "d4"]) Sample.world = (Ok res, w')
    ∧ computeDiff (currentMemberIds Sample.app Sample.group Sample.store)
        (AArray [Some 2; Some 3; Some 4]) AUndefined AUndefined
      = Ok ([Some 1], [Some 4])
    ∧ ∀ i, i ∈ [Some 2; Some 3; Some 4] ↔ ∃ k, i = Some k ∧ is_member 1 (committed w') k.
Proof.
  destruct (C2_set_mode Sample.app Sample.group AUndefined AUndefined
              [RefNum 2; RefNum 3; RefHash "d4"] Sample.world) as (_ & Hdiff & Hfinal).
  eexists _, _. split; [vm_compute; reflexivity|]. split.
  - etransitivity; [exact Hdiff|]. vm_compute. reflexivity.
  - eapply Hfinal. vm_compute. reflexivity.
Defined.

(** C3: set mode is idempotent.  After a successful call with setDevices =
    S, a second call with the same S (whatever its addDevices and
    removeDevices) computes an empty toRemove and an empty toAdd, succeeds,
    leaves the tables as they are and issues no write: it reads the members,
    opens a transaction and commits it. *)
Theorem C3_set_idempotent app g a r a' r' S w res w1 :
  updateDeviceGroupMembership app (GObject g) a r (AArray S) w = (Ok res, w1) →
  ∃ g', res = GObject g'
    ∧ computeDiff (currentMemberIds app g' (committed w1))
        (AArray (deviceListToIds S (decodeHashid app)))
        (and_deviceListToIds a' (decodeHashid app))
        (and_deviceListToIds r' (decodeHashid app)) = Ok ([], [])
    ∧ ∃ w2, updateDeviceGroupMembership app res a' r' (AArray S) w1 = (Ok res, w2)
        ∧ committed w2 = committed w1
        ∧ writes w2 = writes w1
        ∧ log w2 = log w1 ++ [EvGetDevices (DeviceGroup.id g'); EvTransaction; EvCommit].
Proof.
  intros Hrun. pose proof (set_mode_final _ _ _ _ _ _ _ _ Hrun) as Hfinal.
  assert (Hcommit : db_fault app EvCommit = None)
    by (eapply updateDeviceGroupMembership_committed; [|exact Hrun]; done).
  apply updateDeviceGroupMembership_ok in Hrun; [|done].
  destruct Hrun as (rm & ad & g' & _ & -> & Hres & _).
  apply resolved_from_id in Hres.
  exists g'. split; [done|].
  assert (Hsame : ∀ i, i ∈ deviceListToIds S (decodeHashid app)
                       ↔ i ∈ currentMemberIds app g' (committed w1)).
  { intros i. rewrite Hfinal, currentMemberIds_spec. by rewrite Hres. }
  assert (Hdiff : computeDiff (currentMemberIds app g' (committed w1))
            (AArray (deviceListToIds S (decodeHashid app)))
            (and_deviceListToIds a' (decodeHashid app))
            (and_deviceListToIds r' (decodeHashid app)) = Ok ([], [])).
  { rewrite computeDiff_set. f_equal. f_equal; apply filter_nil_Forall; intros i Hi Hnot;
      apply Hnot; by apply Hsame. }
  split; [done|].
  rewrite updateDeviceGroupMembership_unfold by done.
  rewrite and_deviceListToIds_array, Hdiff, applyChanges_nil by done.
  eexists. split; [done|]. split; [done|]. split; [|done].
  unfold writes. simpl. rewrite filter_app.
  do 3 rewrite filter_cons_False by (simpl; tauto). rewrite filter_nil. apply app_nil_r.
Qed.

Lemma C3_witness :
  ∃ res w1 w2,
    updateDeviceGroupMembership Sample.app (GObject Sample.group) AUndefined AUndefined
      (AArray [RefNum 2; RefNum 3; RefHash "d4"]) Sample.world = (Ok res, w1)
    ∧ updateDeviceGroupMembership Sample.app res AUndefined AUndefined
        (AArray [RefNum 2; RefNum 3; RefHash "d4"]) w1 = (Ok res, w2)
    ∧ committed w2 = committed w1
    ∧ writes w2 = writes w1.
Proof.
  destruct (C3_set_idempotent Sample.app Sample.group AUndefined AUndefined
              AUndefined AUndefined [RefNum 2; RefNum 3; RefHash "d4"] Sample.world
              _ _ ltac:(vm_compute; reflexivity))
    as (g' & _ & _ & w2 & Hrun2 & Hc & Hw & _).
  eexists _, _, w2. split; [vm_compute; reflexivity|]. split; [exact Hrun2|]. by split.
Defined.

(** C4: without setDevices, and with addDevices and removeDevices arrays or
    absent, toRemove is the current members that are in removeDevices and
    toAdd is the entries of addDevices that are not current members (ids
    normalised); a successful call writes with exactly these lists, one
    update per non-empty list, so a listed device that is not in the group
    is in no removal and one that is already in the group is in no
    addition. *)
Theorem C4_minimal_diff app g a r w :
  a ≠ ANull → r ≠ ANull →
  let C := currentMemberIds app g (committed w) in
  let A := ids_of (and_deviceListToIds a (decodeHashid app)) in
  let R := ids_of (and_deviceListToIds r (decodeHashid app)) in
  let toRemove := filter (λ d, d ∈ R) C in
  let toAdd := filter (λ d, d ∉ C) A in
  computeDiff C AUndefined
    (and_deviceListToIds a (decodeHashid app)) (and_deviceListToIds r (decodeHashid app))
  = Ok (toRemove, toAdd)
  ∧ (∀ i, i ∈ toRemove ↔ i ∈ C ∧ i ∈ R)
  ∧ (∀ i, i ∈ toAdd ↔ i ∈ A ∧ i ∉ C)
  ∧ ∀ res w', updateDeviceGroupMembership app (GObject g) a r AUndefined w = (Ok res, w') →
      writes w' = writes w ++ reconcile_writes g toAdd toRemove.
Proof.
  intros Ha Hr C A R toRemove toAdd.
  assert (Hdiff : computeDiff C AUndefined
            (and_deviceListToIds a (decodeHashid app))
            (and_deviceListToIds r (decodeHashid app)) = Ok (toRemove, toAdd)).
  { apply computeDiff_add_remove; [by destruct a|by destruct r]. }
  split; [done|]. split; [|split].
  - intros i. unfold toRemove. rewrite list_elem_of_filter. tauto.
  - intros i. unfold toAdd. rewrite list_elem_of_filter. tauto.
  - intros res w' Hrun.
    destruct (truthy (@AUndefined DeviceRef) || truthy a || truthy r) eqn:Htruthy.
    + apply updateDeviceGroupMembership_ok in Hrun; [|done].
      destruct Hrun as (rm & ad & g' & Hdiff' & _ & _ & _ & _ & _ & _ & Hw).
      assert (Heq : Ok (toRemove, toAdd) = Ok (rm, ad))
        by (rewrite <- Hdiff; exact Hdiff').
      by injection Heq as <- <-.
    + destruct a as [| |la], r as [| |lr]; try done.
      unfold updateDeviceGroupMembership in Hrun. simpl in Hrun.
      injection Hrun as <- <-.
      assert (toRemove = []) as ->
        by (apply filter_nil_Forall; intros d _; apply not_elem_of_nil).
      unfold toAdd, A, reconcile_writes. simpl. by rewrite app_nil_r.
Qed.

Lemma C4_witness :
  computeDiff (currentMemberIds Sample.app Sample.group Sample.store) AUndefined
    (AArray [Some 1; Some 4]) (AArray [Some 2; Some 5])
  = Ok ([Some 2], [Some 4])
  ∧ ∃ res w',
      updateDeviceGroupMembership Sample.app (GObject Sample.group)
        (AArray [RefNum 1; RefNum 4]) (AArray [RefNum 2; RefNum 5]) AUndefined Sample.world
      = (Ok res, w')
      ∧ writes w' = [EvUpdate (Some 1) (mkWhere [Some 4] None None None) true;
                     EvUpdate None (mkWhere [Some 2] (Some [Some 1]) None None) true].
Proof.
  destruct (C4_minimal_diff Sample.app Sample.group
              (AArray [RefNum 1; RefNum 4]) (AArray [RefNum 2; RefNum 5]) Sample.world)
    as (Hdiff & _ & _ & Hw); [discriminate..|].
  split.
  - etransitivity; [exact Hdiff|]. vm_compute. reflexivity.
  - eexists _, _. split; [vm_compute; reflexivity|].
    erewrite Hw by (vm_compute; reflexivity). vm_compute. reflexivity.
Defined.

(** ** C5: all or nothing *)




(** The same with a validation error: device 1 is in the group but under
    another team, so its removal does not validate after device 4 has been
    added; the error reaches the caller as it is and nothing persists. *)
Example validation_error_after_add :
  ∃ w',
    updateDeviceGroupMembership Sample.app (GObject Sample.group)
      (AArray [RefNum 4]) (AArray [RefNum 1]) AUndefined Sample.stale_world
    = (Throw (DeviceGroupMembershipValidationError "invalid_input"
                "One or more devices cannot be removed from the group" 400), w')
    ∧ committed w' = Sample.stale_store
    ∧ filter (λ e, Is_true (is_write e)) (log w')
      = [EvUpdate (Some 1) (mkWhere [Some 4] None None None) true].
Proof. eexists. split; [vm_compute; reflexivity|]. split; vm_compute; reflexivity. Qed.

(** ** C6: validation of an add batch *)

(** C6 as stated fails: both entries of the batch name device 4, which is
    unassigned and of the group's application and team, yet the count (1)
    differs from the size of the batch (2) and validation throws. *)
Lemma C6_counterexample :
  (∀ i, i ∈ deviceListToIds [RefNum 4; RefNum 4] (decodeHashid Sample.app) →
        eligible Sample.resolved_group (Some 1) Sample.store i)
  ∧ validateDeviceList Sample.app (GObject Sample.resolved_group)
      (Some [RefNum 4; RefNum 4]) None Sample.world
    = (Throw (DeviceGroupMembershipValidationError "invalid_input"
                "One or more devices cannot be added to the group" 400),
       mkWorld Sample.store None
         [EvCount (add_where Sample.resolved_group (Some 1) [Some 4; Some 4])]).
Proof.
  split; [|vm_compute; reflexivity].
  intros i Hi. simpl in Hi. rewrite !elem_of_cons, elem_of_nil in Hi.
  exists 4, (Sample.device None 1 None "d4").
  split; [by destruct Hi as [->|[->|[]]]|]. split; [reflexivity|]. auto.
Qed.

(** The calls [validateDeviceList] logs before its count: a reload when the
    application was not loaded. *)
Lemma validateDeviceList_add app g0 g ap deviceList w :
  resolved_from (committed w) g0 g →
  DeviceGroup.Application g = Some ap →
  truthy_id (Application.TeamId ap) = true →
  let ids := deviceListToIds deviceList (decodeHashid app) in
  let query := EvCount (add_where g (Application.TeamId ap) ids) in
  let w1 := mkWorld (committed w) (working w)
              (log w ++ (if DeviceGroup.Application g0 is Some _ then []
                         else [EvReload (DeviceGroup.id g0)]) ++ [query]) in
  db_fault app query = None →
  validateDeviceList app (GObject g0) (Some deviceList) None w
  = if bool_decide (count_rows (add_where g (Application.TeamId ap) ids)
                      (devices (committed w)) ≠ length ids)
    then (Throw (DeviceGroupMembershipValidationError "invalid_input"
                   "One or more devices cannot be added to the group" 400), w1)
    else (Ok (g, DeviceIds.mk (Some ids) None), w1).
Proof.
  intros Hres Hap Hteam ids query w1 Hfault. unfold validateDeviceList.
  assert (Hload : (if DeviceGroup.Application g0 is Some _ then mret g0 else reload true g0) w
                  = (Ok g, mkWorld (committed w) (working w)
                             (log w ++ (if DeviceGroup.Application g0 is Some _ then []
                                        else [EvReload (DeviceGroup.id g0)])))).
  { destruct Hres as [->|(Hnone & row & Hrow & ->)].
    - rewrite Hap. unfold mret, M_ret. rewrite app_nil_r. by destruct w.
    - rewrite Hnone. unfold reload, mbind, M_bind, emit, gets, mret, M_ret. simpl.
      by rewrite Hrow. }
  unfold mbind at 1, M_bind at 1. rewrite Hload, Hap, Hteam. simpl. fold ids.
  unfold Device_count, statement, mbind, M_bind, emit, gets, mret, M_ret, throw. simpl.
  fold query. rewrite Hfault. simpl. rewrite <- app_assoc. fold w1. by case_bool_decide.
Qed.

(** C6, amended: for a group whose application is loaded (by the caller or
    by the reload the validation does) and has a team, and a count query the
    database answers, validation of an add batch succeeds if and only if
    the batch names no device twice and every entry is a device with
    DeviceGroupId null or this group's id and with the group's ApplicationId
    and the application's TeamId.  Otherwise the count differs from the size
    of the batch, [validateDeviceList] throws
    DeviceGroupMembershipValidationError 'invalid_input' with status 400,
    and [assignDevicesToGroup] throws it too, having updated nothing: the
    committed tables and the working copy are as before, one ineligible
    entry being enough. *)
Theorem C6_validate_add_batch app g0 g ap deviceList t w :
  resolved_from (committed w) g0 g →
  DeviceGroup.Application g = Some ap →
  truthy_id (Application.TeamId ap) = true →
  let ids := deviceListToIds deviceList (decodeHashid app) in
  let query := EvCount (add_where g (Application.TeamId ap) ids) in
  let valid := NoDup ids ∧ ∀ i, i ∈ ids → eligible g (Application.TeamId ap) (committed w) i in
  let w1 := mkWorld (committed w) (working w)
              (log w ++ (if DeviceGroup.Application g0 is Some _ then []
                         else [EvReload (DeviceGroup.id g0)]) ++ [query]) in
  let err := DeviceGroupMembershipValidationError "invalid_input"
               "One or more devices cannot be added to the group" 400 in
  db_fault app query = None →
  (count_rows (add_where g (Application.TeamId ap) ids) (devices (committed w)) = length ids
   ↔ valid)
  ∧ (validateDeviceList app (GObject g0) (Some deviceList) None w
     = (Ok (g, DeviceIds.mk (Some ids) None), w1) ↔ valid)
  ∧ (¬ valid →
     validateDeviceList app (GObject g0) (Some deviceList) None w = (Throw err, w1)
     ∧ assignDevicesToGroup app (GObject g0) deviceList t w = (Throw err, w1)
     ∧ err_class err = ClsDeviceGroupMembershipValidationError
     ∧ err_code err = Some "invalid_input" ∧ statusCode err = Some 400).
Proof.
  intros Hres Hap Hteam ids query valid w1 err Hfault.
  assert (Hcount : count_rows (add_where g (Application.TeamId ap) ids)
                     (devices (committed w)) = length ids ↔ valid).
  { rewrite (count_rows_full (add_where g (Application.TeamId ap) ids)). unfold valid.
    simpl. split; intros [Hnd Hall]; (split; [done|]); intros i Hi;
      by eapply selects_add_where, Hall. }
  pose proof (validateDeviceList_add app g0 g ap deviceList w Hres Hap Hteam Hfault) as Hrun.
  cbv zeta in Hrun. fold ids query w1 err in Hrun.
  split; [done|]. split.
  - rewrite Hrun. case_bool_decide as Hc.
    + split; [done|]. intros Hv. by apply Hcount in Hv.
    + split; [intros _; by apply Hcount|done].
  - intros Hinvalid. assert (Hne : count_rows (add_where g (Application.TeamId ap) ids)
                                     (devices (committed w)) ≠ length ids)
      by (intros Hc; by apply Hinvalid, Hcount).
    rewrite bool_decide_eq_true_2 in Hrun by done.
    split; [done|]. split; [|done].
    unfold assignDevicesToGroup, mbind, M_bind. by rewrite Hrun.
Qed.

Lemma C6_witness :
  assignDevicesToGroup Sample.app (GObject Sample.group)
    [RefNum 4; RefNum 5] None Sample.world
  = (Throw (DeviceGroupMembershipValidationError "invalid_input"
              "One or more devices cannot be added to the group" 400),
     mkWorld Sample.store None
       [EvReload 1; EvCount (add_where Sample.resolved_group (Some 1) [Some 4; Some 5])]).
Proof.
  assert (Hres : resolved_from (committed Sample.world) Sample.group Sample.resolved_group).
  { right. split; [reflexivity|].
    exists (DeviceGroupRow.mk (Some "Group") None (Some 1)). split; reflexivity. }
  destruct (C6_validate_add_batch Sample.app Sample.group Sample.resolved_group
              (Application.mk "app1" (Some 1) None) [RefNum 4; RefNum 5] None Sample.world
              Hres eq_refl eq_refl eq_refl) as (Hcount & _ & Hthrow).
  apply Hthrow. intros Hvalid. apply Hcount in Hvalid. vm_compute in Hvalid. discriminate.
Defined.

(** ** C7: the operations keep the invariant *)

(** C7: let the committed tables satisfy the membership invariant (a device
    in a group has the ApplicationId of the group and the TeamId of that
    application) and let the instance agree with the tables.  Then after any
    successful call of [assignDevicesToGroup], [removeDevicesFromGroup] or
    [updateDeviceGroupMembership] the committed tables satisfy the invariant
    again, and no device is in two groups. *)
Theorem C7_membership_invariant app g deviceList t a r s w :
  membership_invariant (committed w) →
  in_sync (committed w) g →
  (∀ g' w', assignDevicesToGroup app (GObject g) deviceList t w = (Ok g', w') →
     membership_invariant (committed w') ∧ at_most_one_group (committed w'))
  ∧ (∀ g' w', removeDevicesFromGroup app (GObject g) deviceList t w = (Ok g', w') →
     membership_invariant (committed w') ∧ at_most_one_group (committed w'))
  ∧ (∀ res w', updateDeviceGroupMembership app (GObject g) a r s w = (Ok res, w') →
     membership_invariant (committed w') ∧ at_most_one_group (committed w')).
Proof.
  intros Hinv Hsync. split; [|split].
  - intros g' w' Hrun. split; [|apply at_most_one_group_any].
    pose proof (wp_run _ _ _ _ _ (assignDevicesToGroup_spec app (GObject g) deviceList t w) Hrun)
      as (g0 & ap & [= <-] & Hres & Hap & _ & Hcount & _ & Ht).
    destruct t as [t|]; [destruct Ht as [-> _]; done|]. destruct Ht as [-> _].
    apply (count_rows_full (add_where g' (Application.TeamId ap) _)) in Hcount as [_ Hall].
    eapply invariant_assign; [done| |done|].
    + by eapply resolved_from_in_sync.
    + intros i Hi. eapply selects_add_where; [done|]. by apply Hall.
  - intros g' w' Hrun. split; [|apply at_most_one_group_any].
    pose proof (wp_run _ _ _ _ _ (removeDevicesFromGroup_spec app (GObject g) deviceList t w) Hrun)
      as (g0 & ap & [= <-] & _ & _ & _ & _ & _ & Ht).
    destruct t as [t|]; [destruct Ht as [-> _]; done|]. destruct Ht as [-> _].
    by apply invariant_unassign.
  - intros res w' Hrun. split; [|apply at_most_one_group_any].
    destruct (truthy s || truthy a || truthy r) eqn:Htruthy.
    + apply updateDeviceGroupMembership_ok in Hrun; [|done].
      destruct Hrun as (rm & ad & g' & _ & _ & Hres & Hadd & _ & -> & _).
      eapply invariant_reconciled; [done| | |].
      * by eapply resolved_from_in_sync.
      * by eapply resolved_from_id.
      * intros Hne. destruct (Hadd Hne) as (ap & Hap & _ & _ & Hel). eauto.
    + unfold updateDeviceGroupMembership in Hrun.
      replace (negb (truthy s) && negb (truthy a) && negb (truthy r)) with true in Hrun
        by (by destruct (truthy s), (truthy a), (truthy r)).
      by injection Hrun as <- <-.
Qed.

Lemma C7_witness :
  (∃ res w',
     updateDeviceGroupMembership Sample.app (GObject Sample.group) AUndefined AUndefined
       (AArray [RefNum 2; RefNum 3; RefHash "d4"]) Sample.world = (Ok res, w')
     ∧ Sample.member_ids w' = [3; 4; 2]
     ∧ membership_invariant (committed w')
     ∧ at_most_one_group (committed w'))
  ∧ (∃ g' w',
       assignDevicesToGroup Sample.app (GObject Sample.group) [RefObj 4] None Sample.world
       = (Ok g', w')
       ∧ Sample.member_ids w' = [3; 4; 2; 1]
       ∧ membership_invariant (committed w'))
  ∧ (∃ g' w',
       removeDevicesFromGroup Sample.app (GObject Sample.group) [RefObj 1] None Sample.world
       = (Ok g', w')
       ∧ Sample.member_ids w' = [3; 2]
       ∧ membership_invariant (committed w')).
Proof.
  assert (Hinv : membership_invariant (committed Sample.world))
    by (apply check_membership_sound; vm_compute; reflexivity).
  assert (Hsync : in_sync (committed Sample.world) Sample.group).
  { exists (DeviceGroupRow.mk (Some "Group") None (Some 1)).
    split; [reflexivity|]. split; [reflexivity|]. intros ap Hap. discriminate Hap. }
  split; [|split].
  - destruct (C7_membership_invariant Sample.app Sample.group [] None AUndefined AUndefined
                (AArray [RefNum 2; RefNum 3; RefHash "d4"]) Sample.world Hinv Hsync)
      as (_ & _ & Hupdate).
    eexists _, _. split; [vm_compute; reflexivity|]. split; [vm_compute; reflexivity|].
    eapply Hupdate. vm_compute. reflexivity.
  - destruct (C7_membership_invariant Sample.app Sample.group [RefObj 4] None
                AUndefined AUndefined AUndefined Sample.world Hinv Hsync)
      as (Hassign & _ & _).
    eexists _, _. split; [vm_compute; reflexivity|]. split; [vm_compute; reflexivity|].
    eapply Hassign. vm_compute. reflexivity.
  - destruct (C7_membership_invariant Sample.app Sample.group [RefObj 1] None
                AUndefined AUndefined AUndefined Sample.world Hinv Hsync)
      as (_ & Hremove & _).
    eexists _, _. split; [vm_compute; reflexivity|]. split; [vm_compute; reflexivity|].
    eapply Hremove. vm_compute. reflexivity.
Defined.

(** ** C1: a device in both lists *)

(** What the code does with a device that is in addDevices and in
    removeDevices: on success it is a member afterwards exactly when it was
    not a member before. *)
Lemma in_both_lists_toggles app g a r w res w' k :
  Some k ∈ ids_of (and_deviceListToIds a (decodeHashid app)) →
  Some k ∈ ids_of (and_deviceListToIds r (decodeHashid app)) →
  updateDeviceGroupMembership app (GObject g) a r AUndefined w = (Ok res, w') →
  is_member (DeviceGroup.id g) (committed w') k
  ↔ ¬ is_member (DeviceGroup.id g) (committed w) k.
Proof.
  intros Ha Hr Hrun.
  assert (Hna : a ≠ ANull) by (intros ->; by apply elem_of_nil in Ha).
  assert (Hnr : r ≠ ANull) by (intros ->; by apply elem_of_nil in Hr).
  assert (Htruthy : truthy (@AUndefined DeviceRef) || truthy a || truthy r = true).
  { destruct a; try done. by apply elem_of_nil in Ha. }
  apply updateDeviceGroupMembership_ok in Hrun; [|done].
  destruct Hrun as (rm & ad & g' & Hdiff & _ & _ & Hadd & _ & -> & _).
  change (and_deviceListToIds AUndefined (decodeHashid app)) with (@AUndefined jsid) in Hdiff.
  rewrite computeDiff_add_remove in Hdiff by (by destruct a, r).
  injection Hdiff as <- <-.
  set (C := currentMemberIds app g (committed w)) in *.
  rewrite reconciled_member.
  - rewrite !list_elem_of_filter.
    assert (HC : Some k ∈ C ↔ is_member (DeviceGroup.id g) (committed w) k).
    { unfold C. rewrite currentMemberIds_spec. split; [by intros (? & [= <-] & ?)|eauto]. }
    rewrite HC. tauto.
  - intros i Hi. destruct Hadd as (ap & _ & _ & _ & Hel).
    + intros Hnil. rewrite Hnil in Hi. by apply elem_of_nil in Hi.
    + destruct (Hel i Hi) as (k' & d & -> & Hd & _). eauto.
Qed.

(** C1 fails on the code: device 4 is in addDevices and in removeDevices and
    is not in group 1; the call succeeds, the list to remove is empty (it
    is taken from the current members only), and device 4 ends up in the
    group. *)
Theorem C1_added_device_is_not_removed :
  ∃ res w',
    updateDeviceGroupMembership Sample.app (GObject Sample.group)
      (AArray [RefNum 4]) (AArray [RefNum 4]) AUndefined Sample.world = (Ok res, w')
    ∧ computeDiff (currentMemberIds Sample.app Sample.group Sample.store) AUndefined
        (AArray [Some 4]) (AArray [Some 4]) = Ok ([], [Some 4])
    ∧ ¬ is_member 1 Sample.store 4
    ∧ is_member 1 (committed w') 4
    ∧ writes w' = [EvUpdate (Some 1) (mkWhere [Some 4] None None None) true].
Proof.
  eexists _, _. split; [vm_compute; reflexivity|]. split; [vm_compute; reflexivity|].
  split; [|split; [|vm_compute; reflexivity]].
  - intros (d & Hd & Hg). vm_compute in Hd. injection Hd as <-. discriminate Hg.
  - eexists. split; vm_compute; reflexivity.
Qed.

(** * Further properties of the controller *)

(** ** What a computed diff looks like *)

Lemma computeDiff_ok C s a r rm ad :
  computeDiff C s a r = Ok (rm, ad) →
  match s with
  | AArray l => rm = filter (λ d, d ∉ l) C ∧ ad = filter (λ d, d ∉ C) l
  | AUndefined => rm = filter (λ d, d ∈ ids_of r) C ∧ ad = filter (λ d, d ∉ C) (ids_of a)
  | ANull => False
  end.
Proof.
  destruct s as [| |l].
  - destruct a as [| |A], r as [| |R]; unfold computeDiff; simpl;
      try case_bool_decide; try done; intros [= <- <-]; subst;
      (split; [first [by rewrite filter_nil_Forall by (intros d _; apply not_elem_of_nil)
                      | done
                      | apply list_filter_iff; intros d; apply includes_true]
              |first [done | apply list_filter_iff; intros d; apply includes_false]]).
  - unfold computeDiff. simpl. by case_bool_decide.
  - rewrite computeDiff_set. by intros [= <- <-].
Qed.

(** The list to remove holds members only, the list to add non-members only. *)
Lemma computeDiff_disjoint C s a r rm ad :
  computeDiff C s a r = Ok (rm, ad) →
  (∀ i, i ∈ rm → i ∈ C) ∧ (∀ i, i ∈ ad → i ∉ C).
Proof.
  intros Hdiff. apply computeDiff_ok in Hdiff.
  destruct s as [| |l]; [|done|]; destruct Hdiff as [-> ->];
    split; intros i Hi; apply list_elem_of_filter in Hi; tauto.
Qed.

Lemma nothing_to_do app dg a r s w :
  truthy s || truthy a || truthy r = false →
  updateDeviceGroupMembership app dg a r s w = (Ok dg, w).
Proof.
  intros Hfalsy. unfold updateDeviceGroupMembership.
  by replace (negb (truthy s) && negb (truthy a) && negb (truthy r)) with true
    by (by destruct (truthy s), (truthy a), (truthy r)).
Qed.

Lemma currentMemberIds_member app g s k :
  Some k ∈ currentMemberIds app g s ↔ is_member (DeviceGroup.id g) s k.
Proof.
  rewrite currentMemberIds_spec. split; [by intros (? & [= <-] & ?)|eauto].
Qed.

(** The rows behind a validated list to add. *)
Lemma added_rows_exist g' ad s :
  (ad ≠ [] → ∃ ap, DeviceGroup.Application g' = Some ap
      ∧ truthy_id (Application.TeamId ap) = true
      ∧ NoDup ad
      ∧ ∀ i, i ∈ ad → eligible g' (Application.TeamId ap) s i) →
  ∀ i, i ∈ ad → ∃ k d, i = Some k ∧ devices s !! k = Some d
    ∧ (Device.DeviceGroupId d = None ∨ Device.DeviceGroupId d = Some (DeviceGroup.id g')).
Proof.
  intros Hadd i Hi. destruct Hadd as (ap & _ & _ & _ & Hel).
  - intros Hnil. rewrite Hnil in Hi. by apply elem_of_nil in Hi.
  - destruct (Hel i Hi) as (k & d & -> & Hd & Hg & _). eauto.
Qed.

(** ** Add/remove mode: the members after a successful call *)

(** X1: in add/remove mode (no setDevices), after a successful call a device
    is a member of the group exactly when it was a member and is not in
    removeDevices, or was not a member and is in addDevices (ids
    normalised).  A device in both lists therefore stays in when it was
    out, and goes out when it was in. *)
Theorem add_remove_final_membership app g a r w res w' :
  updateDeviceGroupMembership app (GObject g) a r AUndefined w = (Ok res, w') →
  let A := ids_of (and_deviceListToIds a (decodeHashid app)) in
  let R := ids_of (and_deviceListToIds r (decodeHashid app)) in
  ∀ k, is_member (DeviceGroup.id g) (committed w') k
       ↔ (is_member (DeviceGroup.id g) (committed w) k ∧ Some k ∉ R)
         ∨ (¬ is_member (DeviceGroup.id g) (committed w) k ∧ Some k ∈ A).
Proof.
  intros Hrun A R k.
  destruct (truthy (@AUndefined DeviceRef) || truthy a || truthy r) eqn:Htruthy.
  - apply updateDeviceGroupMembership_ok in Hrun; [|done].
    destruct Hrun as (rm & ad & g' & Hdiff & _ & _ & Hadd & _ & -> & _).
    apply computeDiff_ok in Hdiff. cbn in Hdiff. destruct Hdiff as [-> ->].
    fold A R. set (C := currentMemberIds app g (committed w)).
    rewrite reconciled_member.
    + rewrite !list_elem_of_filter.
      pose proof (currentMemberIds_member app g (committed w) k) as HC. fold C in HC.
      tauto.
    + intros i Hi. destruct (added_rows_exist g' _ _ Hadd i Hi) as (k' & d & ? & ? & _).
      eauto.
  - rewrite nothing_to_do in Hrun by done. injection Hrun as <- <-.
    assert (A = [] ∧ R = []) as [-> ->] by (by destruct a, r).
    rewrite !elem_of_nil. tauto.
Qed.

Lemma X1_witness :
  ∃ res w',
    updateDeviceGroupMembership Sample.app (GObject Sample.group)
      (AArray [RefNum 4]) (AArray [RefNum 2; RefNum 4]) AUndefined Sample.world = (Ok res, w')
    ∧ ∀ k, is_member 1 (committed w') k
           ↔ (is_member 1 Sample.store k ∧ Some k ∉ [Some 2; Some 4])
             ∨ (¬ is_member 1 Sample.store k ∧ Some k ∈ [Some 4]).
Proof.
  eexists _, _. split; [vm_compute; reflexivity|].
  eapply (add_remove_final_membership Sample.app Sample.group
            (AArray [RefNum 4]) (AArray [RefNum 2; RefNum 4]) Sample.world).
  vm_compute. reflexivity.
Defined.

(** ** What a call can change *)

Lemma same_but_group_refl d : same_but_group d d.
Proof. by destruct d. Qed.

Lemma same_but_group_set v d : same_but_group d (Device.set_DeviceGroupId v d).
Proof. by destruct d. Qed.

(** A call that throws has committed nothing. *)
Lemma updateDeviceGroupMembership_throw app dg a r s w e w' :
  updateDeviceGroupMembership app dg a r s w = (Throw e, w') →
  committed w' = committed w.
Proof.
  destruct (truthy s || truthy a || truthy r) eqn:Htruthy;
    [|by rewrite nothing_to_do by done].
  destruct dg as [|b|g].
  - unfold updateDeviceGroupMembership.
    replace (negb (truthy s) && negb (truthy a) && negb (truthy r)) with false
      by (by destruct (truthy s), (truthy a), (truthy r)).
    by intros [= _ <-].
  - unfold updateDeviceGroupMembership.
    replace (negb (truthy s) && negb (truthy a) && negb (truthy r)) with false
      by (by destruct (truthy s), (truthy a), (truthy r)).
    by intros [= _ <-].
  - rewrite updateDeviceGroupMembership_unfold by done.
    destruct (computeDiff _ _ _ _) as [[rm ad]|e0]; [|by intros [= _ <-]].
    pose proof (applyChanges_spec app g ad rm (at_try g w) (committed w) eq_refl) as Hspec.
    unfold wp in Hspec.
    destruct (applyChanges _ _ _ _ _ _) as [[g'|e0] w1]; simpl in *; [done|].
    intros [= _ <-]. simpl. apply Hspec.
Qed.

(** X2: whatever the arguments and the outcome, a call changes no table
    but Devices, creates and deletes no device, and changes no column of a
    device but DeviceGroupId; and a DeviceGroupId only goes from null to
    this group's id or from this group's id to null.  A device of another
    group is never taken from it. *)
Theorem membership_transitions app dg a r s w res w' :
  updateDeviceGroupMembership app dg a r s w = (res, w') →
  groups (committed w') = groups (committed w)
  ∧ applications (committed w') = applications (committed w)
  ∧ teams (committed w') = teams (committed w)
  ∧ snapshots (committed w') = snapshots (committed w)
  ∧ ∀ k,
      match devices (committed w) !! k with
      | None => devices (committed w') !! k = None
      | Some d =>
          ∃ d', devices (committed w') !! k = Some d'
            ∧ same_but_group d d'
            ∧ (Device.DeviceGroupId d' = Device.DeviceGroupId d
               ∨ ∃ g, dg = GObject g
                   ∧ ((Device.DeviceGroupId d = None
                       ∧ Device.DeviceGroupId d' = Some (DeviceGroup.id g))
                      ∨ (Device.DeviceGroupId d = Some (DeviceGroup.id g)
                         ∧ Device.DeviceGroupId d' = None)))
      end.
Proof.
  intros Hrun.
  assert (Hsame : committed w' = committed w →
    groups (committed w') = groups (committed w)
    ∧ applications (committed w') = applications (committed w)
    ∧ teams (committed w') = teams (committed w)
    ∧ snapshots (committed w') = snapshots (committed w)
    ∧ ∀ k,
        match devices (committed w) !! k with
        | None => devices (committed w') !! k = None
        | Some d =>
            ∃ d', devices (committed w') !! k = Some d'
              ∧ same_but_group d d'
              ∧ (Device.DeviceGroupId d' = Device.DeviceGroupId d
                 ∨ ∃ g, dg = GObject g
                     ∧ ((Device.DeviceGroupId d = None
                         ∧ Device.DeviceGroupId d' = Some (DeviceGroup.id g))
                        ∨ (Device.DeviceGroupId d = Some (DeviceGroup.id g)
                           ∧ Device.DeviceGroupId d' = None)))
        end).
  { intros ->. do 4 (split; [done|]). intros k.
    destruct (devices (committed w) !! k) as [d|] eqn:Hd; [|done].
    exists d. split; [done|]. split; [apply same_but_group_refl|by left]. }
  destruct res as [res|e]; [|by eapply Hsame, updateDeviceGroupMembership_throw].
  destruct (truthy s || truthy a || truthy r) eqn:Htruthy;
    [|rewrite nothing_to_do in Hrun by done; injection Hrun as <- <-; by apply Hsame].
  destruct dg as [|b|g].
  - unfold updateDeviceGroupMembership in Hrun.
    replace (negb (truthy s) && negb (truthy a) && negb (truthy r)) with false in Hrun
      by (by destruct (truthy s), (truthy a), (truthy r)). done.
  - unfold updateDeviceGroupMembership in Hrun.
    replace (negb (truthy s) && negb (truthy a) && negb (truthy r)) with false in Hrun
      by (by destruct (truthy s), (truthy a), (truthy r)). done.
  - apply updateDeviceGroupMembership_ok in Hrun; [|done].
    destruct Hrun as (rm & ad & g' & Hdiff & _ & Hres & Hadd & _ & Hc & _).
    clear Hsame. rewrite Hc. do 4 (split; [done|]). intros k. simpl.
    rewrite reconciled_lookup.
    destruct (devices (committed w) !! k) as [d|] eqn:Hd; [|done]. simpl.
    eexists. split; [done|].
    destruct (decide (Some k ∈ ad)) as [Hin|Hin];
      [rewrite (bool_decide_eq_true_2 _ Hin)|rewrite (bool_decide_eq_false_2 _ Hin)];
      cbv zeta.
    + destruct (added_rows_exist g' _ _ Hadd _ Hin) as (k' & d0 & [= <-] & Hd0 & Hg).
      rewrite Hd in Hd0. injection Hd0 as <-.
      rewrite (resolved_from_id _ _ _ Hres) in Hg.
      destruct (decide (Some k ∈ rm)) as [Hrm|Hrm];
        [rewrite (bool_decide_eq_true_2 _ Hrm)|rewrite (bool_decide_eq_false_2 _ Hrm)];
        simpl.
      * rewrite bool_decide_eq_true_2 by done.
        split; [by destruct d|]. simpl. destruct Hg as [Hg|Hg]; [by left|]. right. eauto.
      * split; [by destruct d|]. simpl. destruct Hg as [Hg|Hg]; [|by left]. right. eauto.
    + destruct (decide (Some k ∈ rm)) as [Hrm|Hrm];
        [rewrite (bool_decide_eq_true_2 _ Hrm)|rewrite (bool_decide_eq_false_2 _ Hrm)];
        simpl; [|split; [apply same_but_group_refl|by left]].
      case_bool_decide as Hg; simpl; [|split; [apply same_but_group_refl|by left]].
      split; [by destruct d|]. right. eauto.
Qed.

Lemma X2_witness :
  ∃ res w',
    updateDeviceGroupMembership Sample.app (GObject Sample.group) AUndefined AUndefined
      (AArray [RefNum 2; RefNum 3; RefHash "d4"]) Sample.world = (res, w')
    ∧ groups (committed w') = groups Sample.store
    ∧ applications (committed w') = applications Sample.store
    ∧ ∃ d', devices (committed w') !! 1 = Some d'
        ∧ same_but_group (Sample.device (Some 1) 1 (Some 7) "d1") d'
        ∧ (Device.DeviceGroupId d' = Some 1
           ∨ ∃ g, GObject Sample.group = GObject g
               ∧ ((Some 1 = None ∧ Device.DeviceGroupId d' = Some (DeviceGroup.id g))
                  ∨ (Some 1 = Some (DeviceGroup.id g) ∧ Device.DeviceGroupId d' = None))).
Proof.
  eexists _, _. split; [vm_compute; reflexivity|].
  match goal with
  | |- groups (committed ?w') = _ ∧ _ =>
      destruct (membership_transitions Sample.app (GObject Sample.group) AUndefined AUndefined
                  (AArray [RefNum 2; RefNum 3; RefHash "d4"]) Sample.world
                  (Ok (GObject Sample.resolved_group)) w' ltac:(vm_compute; reflexivity))
        as (Hg & Ha & _ & _ & Hk)
  end.
  split; [exact Hg|]. split; [exact Ha|]. exact (Hk 1).
Defined.

(** ** The transaction is opened once and always closed *)

Lemma wp_and {A} (m : M A) (Q1 Q2 : Outcome A → World → Prop) w :
  wp m Q1 w → wp m Q2 w → wp m (λ r w', Q1 r w' ∧ Q2 r w') w.
Proof. unfold wp. auto. Qed.

Lemma grew_by_refl P w : grew_by P w w.
Proof. exists []. by rewrite app_nil_r. Qed.

Lemma grew_by_trans P w1 w2 w3 : grew_by P w1 w2 → grew_by P w2 w3 → grew_by P w1 w3.
Proof.
  intros (l1 & H1 & HP1) (l2 & H2 & HP2). exists (l1 ++ l2).
  split; [by rewrite H2, H1, app_assoc|]. by apply Forall_app.
Qed.

Lemma grew_by_snoc (P : Event → bool) w e c k :
  P e = true → grew_by P w (mkWorld c k (log w ++ [e])).
Proof.
  intros He. exists [e]. split; [done|]. apply Forall_singleton. by apply Is_true_true.
Qed.

Lemma statement_log app e w :
  in_apply e = true →
  wp (statement app e) (λ _ w', grew_by in_apply w w') w.
Proof.
  intros He. apply wp_statement. intros r _. by apply grew_by_snoc.
Qed.

Lemma validateDeviceList_log app dg addL remL w :
  wp (validateDeviceList app dg addL remL) (λ _ w', grew_by in_apply w w') w.
Proof.
  unfold validateDeviceList.
  destruct dg as [|b|g0]; [apply wp_throw, grew_by_refl..|].
  apply wp_bind.
  apply (wp_mono _ (λ _ w', grew_by in_apply w w')).
  { destruct (DeviceGroup.Application g0); [apply wp_ret, grew_by_refl|].
    unfold reload. apply wp_bind, wp_emit. apply wp_bind, wp_gets. simpl.
    destruct (groups (committed w) !! DeviceGroup.id g0);
      [apply wp_ret|apply wp_throw]; by apply grew_by_snoc. }
  intros [g|e] w1 H1; [|done].
  destruct (DeviceGroup.Application g) as [ap|]; [|by apply wp_throw].
  destruct (negb (truthy_id (Application.TeamId ap))); [by apply wp_throw|].
  assert (Hcount : ∀ (ids : option (list jsid)) (wh : list jsid → DeviceWhere) msg w2,
    grew_by in_apply w w2 →
    wp (if ids is Some l then
          okCount ← Device_count app (wh l);
          if bool_decide (okCount ≠ length l)
          then throw (DeviceGroupMembershipValidationError "invalid_input" msg 400)
          else mret tt
        else mret tt) (λ _ w', grew_by in_apply w w') w2).
  { intros [l|] wh msg w2 H2; [|by apply wp_ret].
    apply wp_bind. unfold Device_count. apply wp_bind.
    eapply wp_mono; [by apply statement_log|].
    intros [[]|e] w3 H3; [|by eapply grew_by_trans].
    apply wp_gets. case_bool_decide; [apply wp_throw|apply wp_ret]; by eapply grew_by_trans. }
  apply wp_bind. eapply wp_mono; [by apply Hcount|].
  intros [[]|e] w2 H2; [|done].
  apply wp_bind. eapply wp_mono; [by apply Hcount|].
  intros [[]|e] w3 H3; [|done]. by apply wp_ret.
Qed.

Lemma Device_update_log app v wh t w :
  wp (Device_update app v wh t) (λ _ w', grew_by in_apply w w') w.
Proof.
  unfold Device_update. apply wp_bind.
  eapply wp_mono; [by apply statement_log|].
  intros [[]|e] w1 H1; [|done].
  unfold wp, write_devices. destruct t as [t|]; [|done].
  by destruct (working w1).
Qed.

Lemma assignDevicesToGroup_log app dg refs t w :
  wp (assignDevicesToGroup app dg refs t) (λ _ w', grew_by in_apply w w') w.
Proof.
  unfold assignDevicesToGroup. apply wp_bind.
  eapply wp_mono; [apply validateDeviceList_log|].
  intros [[g ids]|e] w1 H1; [|done].
  apply wp_bind. eapply wp_mono; [apply Device_update_log|].
  intros [[]|e] w2 H2; [apply wp_ret|]; by eapply grew_by_trans.
Qed.

Lemma removeDevicesFromGroup_log app dg refs t w :
  wp (removeDevicesFromGroup app dg refs t) (λ _ w', grew_by in_apply w w') w.
Proof.
  unfold removeDevicesFromGroup. apply wp_bind.
  eapply wp_mono; [apply validateDeviceList_log|].
  intros [[g ids]|e] w1 H1; [|done].
  apply wp_bind. eapply wp_mono; [apply Device_update_log|].
  intros [[]|e] w2 H2; [apply wp_ret|]; by eapply grew_by_trans.
Qed.

(** The log of the [try] block: reloads, counts and updates, and a commit
    at the very end when the block succeeds or when it is the commit that
    the database refuses. *)
Lemma applyChanges_log app g ad rm w s0 :
  working w = Some s0 →
  wp (applyChanges app g ad rm Txn)
     (λ r w', ∃ l closing, Forall (λ e, Is_true (in_apply e)) l
                   ∧ log w' = log w ++ l ++ closing
                   ∧ match r with
                     | Ok _ => closing = [EvCommit]
                     | Throw _ =>
                         closing = []
                         ∨ (closing = [EvCommit] ∧ is_Some (db_fault app EvCommit))
                     end) w.
Proof.
  intros Hs0.
  assert (Hthrow : ∀ w', grew_by in_apply w w' →
            ∃ l closing, Forall (λ e, Is_true (in_apply e)) l
              ∧ log w' = log w ++ l ++ closing
              ∧ (closing = []
                 ∨ (closing = [EvCommit] ∧ is_Some (db_fault app EvCommit)))).
  { intros w' (l & Hl & HP). exists l, []. rewrite app_nil_r. auto. }
  unfold applyChanges. apply wp_bind.
  apply (wp_mono _ (λ r w1, grew_by in_apply w w1 ∧ (∀ g1, r = Ok g1 → is_Some (working w1)))).
  { destruct (0 <? length ad)%nat.
    - apply wp_and; [apply assignDevicesToGroup_log|].
      eapply wp_mono; [apply assignDevicesToGroup_spec|].
      intros [g1|e] w1 H g1' Heq; [|done].
      destruct H as (_ & _ & _ & _ & _ & _ & _ & _ & _ & s & _ & ->). eauto.
    - apply wp_ret. split; [apply grew_by_refl|]. intros. rewrite Hs0. eauto. }
  intros [g1|e] w1 [H1 Hk1]; [|by apply Hthrow].
  destruct (Hk1 g1 eq_refl) as [s1 Hs1].
  apply wp_bind.
  apply (wp_mono _ (λ r w2, grew_by in_apply w w2 ∧ (∀ g2, r = Ok g2 → is_Some (working w2)))).
  { destruct (0 <? length rm)%nat.
    - apply wp_and.
      + eapply wp_mono; [apply removeDevicesFromGroup_log|].
        intros r' w2 H2. by eapply grew_by_trans.
      + eapply wp_mono; [apply removeDevicesFromGroup_spec|].
        intros [g2|e] w2 H g2' Heq; [|done].
        destruct H as (_ & _ & _ & _ & _ & _ & _ & _ & _ & s & _ & ->). eauto.
    - apply wp_ret. split; [done|]. intros. rewrite Hs1. eauto. }
  intros [g2|e] w2 [H2 Hk2]; [|by apply Hthrow].
  destruct (Hk2 g2 eq_refl) as [s2 Hs2].
  apply wp_bind. unfold wp, commit. rewrite Hs2.
  destruct H2 as (l & Hl & HP).
  destruct (db_fault app EvCommit) as [msg|] eqn:Hcommit; simpl;
    exists l, [EvCommit]; rewrite Hl, <- app_assoc; eauto.
Qed.

(** X3: once there is something to do, the call first reads the members;
    if the lists cannot be computed it throws there, with no transaction
    opened.  Otherwise it opens one transaction and always closes it: the
    calls that follow are reloads, counts and updates only, and the last
    call is a commit when the call succeeds and a rollback when it throws,
    the rollback coming right after the commit when it is the commit that
    the database refused; no working copy is left. *)
Theorem transaction_discipline app g a r s w res w' :
  truthy s || truthy a || truthy r = true →
  updateDeviceGroupMembership app (GObject g) a r s w = (res, w') →
  match computeDiff (currentMemberIds app g (committed w))
          (and_deviceListToIds s (decodeHashid app))
          (and_deviceListToIds a (decodeHashid app))
          (and_deviceListToIds r (decodeHashid app)) with
  | Throw e =>
      res = Throw e
      ∧ w' = mkWorld (committed w) (working w) (log w ++ [EvGetDevices (DeviceGroup.id g)])
  | Ok _ =>
      working w' = None
      ∧ ∃ l closing, Forall (λ e, Is_true (in_apply e)) l
          ∧ log w' = log w ++ [EvGetDevices (DeviceGroup.id g); EvTransaction] ++ l
                     ++ closing
          ∧ match res with
            | Ok _ => closing = [EvCommit]
            | Throw _ =>
                closing = [EvRollback]
                ∨ (closing = [EvCommit; EvRollback] ∧ is_Some (db_fault app EvCommit))
            end
  end.
Proof.
  intros Htruthy. rewrite updateDeviceGroupMembership_unfold by done.
  destruct (computeDiff _ _ _ _) as [[rm ad]|e]; [|by intros [= <- <-]].
  pose proof (applyChanges_spec app g ad rm (at_try g w) (committed w) eq_refl) as Hspec.
  pose proof (applyChanges_log app g ad rm (at_try g w) (committed w) eq_refl) as Hlog.
  unfold wp in Hspec, Hlog.
  destruct (applyChanges _ _ _ _ _ _) as [[g'|e] w1]; simpl in *.
  - intros [= <- <-]. destruct Hspec as (_ & _ & _ & _ & Hk & _).
    split; [done|]. destruct Hlog as (l & closing & HP & -> & ->).
    exists l, [EvCommit]. split; [done|]. split; [|done].
    by rewrite <- !app_assoc.
  - intros [= <- <-]. simpl. split; [done|].
    destruct Hlog as (l & closing & HP & -> & Hclosing).
    exists l, (closing ++ [EvRollback]). split; [done|]. split.
    + by rewrite <- !app_assoc.
    + destruct Hclosing as [->|[-> Hrefused]]; [by left|by right].
Qed.

Lemma X3_witness :
  ∃ res w',
    updateDeviceGroupMembership Sample.faulty_app (GObject Sample.group)
      (AArray [RefNum 4]) (AArray [RefNum 2]) AUndefined Sample.world = (res, w')
    ∧ working w' = None
    ∧ ∃ l closing, Forall (λ e, Is_true (in_apply e)) l
        ∧ log w' = [EvGetDevices 1; EvTransaction] ++ l ++ closing
        ∧ (closing = [EvRollback]
           ∨ (closing = [EvCommit; EvRollback]
              ∧ is_Some (db_fault Sample.faulty_app EvCommit))).
Proof.
  eexists _, _. split; [vm_compute; reflexivity|].
  match goal with
  | |- working ?w' = _ ∧ _ =>
      pose proof (transaction_discipline Sample.faulty_app Sample.group
                    (AArray [RefNum 4]) (AArray [RefNum 2]) AUndefined Sample.world
                    (Throw (Error "Failed to update device group membership: deadlock detected"))
                    w' eq_refl ltac:(vm_compute; reflexivity)) as H
  end.
  exact H.
Defined.

(** ** Null lists, empty lists and empty diffs *)

Lemma and_deviceListToIds_null x dec : and_deviceListToIds x dec = ANull ↔ x = ANull.
Proof. by destruct x. Qed.

Lemma and_deviceListToIds_undefined x dec :
  and_deviceListToIds x dec = AUndefined ↔ x = AUndefined.
Proof. by destruct x. Qed.

(** X4: a list argument that is null rather than absent is not skipped: with
    something to do, the call throws a TypeError right after reading the
    members, before any transaction, exactly when setDevices is null, or
    setDevices is absent and addDevices is null, or setDevices is absent,
    removeDevices is null and the group has members.  In every other case
    the two lists are computed. *)
Theorem null_list_is_a_type_error app g a r s w :
  truthy s || truthy a || truthy r = true →
  let C := currentMemberIds app g (committed w) in
  let null_used := s = ANull ∨ (s = AUndefined ∧ (a = ANull ∨ (r = ANull ∧ C ≠ []))) in
  (null_used →
   ∃ msg, updateDeviceGroupMembership app (GObject g) a r s w
          = (Throw (TypeError msg),
             mkWorld (committed w) (working w) (log w ++ [EvGetDevices (DeviceGroup.id g)])))
  ∧ (¬ null_used →
     ∃ rm ad, computeDiff C (and_deviceListToIds s (decodeHashid app))
                (and_deviceListToIds a (decodeHashid app))
                (and_deviceListToIds r (decodeHashid app)) = Ok (rm, ad)).
Proof.
  intros Htruthy C null_used. split.
  - intros Hnull. rewrite updateDeviceGroupMembership_unfold by done. fold C.
    assert (∃ msg, computeDiff C (and_deviceListToIds s (decodeHashid app))
                     (and_deviceListToIds a (decodeHashid app))
                     (and_deviceListToIds r (decodeHashid app)) = Throw (TypeError msg))
      as [msg ->]; [|eauto].
    unfold computeDiff.
    destruct Hnull as [->|[-> [->|[-> HC]]]]; simpl.
    + case_bool_decide; eauto.
    + destruct r; simpl; try case_bool_decide; eauto.
    + rewrite bool_decide_eq_false_2 by done. eauto.
  - intros Hok.
    destruct (computeDiff C _ _ _) as [[rm ad]|e] eqn:Hdiff; [eauto|].
    destruct Hok. unfold null_used. unfold computeDiff in Hdiff.
    destruct s as [| |ls], a as [| |la], r as [| |lr]; simpl in *; try done;
      try case_bool_decide; try done; auto 10.
Qed.

Lemma X4_witness :
  ∃ msg,
    updateDeviceGroupMembership Sample.app (GObject Sample.group)
      (AArray [RefNum 4]) AUndefined ANull Sample.world
    = (Throw (TypeError msg), mkWorld Sample.store None [EvGetDevices 1]).
Proof.
  destruct (null_list_is_a_type_error Sample.app Sample.group
              (AArray [RefNum 4]) AUndefined ANull Sample.world eq_refl) as [Hnull _].
  apply Hnull. by left.
Defined.




Lemma filter_all_True {A} (P : A → Prop) `{∀ x, Decision (P x)} (l : list A) :
  (∀ x, x ∈ l → P x) → filter P l = l.
Proof.
  induction l as [|x l IH]; intros Hall; [done|].
  rewrite filter_cons_True by (apply Hall; left).
  f_equal. apply IH. intros y Hy. apply Hall. by right.
Qed.

(** X6: an empty array is not an absent argument: a successful call with
    setDevices = [] leaves the group without members, and its only write is
    one update that clears the DeviceGroupId of all current members (no
    write at all when there were none). *)
Theorem empty_set_clears_the_group app g a r w res w' :
  updateDeviceGroupMembership app (GObject g) a r (AArray []) w = (Ok res, w') →
  let C := currentMemberIds app g (committed w) in
  (∀ k, ¬ is_member (DeviceGroup.id g) (committed w') k)
  ∧ writes w' = writes w ++ (if C is [] then []
                             else [EvUpdate None (unassign_where g C) true]).
Proof.
  intros Hrun C. split.
  - intros k Hk.
    pose proof (set_mode_final _ _ _ _ _ _ _ _ Hrun (Some k)) as [_ Hin].
    assert (Hnil : Some k ∈ deviceListToIds [] (decodeHashid app)) by eauto.
    by apply elem_of_nil in Hnil.
  - apply updateDeviceGroupMembership_ok in Hrun; [|done].
    destruct Hrun as (rm & ad & g' & Hdiff & _ & _ & _ & _ & _ & _ & Hw).
    rewrite and_deviceListToIds_array, computeDiff_set in Hdiff.
    injection Hdiff as <- <-. fold C in Hw. rewrite Hw.
    rewrite (filter_all_True _ C) by (intros d _; apply not_elem_of_nil).
    f_equal.
Qed.

Lemma X6_witness :
  ∃ res w',
    updateDeviceGroupMembership Sample.app (GObject Sample.group) AUndefined AUndefined
      (AArray []) Sample.world = (Ok res, w')
    ∧ (∀ k, ¬ is_member 1 (committed w') k)
    ∧ writes w'
      = [EvUpdate None (mkWhere [Some 3; Some 2; Some 1] (Some [Some 1]) None None) true].
Proof.
  eexists _, _. split; [vm_compute; reflexivity|].
  match goal with
  | |- (∀ k, ¬ is_member 1 (committed ?w') k) ∧ _ =>
      destruct (empty_set_clears_the_group Sample.app Sample.group AUndefined AUndefined
                  Sample.world (GObject Sample.resolved_group) w'
                  ltac:(vm_compute; reflexivity)) as [Hnone Hw]
  end.
  split; [exact Hnone|]. etransitivity; [exact Hw|]. vm_compute. reflexivity.
Defined.

(** ** The two primitives on their own *)

Lemma validateDeviceList_remove app g0 g ap deviceList w :
  resolved_from (committed w) g0 g →
  DeviceGroup.Application g = Some ap →
  truthy_id (Application.TeamId ap) = true →
  let ids := deviceListToIds deviceList (decodeHashid app) in
  let query := EvCount (remove_where g (Application.TeamId ap) ids) in
  let w1 := mkWorld (committed w) (working w)
              (log w ++ (if DeviceGroup.Application g0 is Some _ then []
                         else [EvReload (DeviceGroup.id g0)]) ++ [query]) in
  db_fault app query = None →
  validateDeviceList app (GObject g0) None (Some deviceList) w
  = if bool_decide (count_rows (remove_where g (Application.TeamId ap) ids)
                      (devices (committed w)) ≠ length ids)
    then (Throw (DeviceGroupMembershipValidationError "invalid_input"
                   "One or more devices cannot be removed from the group" 400), w1)
    else (Ok (g, DeviceIds.mk None (Some ids)), w1).
Proof.
  intros Hres Hap Hteam ids query w1 Hfault. unfold validateDeviceList.
  assert (Hload : (if DeviceGroup.Application g0 is Some _ then mret g0 else reload true g0) w
                  = (Ok g, mkWorld (committed w) (working w)
                             (log w ++ (if DeviceGroup.Application g0 is Some _ then []
                                        else [EvReload (DeviceGroup.id g0)])))).
  { destruct Hres as [->|(Hnone & row & Hrow & ->)].
    - rewrite Hap. unfold mret, M_ret. rewrite app_nil_r. by destruct w.
    - rewrite Hnone. unfold reload, mbind, M_bind, emit, gets, mret, M_ret. simpl.
      by rewrite Hrow. }
  unfold mbind at 1, M_bind at 1. rewrite Hload, Hap, Hteam. simpl. fold ids.
  unfold Device_count, statement, mbind, M_bind, emit, gets, mret, M_ret, throw. simpl.
  fold query. rewrite Hfault. simpl. rewrite <- app_assoc. fold w1. by case_bool_decide.
Qed.

(** X7: for a group whose application is loaded (by the caller or by the
    reload of the validation) and has a team, and a count the database
    answers, the validation of a remove batch succeeds if and only if the
    batch names no device twice and every entry is a device whose
    DeviceGroupId is this group's id and whose ApplicationId and TeamId are
    the group's; otherwise [validateDeviceList] throws
    DeviceGroupMembershipValidationError 'invalid_input' (400) and
    [removeDevicesFromGroup] throws it too without having updated anything. *)
Theorem validate_remove_batch app g0 g ap deviceList t w :
  resolved_from (committed w) g0 g →
  DeviceGroup.Application g = Some ap →
  truthy_id (Application.TeamId ap) = true →
  let ids := deviceListToIds deviceList (decodeHashid app) in
  let query := EvCount (remove_where g (Application.TeamId ap) ids) in
  let valid := NoDup ids ∧ ∀ i, i ∈ ids → removable g (Application.TeamId ap) (committed w) i in
  let w1 := mkWorld (committed w) (working w)
              (log w ++ (if DeviceGroup.Application g0 is Some _ then []
                         else [EvReload (DeviceGroup.id g0)]) ++ [query]) in
  let err := DeviceGroupMembershipValidationError "invalid_input"
               "One or more devices cannot be removed from the group" 400 in
  db_fault app query = None →
  (validateDeviceList app (GObject g0) None (Some deviceList) w
   = (Ok (g, DeviceIds.mk None (Some ids)), w1) ↔ valid)
  ∧ (¬ valid →
     validateDeviceList app (GObject g0) None (Some deviceList) w = (Throw err, w1)
     ∧ removeDevicesFromGroup app (GObject g0) deviceList t w = (Throw err, w1)).
Proof.
  intros Hres Hap Hteam ids query valid w1 err Hfault.
  assert (Hcount : count_rows (remove_where g (Application.TeamId ap) ids)
                     (devices (committed w)) = length ids ↔ valid).
  { rewrite (count_rows_full (remove_where g (Application.TeamId ap) ids)). unfold valid.
    simpl. split; intros [Hnd Hall]; (split; [done|]); intros i Hi;
      by eapply selects_remove_where, Hall. }
  pose proof (validateDeviceList_remove app g0 g ap deviceList w Hres Hap Hteam Hfault) as Hrun.
  cbv zeta in Hrun. fold ids query w1 err in Hrun.
  split.
  - rewrite Hrun. case_bool_decide as Hc.
    + split; [done|]. intros Hv. by apply Hcount in Hv.
    + split; [intros _; by apply Hcount|done].
  - intros Hinvalid. assert (Hne : count_rows (remove_where g (Application.TeamId ap) ids)
                                     (devices (committed w)) ≠ length ids)
      by (intros Hc; by apply Hinvalid, Hcount).
    rewrite bool_decide_eq_true_2 in Hrun by done.
    split; [done|]. unfold removeDevicesFromGroup, mbind, M_bind. by rewrite Hrun.
Qed.

Lemma X7_witness :
  removeDevicesFromGroup Sample.app (GObject Sample.group)
    [RefNum 1; RefNum 4] None Sample.world
  = (Throw (DeviceGroupMembershipValidationError "invalid_input"
              "One or more devices cannot be removed from the group" 400),
     mkWorld Sample.store None
       [EvReload 1; EvCount (remove_where Sample.resolved_group (Some 1) [Some 1; Some 4])]).
Proof.
  assert (Hres : resolved_from (committed Sample.world) Sample.group Sample.resolved_group).
  { right. split; [reflexivity|].
    exists (DeviceGroupRow.mk (Some "Group") None (Some 1)). split; reflexivity. }
  destruct (validate_remove_batch Sample.app Sample.group Sample.resolved_group
              (Application.mk "app1" (Some 1) None) [RefNum 1; RefNum 4] None Sample.world
              Hres eq_refl eq_refl eq_refl) as (_ & Hthrow).
  apply Hthrow. intros [_ Hall].
  destruct (Hall (Some 4)) as (k & d & Hk & Hd & Hg & _); [by right; left|].
  injection Hk as <-. vm_compute in Hd. injection Hd as <-. discriminate Hg.
Defined.

Lemma is_member_update_unassign g ids s k :
  is_member (DeviceGroup.id g)
    (set_devices (update_rows None (unassign_where g ids) (devices s)) s) k
  ↔ is_member (DeviceGroup.id g) s k ∧ Some k ∉ ids.
Proof.
  unfold is_member. simpl. rewrite update_rows_lookup.
  destruct (devices s !! k) as [d|]; simpl; [|split; [by intros (? & [=] & _)|by intros [(? & [=] & _) _]]].
  rewrite row_matches_unassign. split.
  - intros (d' & [= <-] & Hg).
    destruct (decide (Some k ∈ ids)) as [Hin|Hin].
    + rewrite (bool_decide_eq_true_2 _ Hin) in Hg. simpl in Hg.
      case_bool_decide; simpl in *; [done|]. congruence.
    + rewrite (bool_decide_eq_false_2 _ Hin) in Hg. simpl in Hg. eauto.
  - intros [(d' & [= <-] & Hg) Hout]. eexists. split; [done|].
    by rewrite (bool_decide_eq_false_2 _ Hout).
Qed.

Lemma is_member_update_assign g ids s k :
  (∀ i, i ∈ ids → ∃ k d, i = Some k ∧ devices s !! k = Some d) →
  is_member (DeviceGroup.id g)
    (set_devices (update_rows (Some (DeviceGroup.id g)) (assign_where ids) (devices s)) s) k
  ↔ is_member (DeviceGroup.id g) s k ∨ Some k ∈ ids.
Proof.
  intros Hrows. unfold is_member. simpl. rewrite update_rows_lookup.
  destruct (devices s !! k) as [d|] eqn:Hd; simpl.
  - rewrite row_matches_assign. split.
    + intros (d' & [= <-] & Hg). case_bool_decide; [by right|left; eauto].
    + intros [(d' & [= <-] & Hg)|Hin]; eexists; (split; [done|]).
      * by case_bool_decide.
      * by rewrite bool_decide_eq_true_2.
  - split; [by intros (? & [=] & _)|].
    intros [(? & [=] & _)|Hin]. destruct (Hrows _ Hin) as (k' & d & [= <-] & Hd').
    congruence.
Qed.

(** X8: a successful [removeDevicesFromGroup] outside a transaction was given
    a batch without repetition whose entries were all members of the group;
    afterwards the members are the former members less the batch, each
    listed device has lost only its DeviceGroupId, and every other device
    and the Groups table are untouched. *)
Theorem removeDevicesFromGroup_effect app g deviceList w g' w' :
  removeDevicesFromGroup app (GObject g) deviceList None w = (Ok g', w') →
  let ids := deviceListToIds deviceList (decodeHashid app) in
  NoDup ids
  ∧ (∀ i, i ∈ ids → ∃ k, i = Some k ∧ is_member (DeviceGroup.id g) (committed w) k)
  ∧ (∀ k, is_member (DeviceGroup.id g) (committed w') k
          ↔ is_member (DeviceGroup.id g) (committed w) k ∧ Some k ∉ ids)
  ∧ (∀ k, Some k ∉ ids → devices (committed w') !! k = devices (committed w) !! k)
  ∧ (∀ k d, Some k ∈ ids → devices (committed w) !! k = Some d →
            devices (committed w') !! k = Some (Device.set_DeviceGroupId None d))
  ∧ groups (committed w') = groups (committed w)
  ∧ working w' = working w.
Proof.
  intros Hrun ids.
  pose proof (wp_run _ _ _ _ _ (removeDevicesFromGroup_spec app (GObject g) deviceList None w) Hrun)
    as (g0 & ap & [= <-] & Hres & Hap & _ & Hcount & _ & Hc & Hk).
  cbv zeta in Hcount, Hc. fold ids in Hcount, Hc.
  pose proof (resolved_from_id _ _ _ Hres) as Hid.
  rewrite (unassign_where_id g g') in Hc by done.
  apply (count_rows_full (remove_where g' (Application.TeamId ap) ids)) in Hcount
    as [Hnd Hall].
  assert (Hmem : ∀ i, i ∈ ids → ∃ k d, i = Some k ∧ devices (committed w) !! k = Some d
                        ∧ Device.DeviceGroupId d = Some (DeviceGroup.id g)).
  { intros i Hi. apply Hall in Hi.
    apply (selects_remove_where g' _ ids _ (committed w)) in Hi; [|done].
    destruct Hi as (k & d & -> & Hd & Hg & _). rewrite Hid in Hg. eauto. }
  split; [done|]. split.
  { intros i Hi. destruct (Hmem i Hi) as (k & d & -> & Hd & Hg). exists k.
    split; [done|]. by exists d. }
  rewrite Hc. split; [apply is_member_update_unassign|]. split; [|split; [|done]].
  - intros k Hout. simpl. rewrite update_rows_lookup.
    destruct (devices (committed w) !! k) as [d|]; [|done]. simpl.
    by rewrite row_matches_unassign, (bool_decide_eq_false_2 _ Hout).
  - intros k d Hin Hd. simpl. rewrite update_rows_lookup, Hd. simpl.
    destruct (Hmem _ Hin) as (k' & d' & [= <-] & Hd' & Hg).
    rewrite Hd in Hd'. injection Hd' as <-.
    by rewrite row_matches_unassign, !bool_decide_eq_true_2.
Qed.

Lemma X8_witness :
  ∃ g' w',
    removeDevicesFromGroup Sample.app (GObject Sample.group) [RefObj 1] None Sample.world
    = (Ok g', w')
    ∧ (∀ k, is_member 1 (committed w') k ↔ is_member 1 Sample.store k ∧ Some k ∉ [Some 1])
    ∧ devices (committed w') !! 1 = Some (Sample.device None 1 (Some 7) "d1").
Proof.
  eexists _, _. split; [vm_compute; reflexivity|].
  match goal with
  | |- (∀ k, is_member 1 (committed ?w') k ↔ _) ∧ _ =>
      destruct (removeDevicesFromGroup_effect Sample.app Sample.group [RefObj 1] Sample.world
                  Sample.resolved_group w' ltac:(vm_compute; reflexivity))
        as (_ & _ & Hmem & _ & Hrow & _)
  end.
  split; [exact Hmem|].
  apply (Hrow 1 (Sample.device (Some 1) 1 (Some 7) "d1")); [by left|reflexivity].
Defined.

(** X9: a successful [assignDevicesToGroup] outside a transaction was given
    a batch without repetition whose entries were all existing devices that
    were unassigned or already in the group (never in another group);
    afterwards the members are the former members and the batch, each
    listed device has changed only its DeviceGroupId, and every other
    device and the Groups table are untouched. *)
Theorem assignDevicesToGroup_effect app g deviceList w g' w' :
  assignDevicesToGroup app (GObject g) deviceList None w = (Ok g', w') →
  let ids := deviceListToIds deviceList (decodeHashid app) in
  NoDup ids
  ∧ (∀ i, i ∈ ids → ∃ k d, i = Some k ∧ devices (committed w) !! k = Some d
        ∧ (Device.DeviceGroupId d = None
           ∨ Device.DeviceGroupId d = Some (DeviceGroup.id g)))
  ∧ (∀ k, is_member (DeviceGroup.id g) (committed w') k
          ↔ is_member (DeviceGroup.id g) (committed w) k ∨ Some k ∈ ids)
  ∧ (∀ k, Some k ∉ ids → devices (committed w') !! k = devices (committed w) !! k)
  ∧ (∀ k d, Some k ∈ ids → devices (committed w) !! k = Some d →
            devices (committed w') !! k
            = Some (Device.set_DeviceGroupId (Some (DeviceGroup.id g)) d))
  ∧ groups (committed w') = groups (committed w)
  ∧ working w' = working w.
Proof.
  intros Hrun ids.
  pose proof (wp_run _ _ _ _ _ (assignDevicesToGroup_spec app (GObject g) deviceList None w) Hrun)
    as (g0 & ap & [= <-] & Hres & Hap & _ & Hcount & _ & Hc & Hk).
  cbv zeta in Hcount, Hc. fold ids in Hcount, Hc.
  pose proof (resolved_from_id _ _ _ Hres) as Hid. rewrite Hid in Hc.
  apply (count_rows_full (add_where g' (Application.TeamId ap) ids)) in Hcount
    as [Hnd Hall].
  assert (Hrows : ∀ i, i ∈ ids → ∃ k d, i = Some k ∧ devices (committed w) !! k = Some d
                        ∧ (Device.DeviceGroupId d = None
                           ∨ Device.DeviceGroupId d = Some (DeviceGroup.id g))).
  { intros i Hi. apply Hall in Hi.
    apply (selects_add_where g' _ ids _ (committed w)) in Hi; [|done].
    destruct Hi as (k & d & -> & Hd & Hg & _). rewrite Hid in Hg. eauto. }
  split; [done|]. split; [done|]. rewrite Hc. split.
  { intros k. apply is_member_update_assign. intros i Hi.
    destruct (Hrows i Hi) as (k' & d & ? & ? & _). eauto. }
  split; [|split; [|done]].
  - intros k Hout. simpl. rewrite update_rows_lookup.
    destruct (devices (committed w) !! k) as [d|]; [|done]. simpl.
    by rewrite row_matches_assign, (bool_decide_eq_false_2 _ Hout).
  - intros k d Hin Hd. simpl. rewrite update_rows_lookup, Hd. simpl.
    by rewrite row_matches_assign, bool_decide_eq_true_2.
Qed.

Lemma X9_witness :
  ∃ g' w',
    assignDevicesToGroup Sample.app (GObject Sample.group) [RefHash "d4"] None Sample.world
    = (Ok g', w')
    ∧ (∀ k, is_member 1 (committed w') k ↔ is_member 1 Sample.store k ∨ Some k ∈ [Some 4])
    ∧ devices (committed w') !! 5 = devices Sample.store !! 5.
Proof.
  eexists _, _. split; [vm_compute; reflexivity|].
  match goal with
  | |- (∀ k, is_member 1 (committed ?w') k ↔ _) ∧ _ =>
      destruct (assignDevicesToGroup_effect Sample.app Sample.group [RefHash "d4"]
                  Sample.world Sample.resolved_group w' ltac:(vm_compute; reflexivity))
        as (_ & _ & Hmem & Hother & _)
  end.
  split; [exact Hmem|]. apply (Hother 5). intros Hin. vm_compute in Hin.
  apply elem_of_cons in Hin as [Hin|Hin]; [discriminate Hin|by apply elem_of_nil in Hin].
Defined.

(** ** Runs of the primitives on valid batches *)

Lemma assignDevicesToGroup_run app g0 g ap refs t w :
  resolved_from (committed w) g0 g →
  DeviceGroup.Application g = Some ap →
  truthy_id (Application.TeamId ap) = true →
  (∀ e, db_fault app e = None) →
  let ids := deviceListToIds refs (decodeHashid app) in
  NoDup ids →
  (∀ i, i ∈ ids → eligible g (Application.TeamId ap) (committed w) i) →
  assignDevicesToGroup app (GObject g0) refs t w
  = match write_devices (Some (DeviceGroup.id g)) (assign_where ids) t
            (mkWorld (committed w) (working w)
               (log w ++ validation_log g0 (EvCount (add_where g (Application.TeamId ap) ids))
                      ++ [EvUpdate (Some (DeviceGroup.id g)) (assign_where ids)
                            (if t is Some _ then true else false)])) with
    | (Ok _, w') => (Ok g, w')
    | (Throw e, w') => (Throw e, w')
    end.
Proof.
  intros Hres Hap Hteam Hfault ids Hnd Hel.
  unfold assignDevicesToGroup. unfold mbind at 1, M_bind at 1.
  rewrite (validateDeviceList_add app g0 g ap refs w Hres Hap Hteam (Hfault _)).
  fold ids. rewrite bool_decide_eq_false_2.
  - simpl. unfold Device_update, statement, mbind, M_bind, emit, mret, M_ret. simpl.
    rewrite Hfault. unfold validation_log. rewrite <- !app_assoc. simpl.
    by destruct (write_devices _ _ _ _) as [[[]|e] w'].
  - intros Hne. apply Hne.
    apply (count_rows_full (add_where g (Application.TeamId ap) ids)). split; [done|].
    intros i Hi. eapply selects_add_where; [done|]. by apply Hel.
Qed.

Lemma removeDevicesFromGroup_run app g0 g ap refs t w :
  resolved_from (committed w) g0 g →
  DeviceGroup.Application g = Some ap →
  truthy_id (Application.TeamId ap) = true →
  (∀ e, db_fault app e = None) →
  let ids := deviceListToIds refs (decodeHashid app) in
  NoDup ids →
  (∀ i, i ∈ ids → removable g (Application.TeamId ap) (committed w) i) →
  removeDevicesFromGroup app (GObject g0) refs t w
  = match write_devices None (unassign_where g ids) t
            (mkWorld (committed w) (working w)
               (log w ++ validation_log g0 (EvCount (remove_where g (Application.TeamId ap) ids))
                      ++ [EvUpdate None (unassign_where g ids)
                            (if t is Some _ then true else false)])) with
    | (Ok _, w') => (Ok g, w')
    | (Throw e, w') => (Throw e, w')
    end.
Proof.
  intros Hres Hap Hteam Hfault ids Hnd Hel.
  unfold removeDevicesFromGroup. unfold mbind at 1, M_bind at 1.
  rewrite (validateDeviceList_remove app g0 g ap refs w Hres Hap Hteam (Hfault _)).
  fold ids. rewrite bool_decide_eq_false_2.
  - simpl. unfold Device_update, statement, mbind, M_bind, emit, mret, M_ret. simpl.
    rewrite Hfault. unfold validation_log. rewrite <- !app_assoc. simpl.
    by destruct (write_devices _ _ _ _) as [[[]|e] w'].
  - intros Hne. apply Hne.
    apply (count_rows_full (remove_where g (Application.TeamId ap) ids)). split; [done|].
    intros i Hi. eapply selects_remove_where; [done|]. by apply Hel.
Qed.

Lemma update_rows_assign_twice v ids ds :
  update_rows v (assign_where ids) (update_rows v (assign_where ids) ds)
  = update_rows v (assign_where ids) ds.
Proof.
  apply map_eq. intros k. rewrite !update_rows_lookup.
  destruct (ds !! k) as [d|]; [|done]. simpl. rewrite !row_matches_assign.
  by case_bool_decide.
Qed.

(** X10: assigning is idempotent.  With a database that answers, after a
    successful [assignDevicesToGroup] the same call on the same batch
    succeeds again (devices already in the group are accepted) and leaves
    the tables as they are. *)
Theorem assignDevicesToGroup_idempotent app g deviceList w g' w' :
  (∀ e, db_fault app e = None) →
  assignDevicesToGroup app (GObject g) deviceList None w = (Ok g', w') →
  ∃ w'', assignDevicesToGroup app (GObject g') deviceList None w' = (Ok g', w'')
    ∧ committed w'' = committed w'
    ∧ working w'' = working w'.
Proof.
  intros Hfault Hrun.
  pose proof (wp_run _ _ _ _ _ (assignDevicesToGroup_spec app (GObject g) deviceList None w) Hrun)
    as (g0 & ap & [= <-] & Hres & Hap & Hteam & Hcount & _ & Hc & Hk).
  cbv zeta in Hcount, Hc.
  set (ids := deviceListToIds deviceList (decodeHashid app)) in *.
  apply (count_rows_full (add_where g' (Application.TeamId ap) ids)) in Hcount
    as [Hnd Hall].
  assert (Hel : ∀ i, i ∈ ids → eligible g' (Application.TeamId ap) (committed w') i).
  { intros i Hi. pose proof Hi as Hsel. apply Hall in Hsel.
    apply (selects_add_where g' _ ids _ (committed w)) in Hsel; [|done].
    destruct Hsel as (k & d & -> & Hd & Hg & Happ & Htm).
    exists k, (Device.set_DeviceGroupId (Some (DeviceGroup.id g')) d).
    split; [done|]. split.
    - rewrite Hc. simpl. rewrite update_rows_lookup, Hd. simpl.
      by rewrite row_matches_assign, bool_decide_eq_true_2.
    - simpl. auto. }
  rewrite (assignDevicesToGroup_run app g' g' ap deviceList None w')
    by (done || by left).
  simpl. eexists. split; [done|]. simpl. split; [|done].
  rewrite Hc. simpl. unfold set_devices. simpl. f_equal. apply update_rows_assign_twice.
Qed.

Lemma X10_witness :
  ∃ g' w' w'',
    assignDevicesToGroup Sample.app (GObject Sample.group) [RefObj 4] None Sample.world
    = (Ok g', w')
    ∧ assignDevicesToGroup Sample.app (GObject g') [RefObj 4] None w' = (Ok g', w'')
    ∧ committed w'' = committed w'.
Proof.
  destruct (assignDevicesToGroup_idempotent Sample.app Sample.group [RefObj 4] Sample.world
              _ _ (λ _, eq_refl) ltac:(vm_compute; reflexivity)) as (w'' & Hrun & Hc & _).
  eexists _, _, w''. split; [vm_compute; reflexivity|]. split; [exact Hrun|exact Hc].
Defined.

(** X11: assign and remove are inverse on new devices.  With a database that
    answers, after a successful [assignDevicesToGroup] of a batch none of
    whose devices was in the group, [removeDevicesFromGroup] of the same
    batch succeeds and the committed tables are those from before the
    assignment. *)
Theorem assign_then_remove_restores app g deviceList w g' w1 :
  (∀ e, db_fault app e = None) →
  assignDevicesToGroup app (GObject g) deviceList None w = (Ok g', w1) →
  (∀ k, Some k ∈ deviceListToIds deviceList (decodeHashid app) →
        ¬ is_member (DeviceGroup.id g) (committed w) k) →
  ∃ w2, removeDevicesFromGroup app (GObject g') deviceList None w1 = (Ok g', w2)
    ∧ committed w2 = committed w.
Proof.
  intros Hfault Hrun Hnew.
  pose proof (wp_run _ _ _ _ _ (assignDevicesToGroup_spec app (GObject g) deviceList None w) Hrun)
    as (g0 & ap & [= <-] & Hres & Hap & Hteam & Hcount & _ & Hc & Hk).
  cbv zeta in Hcount, Hc.
  set (ids := deviceListToIds deviceList (decodeHashid app)) in *.
  pose proof (resolved_from_id _ _ _ Hres) as Hid.
  apply (count_rows_full (add_where g' (Application.TeamId ap) ids)) in Hcount
    as [Hnd Hall].
  assert (Hrows : ∀ i, i ∈ ids → ∃ k d, i = Some k ∧ devices (committed w) !! k = Some d
                     ∧ Device.DeviceGroupId d = None
                     ∧ Device.ApplicationId d = DeviceGroup.ApplicationId g'
                     ∧ Device.TeamId d = Application.TeamId ap).
  { intros i Hi. pose proof Hi as Hsel. apply Hall in Hsel.
    apply (selects_add_where g' _ ids _ (committed w)) in Hsel; [|done].
    destruct Hsel as (k & d & -> & Hd & Hg & Happ & Htm).
    exists k, d. split; [done|]. split; [done|]. split; [|done].
    destruct Hg as [Hg|Hg]; [done|]. destruct (Hnew k Hi). exists d. by rewrite <- Hid. }
  assert (Hrem : ∀ i, i ∈ ids → removable g' (Application.TeamId ap) (committed w1) i).
  { intros i Hi. destruct (Hrows i Hi) as (k & d & -> & Hd & Hg & Happ & Htm).
    exists k, (Device.set_DeviceGroupId (Some (DeviceGroup.id g')) d).
    split; [done|]. split; [|done].
    rewrite Hc. simpl. rewrite update_rows_lookup, Hd. simpl.
    by rewrite row_matches_assign, bool_decide_eq_true_2. }
  rewrite (removeDevicesFromGroup_run app g' g' ap deviceList None w1)
    by (done || by left).
  simpl. eexists. split; [done|]. simpl. rewrite Hc. simpl.
  transitivity (set_devices (devices (committed w)) (committed w)); [|by destruct (committed w)].
  unfold set_devices. simpl. f_equal. apply map_eq. intros k.
  rewrite !update_rows_lookup.
  destruct (devices (committed w) !! k) as [d|] eqn:Hd; [|done]. simpl.
  rewrite row_matches_assign. destruct (decide (Some k ∈ ids)) as [Hin|Hout].
  - rewrite (bool_decide_eq_true_2 _ Hin), row_matches_unassign.
    rewrite (bool_decide_eq_true_2 _ Hin). simpl. rewrite bool_decide_eq_true_2 by done.
    simpl. destruct (Hrows _ Hin) as (k' & d' & [= <-] & Hd' & Hg & _).
    rewrite Hd in Hd'. injection Hd' as <-. destruct d. simpl in *. by rewrite Hg.
  - rewrite (bool_decide_eq_false_2 _ Hout), row_matches_unassign.
    by rewrite (bool_decide_eq_false_2 _ Hout).
Qed.

Lemma X11_witness :
  ∃ g' w1 w2,
    assignDevicesToGroup Sample.app (GObject Sample.group) [RefHash "d4"] None Sample.world
    = (Ok g', w1)
    ∧ removeDevicesFromGroup Sample.app (GObject g') [RefHash "d4"] None w1 = (Ok g', w2)
    ∧ committed w2 = Sample.store.
Proof.
  destruct (assign_then_remove_restores Sample.app Sample.group [RefHash "d4"] Sample.world
              _ _ (λ _, eq_refl) ltac:(vm_compute; reflexivity)) as (w2 & Hrun & Hc).
  - intros k Hin (d & Hd & Hg). vm_compute in Hin.
    apply elem_of_cons in Hin as [Hin|Hin]; [|by apply elem_of_nil in Hin].
    injection Hin as ->. vm_compute in Hd. injection Hd as <-. discriminate Hg.
  - eexists _, _, w2. split; [vm_compute; reflexivity|]. split; [exact Hrun|exact Hc].
Defined.

(** ** When a reconciliation succeeds *)

Lemma resolved_from_unique s g g1 g2 ap1 ap2 :
  resolved_from s g g1 → DeviceGroup.Application g1 = Some ap1 →
  resolved_from s g g2 → DeviceGroup.Application g2 = Some ap2 →
  g1 = g2.
Proof.
  intros [->|(Hn1 & row1 & Hrow1 & ->)] Hap1 [->|(Hn2 & row2 & Hrow2 & ->)] Hap2;
    try done; try congruence.
Qed.

Lemma applyChanges_valid app g g' ap ad rm w :
  (∀ e, db_fault app e = None) →
  resolved_from (committed w) g g' →
  DeviceGroup.Application g' = Some ap →
  truthy_id (Application.TeamId ap) = true →
  NoDup ad → (∀ i, i ∈ ad → eligible g' (Application.TeamId ap) (committed w) i) →
  NoDup rm → (∀ i, i ∈ rm → removable g' (Application.TeamId ap) (committed w) i) →
  ∃ g'' w', applyChanges app g ad rm Txn (at_try g w) = (Ok g'', w').
Proof.
  intros Hfault Hres Hap Hteam Hnda Hel Hndr Hrem.
  unfold applyChanges.
  assert (∃ g1 w1,
    (if (0 <? length ad)%nat
     then assignDevicesToGroup app (GObject g) (ref_of_id <$> ad) (Some Txn)
     else mret g) (at_try g w) = (Ok g1, w1)
    ∧ committed w1 = committed w ∧ is_Some (working w1)
    ∧ resolved_from (committed w) g1 g') as (g1 & w1 & Hrun1 & Hc1 & [s1 Hk1] & Hres1).
  { destruct (0 <? length ad)%nat.
    - rewrite (assignDevicesToGroup_run app g g' ap (ref_of_id <$> ad) (Some Txn) (at_try g w));
        rewrite ?deviceListToIds_ref_of_id; try done.
      simpl. eexists _, _. split; [done|]. simpl. split; [done|]. split; [eauto|by left].
    - eexists _, _. split; [done|]. simpl. split; [done|]. split; [eauto|done]. }
  assert (∃ g2 w2,
    (if (0 <? length rm)%nat
     then removeDevicesFromGroup app (GObject g1) (ref_of_id <$> rm) (Some Txn)
     else mret g1) w1 = (Ok g2, w2)
    ∧ is_Some (working w2)) as (g2 & w2 & Hrun2 & [s2 Hk2]).
  { destruct (0 <? length rm)%nat.
    - rewrite (removeDevicesFromGroup_run app g1 g' ap (ref_of_id <$> rm) (Some Txn) w1);
        rewrite ?deviceListToIds_ref_of_id, ?Hc1; try done.
      unfold write_devices. simpl. rewrite Hk1. eexists _, _. split; [done|]. simpl. eauto.
    - eexists _, _. split; [done|]. eauto. }
  unfold mbind, M_bind. rewrite Hrun1, Hrun2. unfold commit. rewrite Hk2, Hfault. eauto.
Qed.

(** X12: exactly when a reconciliation succeeds.  For a database that
    answers, a group whose application resolves and has a team, and lists
    toRemove and toAdd that could be computed, the call succeeds if and
    only if toAdd names no device twice, each of its devices exists, is
    unassigned or in this group, and has the group's application and team,
    and each device of toRemove is in this group and has the group's
    application and team. *)
Theorem valid_request_succeeds app g g' ap a r s w rm ad :
  (∀ e, db_fault app e = None) →
  resolved_from (committed w) g g' →
  DeviceGroup.Application g' = Some ap →
  truthy_id (Application.TeamId ap) = true →
  truthy s || truthy a || truthy r = true →
  computeDiff (currentMemberIds app g (committed w))
    (and_deviceListToIds s (decodeHashid app))
    (and_deviceListToIds a (decodeHashid app))
    (and_deviceListToIds r (decodeHashid app)) = Ok (rm, ad) →
  (∃ res w', updateDeviceGroupMembership app (GObject g) a r s w = (Ok res, w'))
  ↔ NoDup ad
    ∧ (∀ i, i ∈ ad → eligible g' (Application.TeamId ap) (committed w) i)
    ∧ (∀ i, i ∈ rm → removable g' (Application.TeamId ap) (committed w) i).
Proof.
  intros Hfault Hres Hap Hteam Htruthy Hdiff. split.
  - intros (res & w' & Hrun).
    apply updateDeviceGroupMembership_ok in Hrun; [|done].
    destruct Hrun as (rm' & ad' & g'' & Hdiff' & _ & Hres' & Hadd & Hrem & _).
    rewrite Hdiff in Hdiff'. injection Hdiff' as <- <-.
    assert (Hsame : ∀ ap', DeviceGroup.Application g'' = Some ap' → g'' = g' ∧ ap' = ap).
    { intros ap' Hap'. assert (g'' = g') as -> by by eapply resolved_from_unique.
      split; [done|]. congruence. }
    split; [|split].
    + destruct (decide (ad = [])) as [->|Hne]; [constructor|].
      by destruct (Hadd Hne) as (_ & _ & _ & Hnd & _).
    + intros i Hi. destruct Hadd as (ap' & Hap' & _ & _ & Hel).
      * intros ->. by apply elem_of_nil in Hi.
      * destruct (Hsame _ Hap') as [-> ->]. by apply Hel.
    + intros i Hi. destruct Hrem as (ap' & Hap' & _ & _ & Hel).
      * intros ->. by apply elem_of_nil in Hi.
      * destruct (Hsame _ Hap') as [-> ->]. by apply Hel.
  - intros (Hnd & Hel & Hrem).
    assert (Hndr : NoDup rm).
    { apply computeDiff_ok in Hdiff.
      destruct (and_deviceListToIds s (decodeHashid app)); [|done|];
        destruct Hdiff as [-> _]; apply NoDup_filter, currentMemberIds_NoDup. }
    destruct (applyChanges_valid app g g' ap ad rm w) as (g'' & w' & Happly); try done.
    rewrite updateDeviceGroupMembership_unfold, Hdiff, Happly by done. eauto.
Qed.

Lemma X12_witness :
  NoDup [Some 4]
  ∧ (∀ i, i ∈ [Some 4] → eligible Sample.resolved_group (Some 1) Sample.store i)
  ∧ (∀ i, i ∈ [Some 2] → removable Sample.resolved_group (Some 1) Sample.store i).
Proof.
  assert (Hres : resolved_from (committed Sample.world) Sample.group Sample.resolved_group).
  { right. split; [reflexivity|].
    exists (DeviceGroupRow.mk (Some "Group") None (Some 1)). split; reflexivity. }
  apply (valid_request_succeeds Sample.app Sample.group Sample.resolved_group
           (Application.mk "app1" (Some 1) None)
           (AArray [RefNum 4]) (AArray [RefNum 2]) AUndefined Sample.world
           [Some 2] [Some 4] (λ _, eq_refl) Hres eq_refl eq_refl eq_refl
           ltac:(vm_compute; reflexivity)).
  eexists _, _. vm_compute. reflexivity.
Defined.

(** ** A group that does not resolve *)

(** X13: the group is checked before any device.  [assignDevicesToGroup] and
    [removeDevicesFromGroup] throw 'DeviceGroup is required' for a missing
    or non-object group without calling anything; for a group whose loaded
    application has no team they throw 'DeviceGroup must belong to an
    Application that belongs to a Team' without calling anything; and for a
    group whose application is not loaded they reload it once and then
    throw: the reload's own error when the row is gone, a TypeError when
    the row has no application, the team error when that application has no
    team.  In none of these cases is a count or an update issued. *)
Theorem group_must_resolve app deviceList t w :
  let both (dg : GroupArg) (r : Outcome DeviceGroup.t * World) :=
    assignDevicesToGroup app dg deviceList t w = r
    ∧ removeDevicesFromGroup app dg deviceList t w = r in
  let reloaded g :=
    mkWorld (committed w) (working w) (log w ++ [EvReload (DeviceGroup.id g)]) in
  let no_team := Error "DeviceGroup must belong to an Application that belongs to a Team" in
  (∀ dg, (∀ g, dg ≠ GObject g) → both dg (Throw (Error "DeviceGroup is required"), w))
  ∧ (∀ g ap, DeviceGroup.Application g = Some ap →
       truthy_id (Application.TeamId ap) = false → both (GObject g) (Throw no_team, w))
  ∧ (∀ g, DeviceGroup.Application g = None →
       match groups (committed w) !! DeviceGroup.id g with
       | None => ∃ e, both (GObject g) (Throw e, reloaded g)
       | Some row =>
           match DeviceGroupRow.ApplicationId row ≫= λ i, applications (committed w) !! i with
           | None =>
               both (GObject g)
                 (Throw (TypeError "Cannot read properties of null (reading 'TeamId')"),
                  reloaded g)
           | Some ap =>
               truthy_id (Application.TeamId ap) = false →
               both (GObject g) (Throw no_team, reloaded g)
           end
       end).
Proof.
  intros both reloaded no_team. unfold both. split; [|split].
  - intros [|b|g] Hobj; [done..|]. by destruct (Hobj g).
  - intros g ap Hap Hteam.
    unfold assignDevicesToGroup, removeDevicesFromGroup, validateDeviceList.
    rewrite Hap. unfold mbind, M_bind, mret, M_ret. by rewrite Hap, Hteam.
  - intros g Hnone.
    unfold assignDevicesToGroup, removeDevicesFromGroup, validateDeviceList, reload.
    rewrite Hnone. unfold mbind, M_bind, mret, M_ret, emit, gets. simpl.
    destruct (groups (committed w) !! DeviceGroup.id g) as [row|]; simpl; [|eauto].
    destruct (DeviceGroupRow.ApplicationId row) as [aid|]; simpl; [|done].
    destruct (applications (committed w) !! aid) as [ap|]; simpl; [|done].
    intros Hteam. by rewrite Hteam.
Qed.

Lemma X13_witness :
  assignDevicesToGroup Sample.app GNull [RefNum 4] None Sample.world
  = (Throw (Error "DeviceGroup is required"), Sample.world)
  ∧ removeDevicesFromGroup Sample.app
      (GObject (DeviceGroup.mk 1 (Some "Group") None (Some 1)
                  (Some (Application.mk "app1" None None)) None None []))
      [RefNum 1] None Sample.world
    = (Throw (Error "DeviceGroup must belong to an Application that belongs to a Team"),
       Sample.world).
Proof.
  destruct (group_must_resolve Sample.app [RefNum 4] None Sample.world) as (Hmissing & _).
  destruct (group_must_resolve Sample.app [RefNum 1] None Sample.world) as (_ & Hteam & _).
  split.
  - apply (Hmissing GNull). intros g. discriminate.
  - eapply Hteam; reflexivity.
Defined.

(** ** The notifier, whatever happens *)

Lemma for_of_sendUpdateTo_any app g a tpl l w :
  ownerType tpl = "application" → licensed tpl = license_active app →
  (∀ kd, kd ∈ l → devices (committed w) !! kd.1 = Some kd.2
                  ∧ Device.DeviceGroupId kd.2 = Some (DeviceGroup.id g)) →
  wp (for_of l (sendUpdateTo g a tpl))
     (λ _ w', committed w' = committed w ∧ working w' = working w
              ∧ ∃ cmds, log w' = log w ++ cmds
                  ∧ Forall (update_for_member_at_target app g (committed w)) cmds) w.
Proof.
  intros Howner Hlic. revert w. induction l as [|kd l IH]; intros w Hmem.
  - apply wp_ret. split; [done|]. split; [done|]. exists []. by rewrite app_nil_r.
  - simpl. apply wp_bind. unfold sendUpdateTo at 1.
    assert (Hrest : ∀ w1 cmds, committed w1 = committed w → working w1 = working w →
              log w1 = log w ++ cmds →
              Forall (update_for_member_at_target app g (committed w)) cmds →
              wp (for_of l (sendUpdateTo g a tpl))
                 (λ _ w', committed w' = committed w ∧ working w' = working w
                    ∧ ∃ cmds, log w' = log w ++ cmds
                        ∧ Forall (update_for_member_at_target app g (committed w)) cmds) w1).
    { intros w1 cmds Hc Hk Hlog Hcmds. eapply wp_mono.
      - apply IH. intros kd' Hkd'. rewrite Hc. apply Hmem. by right.
      - intros r w' (Hc' & Hk' & cmds' & Hlog' & Hcmds'). rewrite Hc', Hk'.
        split; [done|]. split; [done|]. exists (cmds ++ cmds').
        split; [by rewrite Hlog', Hlog, app_assoc|].
        apply Forall_app. split; [done|]. by rewrite <- Hc. }
    destruct (DeviceGroup.PipelineStageDeviceGroup g) as [stage|] eqn:Hstage.
    + case_bool_decide as Htarget.
      * apply wp_ret. apply (Hrest w []); [done..|by rewrite app_nil_r|constructor].
      * destruct (Application.Team a) as [team|].
        -- apply wp_emit. eapply (Hrest _ [_]); [done..|].
           apply Forall_singleton. destruct (Hmem kd) as [Hd Hg]; [by left|].
           exists (Team.hashid team), kd.1, kd.2, stage. eexists.
           split; [done|]. simpl. split_and!; done.
        -- apply wp_throw. split; [done|]. split; [done|]. exists []. by rewrite app_nil_r.
    + apply wp_throw. split; [done|]. split; [done|]. exists []. by rewrite app_nil_r.
Qed.

(** X14: whatever happens (messaging layer absent, application, team or
    snapshot not resolved, an exception part way), [sendUpdateCommand]
    changes no table and opens no transaction; without a messaging layer it
    calls nothing at all; and every call it makes is a read or an 'update'
    command addressed to a member of the group whose targetSnapshotId is
    that of the group's pipeline stage, with ownerType 'application', the
    device's settingsHash or null, the device's mode and the licence flag:
    no device at another target, and no device outside the group, is ever
    sent a command. *)
Theorem sendUpdateCommand_only_notifies app g w r w' :
  sendUpdateCommand app g w = (r, w') →
  committed w' = committed w
  ∧ working w' = working w
  ∧ (comms app = false → r = Ok tt ∧ w' = w)
  ∧ ∃ new, log w' = log w ++ new
      ∧ ∀ e, e ∈ new →
          is_lookup e = true ∨ update_for_member_at_target app g (committed w) e.
Proof.
  intros Hrun.
  cut (wp (sendUpdateCommand app g)
          (λ r w', committed w' = committed w ∧ working w' = working w
             ∧ (comms app = false → r = Ok tt ∧ w' = w)
             ∧ ∃ new, log w' = log w ++ new
                 ∧ ∀ e, e ∈ new →
                     is_lookup e = true
                     ∨ update_for_member_at_target app g (committed w) e) w).
  { intros Hwp. exact (wp_run _ _ _ _ _ Hwp Hrun). }
  clear Hrun. unfold sendUpdateCommand.
  destruct (comms app) eqn:Hcomms.
  2:{ apply wp_ret. do 3 (split; [done|]). exists []. split; [by rewrite app_nil_r|].
      intros e He. by apply elem_of_nil in He. }
  assert (Hstop : ∀ (pre : list Event) (o : Outcome unit) w1,
            committed w1 = committed w → working w1 = working w →
            log w1 = log w ++ pre → Forall (λ e, is_lookup e = true) pre →
            committed w1 = committed w ∧ working w1 = working w
            ∧ (true = false → o = Ok tt ∧ w1 = w)
            ∧ ∃ new, log w1 = log w ++ new
                ∧ ∀ e, e ∈ new →
                    is_lookup e = true
                    ∨ update_for_member_at_target app g (committed w) e).
  { intros pre o w1 Hc Hk Hlog Hpre. do 3 (split; [done|]). exists pre. split; [done|].
    intros e He. left. by eapply Forall_forall in Hpre. }
  apply wp_bind. unfold getApplication. apply wp_bind, wp_emit. apply wp_bind, wp_gets.
  apply wp_ret. apply wp_bind. simpl.
  set (w1 := mkWorld (committed w) (working w) (log w ++ [EvGetApplication (DeviceGroup.id g)])).
  set (application := _ ≫= _).
  apply (wp_mono _ (λ _ w2, committed w2 = committed w ∧ working w2 = working w
                      ∧ ∃ pre, log w2 = log w ++ pre ∧ Forall (λ e, is_lookup e = true) pre)).
  { destruct (DeviceGroup.targetSnapshot g) as [snap|].
    - apply wp_ret. do 2 (split; [done|]). exists [EvGetApplication (DeviceGroup.id g)].
      split; [done|]. by repeat constructor.
    - destruct (DeviceGroup.PipelineStageDeviceGroup g) as [stage|].
      + unfold ProjectSnapshot_byId. apply wp_bind, wp_emit. apply wp_bind, wp_gets.
        apply wp_ret. do 2 (split; [done|]). eexists [_; _]. simpl.
        split; [by rewrite <- app_assoc|]. by repeat constructor.
      + apply wp_throw. do 2 (split; [done|]). exists [EvGetApplication (DeviceGroup.id g)].
        split; [done|]. by repeat constructor. }
  intros [targetSnapshot|e2] w2 (Hc2 & Hk2 & pre & Hlog2 & Hpre); [|by eapply Hstop].
  destruct application as [a|]; [|apply wp_throw; by eapply Hstop].
  destruct targetSnapshot as [snap|]; [|apply wp_throw; by eapply Hstop].
  apply wp_bind. unfold getDevices. apply wp_bind, wp_emit. apply wp_gets. simpl.
  eapply wp_mono.
  - apply (for_of_sendUpdateTo_any app); [done..|].
    intros [k d] Hkd. simpl. by apply members_of_spec in Hkd.
  - intros r3 w3 (Hc3 & Hk3 & cmds & Hlog3 & Hcmds). simpl in *.
    rewrite Hc3, Hk3. do 3 (split; [done|]).
    exists (pre ++ [EvGetDevices (DeviceGroup.id g)] ++ cmds).
    split; [by rewrite Hlog3, Hlog2, <- !app_assoc|].
    intros e He. rewrite !elem_of_app, list_elem_of_singleton in He.
    destruct He as [He|[->|He]].
    + left. by eapply Forall_forall in Hpre.
    + by left.
    + right. rewrite <- Hc2. by eapply Forall_forall in Hcmds.
Qed.

Lemma X14_witness :
  ∃ r w',
    sendUpdateCommand Sample.app Sample.group Sample.world = (r, w')
    ∧ committed w' = Sample.store
    ∧ ∃ new, log w' = new
        ∧ ∀ e, e ∈ new →
            is_lookup e = true ∨ update_for_member_at_target Sample.app Sample.group Sample.store e.
Proof.
  eexists _, _. split; [vm_compute; reflexivity|].
  match goal with
  | |- committed ?w' = _ ∧ _ =>
      destruct (sendUpdateCommand_only_notifies Sample.app Sample.group Sample.world
                  (Ok tt) w' ltac:(vm_compute; reflexivity)) as (Hc & _ & _ & new & Hlog & Hnew)
  end.
  split; [exact Hc|]. exists new. split; [exact Hlog|exact Hnew].
Defined.

(** ** The three forms of a device reference *)

Lemma truthy_and_deviceListToIds x dec : truthy (and_deviceListToIds x dec) = truthy x.
Proof. by destruct x. Qed.

(** X15: the three forms of a device reference are interchangeable.  A call
    of [updateDeviceGroupMembership], [assignDevicesToGroup] or
    [removeDevicesFromGroup] depends on its lists only through the ids
    [deviceListToIds] gives: a device passed as its numeric id, as an object
    with that id, or as a hash id that decodes to it gives the same outcome
    and the same world. *)
Theorem reference_forms_interchangeable app dg w :
  (∀ a1 r1 s1 a2 r2 s2,
     and_deviceListToIds a1 (decodeHashid app) = and_deviceListToIds a2 (decodeHashid app) →
     and_deviceListToIds r1 (decodeHashid app) = and_deviceListToIds r2 (decodeHashid app) →
     and_deviceListToIds s1 (decodeHashid app) = and_deviceListToIds s2 (decodeHashid app) →
     updateDeviceGroupMembership app dg a1 r1 s1 w
     = updateDeviceGroupMembership app dg a2 r2 s2 w)
  ∧ (∀ l1 l2 t,
       deviceListToIds l1 (decodeHashid app) = deviceListToIds l2 (decodeHashid app) →
       assignDevicesToGroup app dg l1 t w = assignDevicesToGroup app dg l2 t w
       ∧ removeDevicesFromGroup app dg l1 t w = removeDevicesFromGroup app dg l2 t w).
Proof.
  split.
  - intros a1 r1 s1 a2 r2 s2 Ha Hr Hs.
    assert (Hta : truthy a1 = truthy a2)
      by (by rewrite <- (truthy_and_deviceListToIds a1 (decodeHashid app)), Ha,
                     truthy_and_deviceListToIds).
    assert (Htr : truthy r1 = truthy r2)
      by (by rewrite <- (truthy_and_deviceListToIds r1 (decodeHashid app)), Hr,
                     truthy_and_deviceListToIds).
    assert (Hts : truthy s1 = truthy s2)
      by (by rewrite <- (truthy_and_deviceListToIds s1 (decodeHashid app)), Hs,
                     truthy_and_deviceListToIds).
    unfold updateDeviceGroupMembership. rewrite Hta, Htr, Hts.
    destruct (negb (truthy s2) && negb (truthy a2) && negb (truthy r2)); [done|].
    destruct dg as [|b|g]; [done..|]. by rewrite Ha, Hr, Hs.
  - intros l1 l2 t Hl.
    unfold assignDevicesToGroup, removeDevicesFromGroup, validateDeviceList.
    destruct dg as [|b|g]; [done..|]. simpl. by rewrite Hl.
Qed.

Lemma X15_witness :
  updateDeviceGroupMembership Sample.app (GObject Sample.group)
    (AArray [RefNum 4]) (AArray [RefObj 1]) AUndefined Sample.world
  = updateDeviceGroupMembership Sample.app (GObject Sample.group)
      (AArray [RefHash "d4"]) (AArray [RefNum 1]) AUndefined Sample.world
  ∧ assignDevicesToGroup Sample.app (GObject Sample.group) [RefObj 4] None Sample.world
    = assignDevicesToGroup Sample.app (GObject Sample.group) [RefHash "d4"] None Sample.world.
Proof.
  destruct (reference_forms_interchangeable Sample.app (GObject Sample.group) Sample.world)
    as [Hupdate Hprim].
  split.
  - apply Hupdate; reflexivity.
  - apply (Hprim [RefObj 4] [RefHash "d4"] None). reflexivity.
Defined.

(** ** Creating a group *)

Lemma foldr_max_ge (l : list Z) x : x ∈ l → x ≤ foldr Z.max 0 l.
Proof.
  induction l as [|y l IH]; intros Hx; [by apply elem_of_nil in Hx|].
  simpl. apply elem_of_cons in Hx as [->|Hx]; [lia|]. specialize (IH Hx). lia.
Qed.

Lemma next_id_fresh (gs : gmap Z DeviceGroupRow.t) : gs !! next_id gs = None.
Proof.
  destruct (gs !! next_id gs) as [row|] eqn:Hrow; [|done].
  assert (Hin : next_id gs ∈ (map_to_list gs).*1).
  { apply list_elem_of_fmap. exists (next_id gs, row). split; [done|].
    by apply elem_of_map_to_list. }
  apply foldr_max_ge in Hin. unfold next_id in Hin. lia.
Qed.

Lemma createDeviceGroup_run app name application description w g w' :
  createDeviceGroup app name application description w = (Ok g, w') →
  let i := next_id (groups (committed w)) in
  let row := DeviceGroupRow.mk (Some name) description (fst <$> application) in
  g = DeviceGroup.mk i (Some name) description (fst <$> application) None None None []
  ∧ w' = mkWorld (set_groups (<[i := row]> (groups (committed w))) (committed w))
                 (working w) (log w ++ [EvSave i]).
Proof.
  unfold createDeviceGroup, DeviceGroup_create, statement, insert_group,
    mbind, M_bind, gets, emit, mret, M_ret, throw. simpl.
  destruct (db_fault app _); [done|]. by intros [= <- <-].
Qed.

Lemma invariant_new_group s i row :
  membership_invariant s → groups s !! i = None →
  membership_invariant (set_groups (<[i := row]> (groups s)) s)
  ∧ ∀ k, ¬ is_member i (set_groups (<[i := row]> (groups s)) s) k.
Proof.
  intros Hinv Hfresh. split.
  - intros k d gid Hd Hg. destruct (Hinv k d gid Hd Hg) as (row' & aid & arow & Hrow & Hrest).
    exists row', aid, arow. split; [|done]. simpl. rewrite lookup_insert_ne; [done|].
    intros <-. congruence.
  - intros k (d & Hd & Hg). simpl in Hd.
    destruct (Hinv k d _ Hd Hg) as (row' & _ & _ & Hrow & _). congruence.
Qed.

(** X16: a successful [createDeviceGroup] adds exactly one row to the Groups
    table, under an id that was not in use, holding the name, the
    description and the id of the application given (null when none is);
    devices and applications are untouched and the instance returned carries
    the same values.  If the tables satisfied the membership invariant they
    still do, and the new group has no members. *)
Theorem createDeviceGroup_adds_one_empty_group app name application description w g w' :
  createDeviceGroup app name application description w = (Ok g, w') →
  groups (committed w) !! DeviceGroup.id g = None
  ∧ groups (committed w')
    = <[DeviceGroup.id g := DeviceGroupRow.mk (Some name) description (fst <$> application)]>
        (groups (committed w))
  ∧ devices (committed w') = devices (committed w)
  ∧ applications (committed w') = applications (committed w)
  ∧ DeviceGroup.name g = Some name
  ∧ DeviceGroup.description g = description
  ∧ DeviceGroup.ApplicationId g = fst <$> application
  ∧ (membership_invariant (committed w) →
     membership_invariant (committed w')
     ∧ ∀ k, ¬ is_member (DeviceGroup.id g) (committed w') k).
Proof.
  intros Hrun. apply createDeviceGroup_run in Hrun as [-> ->]. simpl.
  pose proof (next_id_fresh (groups (committed w))) as Hfresh.
  do 7 (split; [done|]). intros Hinv. by apply invariant_new_group.
Qed.

Lemma X16_witness :
  ∃ g w',
    createDeviceGroup Sample.app "Edge" (Some (1, Application.mk "app1" (Some 1) None))
      (Some "edge devices") Sample.world = (Ok g, w')
    ∧ DeviceGroup.id g = 2
    ∧ groups (committed w') !! 2
      = Some (DeviceGroupRow.mk (Some "Edge") (Some "edge devices") (Some 1))
    ∧ membership_invariant (committed w')
    ∧ ∀ k, ¬ is_member 2 (committed w') k.
Proof.
  eexists _, _. split; [vm_compute; reflexivity|].
  match goal with
  | |- DeviceGroup.id ?g = _ ∧ groups (committed ?w') !! _ = _ ∧ _ =>
      destruct (createDeviceGroup_adds_one_empty_group Sample.app "Edge"
                  (Some (1, Application.mk "app1" (Some 1) None)) (Some "edge devices")
                  Sample.world g w' ltac:(vm_compute; reflexivity))
        as (_ & Hgroups & _ & _ & _ & _ & _ & Hinv)
  end.
  split; [reflexivity|]. split; [rewrite Hgroups; apply lookup_insert_eq|].
  apply Hinv. apply check_membership_sound. vm_compute. reflexivity.
Defined.

Lemma detached_primitives app g deviceList t w :
  DeviceGroup.Application g = None →
  (∃ row, groups (committed w) !! DeviceGroup.id g = Some row
          ∧ DeviceGroupRow.ApplicationId row = None) →
  let failed :=
    (Throw (TypeError "Cannot read properties of null (reading 'TeamId')"),
     mkWorld (committed w) (working w) (log w ++ [EvReload (DeviceGroup.id g)])) in
  assignDevicesToGroup app (GObject g) deviceList t w = failed
  ∧ removeDevicesFromGroup app (GObject g) deviceList t w = failed.
Proof.
  intros Hnone (row & Hrow & Happ).
  unfold assignDevicesToGroup, removeDevicesFromGroup, validateDeviceList, reload,
    mbind, M_bind, emit, gets, mret, M_ret. simpl.
  rewrite Hnone. simpl. rewrite Hrow. simpl. by rewrite Happ.
Qed.

Lemma detached_update app g a r s rm ad w :
  DeviceGroup.Application g = None →
  (∃ row, groups (committed w) !! DeviceGroup.id g = Some row
          ∧ DeviceGroupRow.ApplicationId row = None) →
  truthy s || truthy a || truthy r = true →
  computeDiff (currentMemberIds app g (committed w))
    (and_deviceListToIds s (decodeHashid app))
    (and_deviceListToIds a (decodeHashid app))
    (and_deviceListToIds r (decodeHashid app)) = Ok (rm, ad) →
  ad ≠ [] ∨ rm ≠ [] →
  ∃ w2, updateDeviceGroupMembership app (GObject g) a r s w
        = (Throw (match db_fault app EvRollback with
                  | Some msg => Error msg
                  | None => Error "Failed to update device group membership: Cannot read properties of null (reading 'TeamId')"
                  end), w2)
    ∧ committed w2 = committed w.
Proof.
  intros Hnone Hrow Htruthy Hdiff Hne.
  rewrite updateDeviceGroupMembership_unfold, Hdiff by done.
  assert (Happly : applyChanges app g ad rm Txn (at_try g w)
            = (Throw (TypeError "Cannot read properties of null (reading 'TeamId')"),
               mkWorld (committed w) (Some (committed w))
                 (log (at_try g w) ++ [EvReload (DeviceGroup.id g)]))).
  { unfold applyChanges, mbind, M_bind.
    destruct (decide (ad = [])) as [->|Had].
    - destruct Hne as [Hne|Hne]; [done|]. simpl. rewrite nonempty_ltb by done.
      by rewrite (proj2 (detached_primitives app g _ (Some Txn) (at_try g w) Hnone Hrow)).
    - rewrite nonempty_ltb by done.
      by rewrite (proj1 (detached_primitives app g _ (Some Txn) (at_try g w) Hnone Hrow)). }
  rewrite Happly. unfold rethrown, instanceof_validation, wrapped. simpl.
  eexists. split; [by destruct (db_fault app EvRollback)|done].
Qed.

(** X17: a group created without an application can take no device.  On the
    group [createDeviceGroup] returns when no application is given,
    [assignDevicesToGroup] and [removeDevicesFromGroup] reload the group and
    throw a TypeError (the application read back is null) for any batch,
    and [updateDeviceGroupMembership] with anything to add or to remove
    rolls back and throws 'Failed to update device group membership: ...'
    carrying that message (the error of the rollback, if the database
    refuses the rollback), with the committed tables unchanged. *)
Theorem detached_group_takes_no_devices app name description w g w1 :
  createDeviceGroup app name None description w = (Ok g, w1) →
  (∀ deviceList t,
     let failed :=
       (Throw (TypeError "Cannot read properties of null (reading 'TeamId')"),
        mkWorld (committed w1) (working w1) (log w1 ++ [EvReload (DeviceGroup.id g)])) in
     assignDevicesToGroup app (GObject g) deviceList t w1 = failed
     ∧ removeDevicesFromGroup app (GObject g) deviceList t w1 = failed)
  ∧ (∀ a r s rm ad,
       truthy s || truthy a || truthy r = true →
       computeDiff (currentMemberIds app g (committed w1))
         (and_deviceListToIds s (decodeHashid app))
         (and_deviceListToIds a (decodeHashid app))
         (and_deviceListToIds r (decodeHashid app)) = Ok (rm, ad) →
       ad ≠ [] ∨ rm ≠ [] →
       ∃ w2, updateDeviceGroupMembership app (GObject g) a r s w1
             = (Throw (match db_fault app EvRollback with
                       | Some msg => Error msg
                       | None => Error "Failed to update device group membership: Cannot read properties of null (reading 'TeamId')"
                       end), w2)
         ∧ committed w2 = committed w1).
Proof.
  intros Hrun. apply createDeviceGroup_run in Hrun as [-> ->].
  assert (Hrow : ∃ row,
    groups (set_groups (<[next_id (groups (committed w)) :=
                            DeviceGroupRow.mk (Some name) description None]>
                          (groups (committed w))) (committed w))
      !! next_id (groups (committed w)) = Some row
    ∧ DeviceGroupRow.ApplicationId row = None).
  { eexists. split; [apply lookup_insert_eq|done]. }
  split.
  - intros deviceList t. by apply detached_primitives.
  - intros a r s rm ad Htruthy Hdiff Hne. by eapply detached_update.
Qed.

Lemma X17_witness :
  ∃ g w1,
    createDeviceGroup Sample.app "Detached" None None Sample.world = (Ok g, w1)
    ∧ assignDevicesToGroup Sample.app (GObject g) [RefNum 4] None w1
      = (Throw (TypeError "Cannot read properties of null (reading 'TeamId')"),
         mkWorld (committed w1) (working w1) (log w1 ++ [EvReload (DeviceGroup.id g)])).
Proof.
  eexists _, _. split; [vm_compute; reflexivity|].
  match goal with
  | |- assignDevicesToGroup _ (GObject ?g) _ _ ?w1 = _ =>
      destruct (detached_group_takes_no_devices Sample.app "Detached" None Sample.world
                  g w1 ltac:(vm_compute; reflexivity)) as [Hprim _]
  end.
  apply (Hprim [RefNum 4] None).
Defined.

Lemma createDeviceGroup_answers app name application description w :
  (∀ e, db_fault app e = None) →
  let i := next_id (groups (committed w)) in
  createDeviceGroup app name application description w
  = (Ok (DeviceGroup.mk i (Some name) description (fst <$> application) None None None []),
     mkWorld (set_groups (<[i := DeviceGroupRow.mk (Some name) description
                                   (fst <$> application)]> (groups (committed w)))
                (committed w))
             (working w) (log w ++ [EvSave i])).
Proof.
  intros Hfault. unfold createDeviceGroup, DeviceGroup_create, statement, insert_group,
    mbind, M_bind, gets, emit, mret, M_ret, throw. simpl. by rewrite Hfault.
Qed.

(** X18: creating a group and filling it.  With a database that answers and
    tables that satisfy the membership invariant, [createDeviceGroup] for an
    application that has a team, followed by [assignDevicesToGroup] of a
    batch without repetition of unassigned devices of that application and
    team, succeeds; the members of the new group are exactly the batch and
    the invariant holds again. *)
Theorem create_then_assign app name aid a0 arow description deviceList w :
  (∀ e, db_fault app e = None) →
  membership_invariant (committed w) →
  applications (committed w) !! aid = Some arow →
  truthy_id (Application.TeamId arow) = true →
  let ids := deviceListToIds deviceList (decodeHashid app) in
  NoDup ids →
  (∀ i, i ∈ ids → ∃ k d, i = Some k ∧ devices (committed w) !! k = Some d
      ∧ Device.DeviceGroupId d = None
      ∧ Device.ApplicationId d = Some aid
      ∧ Device.TeamId d = Application.TeamId arow) →
  ∃ g w1 g' w2,
    createDeviceGroup app name (Some (aid, a0)) description w = (Ok g, w1)
    ∧ assignDevicesToGroup app (GObject g) deviceList None w1 = (Ok g', w2)
    ∧ (∀ k, is_member (DeviceGroup.id g) (committed w2) k ↔ Some k ∈ ids)
    ∧ membership_invariant (committed w2).
Proof.
  intros Hfault Hinv Happ Hteam ids Hnd Hdevs.
  rewrite createDeviceGroup_answers by done. simpl.
  set (i := next_id (groups (committed w))).
  set (row := DeviceGroupRow.mk (Some name) description (Some aid)).
  set (g := DeviceGroup.mk i (Some name) description (Some aid) None None None []).
  set (s1 := set_groups (<[i := row]> (groups (committed w))) (committed w)).
  set (w1 := mkWorld s1 (working w) (log w ++ [EvSave i])).
  set (g' := refreshed true s1 g row).
  pose proof (next_id_fresh (groups (committed w))) as Hfresh. fold i in Hfresh.
  destruct (invariant_new_group (committed w) i row Hinv Hfresh) as [Hinv1 Hempty].
  fold s1 in Hinv1, Hempty.
  assert (Hrow : groups s1 !! i = Some row) by apply lookup_insert_eq.
  assert (Hres : resolved_from (committed w1) g g').
  { right. split; [done|]. exists row. by split. }
  assert (Hap : DeviceGroup.Application g' = Some arow) by (simpl; by rewrite Happ).
  assert (Hel : ∀ j, j ∈ ids → eligible g' (Application.TeamId arow) (committed w1) j).
  { intros j Hj. destruct (Hdevs j Hj) as (k & d & -> & Hd & Hg & Hda & Hdt).
    exists k, d. split; [done|]. split; [done|]. split; [by left|]. by split. }
  exists g, w1, g'. eexists. split; [done|]. split.
  { rewrite (assignDevicesToGroup_run app g g' arow deviceList None w1) by done.
    simpl. done. }
  simpl. split.
  - intros k.
    assert (Hrows : ∀ j, j ∈ ids → ∃ k d, j = Some k ∧ devices s1 !! k = Some d).
    { intros j Hj. destruct (Hdevs j Hj) as (k' & d & ? & ? & _). eauto. }
    etransitivity; [exact (is_member_update_assign g ids s1 k Hrows)|].
    split; [intros [Hk|Hk]; [by destruct (Hempty k)|done]|by right].
  - apply (invariant_assign s1 g' arow ids); [done| |done|done].
    exists row. split; [done|]. split; [done|]. intros ap Hap'.
    exists aid, arow. split; [done|]. split; [done|]. congruence.
Qed.

Lemma X18_witness :
  ∃ g w1 g' w2,
    createDeviceGroup Sample.app "Edge" (Some (1, Application.mk "app1" (Some 1) None)) None
      Sample.world = (Ok g, w1)
    ∧ assignDevicesToGroup Sample.app (GObject g) [RefHash "d4"] None w1 = (Ok g', w2)
    ∧ (∀ k, is_member (DeviceGroup.id g) (committed w2) k ↔ Some k ∈ [Some 4])
    ∧ membership_invariant (committed w2).
Proof.
  apply (create_then_assign Sample.app "Edge" 1 (Application.mk "app1" (Some 1) None)
           (Application.mk "app1" (Some 1) None) None [RefHash "d4"] Sample.world
           (λ _, eq_refl)).
  - apply check_membership_sound. vm_compute. reflexivity.
  - reflexivity.
  - reflexivity.
  - vm_compute. repeat constructor. intros Hin. by apply elem_of_nil in Hin.
  - intros i Hin. vm_compute in Hin.
    apply elem_of_cons in Hin as [->|Hin]; [|by apply elem_of_nil in Hin].
    exists 4, (Sample.device None 1 None "d4"). repeat split; reflexivity.
Defined.

(** ** Partial updates of a group compose *)

Lemma updateDeviceGroup_run app g name description w row :
  DeviceGroup.changed g = [] →
  groups (committed w) !! DeviceGroup.id g = Some row →
  provided name || provided description = true →
  let row' :=
    DeviceGroupRow.mk
      (if name is Provided v then v else DeviceGroupRow.name row)
      (if description is Provided v then v else DeviceGroupRow.description row)
      (DeviceGroupRow.ApplicationId row) in
  updateDeviceGroup app (GObject g) name description w
  = (Ok (GObject
           (DeviceGroup.mk (DeviceGroup.id g)
              (DeviceGroupRow.name row') (DeviceGroupRow.description row')
              (DeviceGroupRow.ApplicationId row)
              (DeviceGroup.Application g) (DeviceGroup.targetSnapshot g)
              (DeviceGroup.PipelineStageDeviceGroup g) [])),
     mkWorld (set_groups (<[DeviceGroup.id g := row']> (groups (committed w))) (committed w))
             (working w)
             (log w ++ [EvSave (DeviceGroup.id g); EvReload (DeviceGroup.id g)])).
Proof.
  intros Hclean Hrow Hprov.
  destruct name as [|n], description as [|d]; simpl in *; [done|..];
    unfold updateDeviceGroup, save, reload, mbind, M_bind, emit, gets, mret, M_ret;
    simpl; rewrite <- app_assoc; simpl;
    rewrite lookup_alter_eq, Hrow; simpl;
    rewrite (alter_lookup_Some _ _ _ _ Hrow);
    unfold refreshed, saved_row; simpl; rewrite ?Hclean; done.
Qed.

(** X19: partial updates of a group compose.  For an instance without
    pending assignments whose row exists, [updateDeviceGroup] with a name
    only followed, on the instance returned, by [updateDeviceGroup] with a
    description only returns the same instance and leaves the same tables
    as one call providing both; the row then holds the new name and the new
    description and its application is unchanged. *)
Theorem partial_updates_compose app g n d w :
  DeviceGroup.changed g = [] →
  is_Some (groups (committed w) !! DeviceGroup.id g) →
  ∃ g1 w1 g2 w2 w12,
    updateDeviceGroup app (GObject g) (Provided n) Undefined w = (Ok (GObject g1), w1)
    ∧ updateDeviceGroup app (GObject g1) Undefined (Provided d) w1 = (Ok (GObject g2), w2)
    ∧ updateDeviceGroup app (GObject g) (Provided n) (Provided d) w = (Ok (GObject g2), w12)
    ∧ committed w2 = committed w12
    ∧ groups (committed w2) !! DeviceGroup.id g
      = Some (DeviceGroupRow.mk n d (DeviceGroup.ApplicationId g2)).
Proof.
  intros Hclean [row Hrow].
  pose proof (updateDeviceGroup_run app g (Provided n) Undefined w row Hclean Hrow eq_refl)
    as H1.
  pose proof (updateDeviceGroup_run app g (Provided n) (Provided d) w row Hclean Hrow eq_refl)
    as H12.
  cbv zeta in H1, H12. simpl in H1, H12.
  match type of H1 with
  | _ = (Ok (GObject ?g1), ?w1) =>
      pose proof (updateDeviceGroup_run app g1 Undefined (Provided d) w1
                    (DeviceGroupRow.mk n (DeviceGroupRow.description row)
                       (DeviceGroupRow.ApplicationId row))
                    eq_refl (lookup_insert_eq _ _ _) eq_refl) as H2
  end.
  cbv zeta in H2. simpl in H2. rewrite insert_insert_eq in H2.
  eexists _, _, _, _, _. split; [exact H1|]. split; [exact H2|]. split; [exact H12|].
  simpl. split; [done|]. by rewrite lookup_insert_eq.
Qed.

Lemma X19_witness :
  ∃ g1 w1 g2 w2 w12,
    updateDeviceGroup Sample.app (GObject Sample.group) (Provided (Some "Edge")) Undefined
      Sample.world = (Ok (GObject g1), w1)
    ∧ updateDeviceGroup Sample.app (GObject g1) Undefined (Provided (Some "at the edge")) w1
      = (Ok (GObject g2), w2)
    ∧ updateDeviceGroup Sample.app (GObject Sample.group) (Provided (Some "Edge"))
        (Provided (Some "at the edge")) Sample.world = (Ok (GObject g2), w12)
    ∧ committed w2 = committed w12
    ∧ groups (committed w2) !! 1
      = Some (DeviceGroupRow.mk (Some "Edge") (Some "at the edge") (DeviceGroup.ApplicationId g2)).
Proof.
  apply (partial_updates_compose Sample.app Sample.group (Some "Edge") (Some "at the edge")
           Sample.world eq_refl).
  eexists. reflexivity.
Defined.
